(** * go-fielder: typed field cells, conditional gates and the ring state machine

    A shallow embedding of package [fielder] and the properties of its
    specification.  Go values are modelled as follows:

    - [string] is Rocq's [string]; the comparisons [<], [>], [==] on strings
      are the byte-wise lexicographic ones ([String.ltb], [String.eqb]);
    - [int] is a [Z] (64-bit platform), with the range checks of [strconv]
      written out;
    - a pointer receiver that is mutated becomes a function returning the
      updated record;
    - [map[K]V] is a [gmap]; the unspecified iteration order of [range] over a
      map is an explicit argument, a permutation of the map's entries;
    - an [error] result is a value of an inductive type, [nil] is [None].

    The packages [strconv], [time] and [github.com/shopspring/decimal] are not
    part of the repository; the functions the fields call are modelled in the
    modules [strconv], [time] and [decimal] below, after their Go sources. *)

From Stdlib Require Import ZArith String Ascii List Lia Bool.
From stdpp Require Import gmap strings list fin_maps.

Open Scope Z_scope.

(** ** Characters and digit strings *)

Definition isDigit (c : ascii) : bool :=
  (48 <=? Z.of_N (N_of_ascii c)) && (Z.of_N (N_of_ascii c) <=? 57).

Definition digitVal (c : ascii) : Z := Z.of_N (N_of_ascii c) - 48.

Definition digitChar (d : Z) : ascii := ascii_of_N (Z.to_N (48 + d)).

(** Base-10 digits of a non-negative number, most significant first: the
    loop of [strconv.formatBits] and of [big.Int.String], which emits
    [n mod 10] and goes on with [n / 10] until the quotient is zero. *)
Fixpoint fmtDigits (fuel : nat) (n : Z) (acc : list ascii) : list ascii :=
  match fuel with
  | O => acc
  | S fuel' =>
      let acc' := digitChar (n mod 10) :: acc in
      if n <? 10 then acc' else fmtDigits fuel' (n / 10) acc'
  end.

(** Enough fuel for every digit of [n]: a number has at most
    [log2 n + 1] decimal digits. *)
Definition digitsFuel (n : Z) : nat := S (Z.to_nat (Z.log2 n)).

Definition formatNat (n : Z) : list ascii := fmtDigits (digitsFuel n) n [].

(** Value of a digit string read from the left with accumulator [n];
    [None] when a character is not a digit. *)
Fixpoint parseDigits (cs : list ascii) (n : Z) : option Z :=
  match cs with
  | [] => Some n
  | c :: cs' => if isDigit c then parseDigits cs' (n * 10 + digitVal c) else None
  end.

(** ** Package strconv *)

Module strconv.

Inductive NumError := ErrSyntax | ErrRange.

Definition IntSize : Z := 64.
Definition maxUint64 : Z := 2 ^ 64 - 1.

(** The digit loop of [ParseUint] for base 10.  [n] is a [uint64]:
    [n >= cutoff] detects the overflow of [n * 10], and [n1 < n] the
    wrap-around of [n + d]. *)
Fixpoint ParseUint_loop (maxVal : Z) (cs : list ascii) (n : Z) : Z * option NumError :=
  match cs with
  | [] => (n, None)
  | c :: cs' =>
      if isDigit c then
        let d := digitVal c in
        let cutoff := maxUint64 / 10 + 1 in
        if n >=? cutoff then (maxVal, Some ErrRange)
        else
          let n' := n * 10 in
          let n1 := (n' + d) mod 2 ^ 64 in
          if (n1 <? n') || (n1 >? maxVal) then (maxVal, Some ErrRange)
          else ParseUint_loop maxVal cs' n1
      else (0, Some ErrSyntax)
  end.

(** [ParseUint(s, 10, bitSize)]. *)
Definition ParseUint (s : list ascii) (bitSize : Z) : Z * option NumError :=
  match s with
  | [] => (0, Some ErrSyntax)
  | _ =>
      let bitSize := if bitSize =? 0 then IntSize else bitSize in
      ParseUint_loop (2 ^ bitSize - 1) s 0
  end.

(** [ParseInt(s, 10, bitSize)]. *)
Definition ParseInt (s : list ascii) (bitSize : Z) : Z * option NumError :=
  match s with
  | [] => (0, Some ErrSyntax)
  | c :: rest =>
      let '(neg, s') :=
        if Ascii.eqb c "+" then (false, rest)
        else if Ascii.eqb c "-" then (true, rest)
        else (false, s) in
      match ParseUint s' bitSize with
      | (_, Some ErrSyntax) => (0, Some ErrSyntax)
      | (un, _) =>
          let bitSize := if bitSize =? 0 then IntSize else bitSize in
          let cutoff := 2 ^ (bitSize - 1) in
          if negb neg && (un >=? cutoff) then (cutoff - 1, Some ErrRange)
          else if neg && (un >? cutoff) then (- cutoff, Some ErrRange)
          else (if neg then - un else un, None)
      end
  end.

(** [Atoi(s)] is [ParseInt(s, 10, 0)] converted to [int]; its fast path for
    short strings computes the same result. *)
Definition Atoi (s : string) : Z * option NumError :=
  ParseInt (list_ascii_of_string s) 0.

(** [Itoa(i)] is [FormatInt(int64(i), 10)]. *)
Definition Itoa (i : Z) : string :=
  string_of_list_ascii
    (if i <? 0 then "-"%char :: formatNat (- i) else formatNat i).

Definition ParseBool (str : string) : bool * option NumError :=
  if String.eqb str "1" || String.eqb str "t" || String.eqb str "T"
     || String.eqb str "true" || String.eqb str "TRUE" || String.eqb str "True"
  then (true, None)
  else if String.eqb str "0" || String.eqb str "f" || String.eqb str "F"
     || String.eqb str "false" || String.eqb str "FALSE" || String.eqb str "False"
  then (false, None)
  else (false, Some ErrSyntax).

Definition FormatBool (b : bool) : string :=
  if b then "true" else "false".

End strconv.

(** ** Package time *)

Module time.

(** A [time.Time] as it presents itself in its own location: the civil
    date and clock that [Date()] and [Clock()] return, the nanosecond
    within the second, and the zone offset in seconds east of UTC.  These
    determine the instant, which is all that [Equal], [Before], [After]
    and [IsZero] look at. *)
Record Time := mkTime {
  year : Z; month : Z; day : Z;
  hour : Z; minute : Z; second : Z;
  nanosecond : Z;
  zoneOffset : Z
}.

(** [time.Time{}]: January 1, year 1, 00:00:00 UTC. *)
Definition Zero : Time := mkTime 1 1 1 0 0 0 0 0.

Definition isLeap (y : Z) : bool :=
  (y mod 4 =? 0) && (negb (y mod 100 =? 0) || (y mod 400 =? 0)).

Definition daysIn (m y : Z) : Z :=
  if m =? 2 then (if isLeap y then 29 else 28)
  else if (m =? 4) || (m =? 6) || (m =? 9) || (m =? 11) then 30
  else 31.

Definition daysBefore (m : Z) : Z :=
  nth (Z.to_nat (m - 1)) [0; 31; 59; 90; 120; 151; 181; 212; 243; 273; 304; 334] 0.

(** Days from January 1, year 1 to the civil date. *)
Definition daysSinceEpoch (y m d : Z) : Z :=
  let y' := y - 1 in
  365 * y' + y' / 4 - y' / 100 + y' / 400
  + daysBefore m + (if isLeap y && (2 <? m) then 1 else 0) + (d - 1).

(** Seconds of the instant since January 1, year 1, 00:00:00 UTC. *)
Definition absSeconds (t : Time) : Z :=
  daysSinceEpoch (year t) (month t) (day t) * 86400
  + hour t * 3600 + minute t * 60 + second t - zoneOffset t.

Definition Equal (t u : Time) : bool :=
  (absSeconds t =? absSeconds u) && (nanosecond t =? nanosecond u).

Definition Before (t u : Time) : bool :=
  (absSeconds t <? absSeconds u)
  || ((absSeconds t =? absSeconds u) && (nanosecond t <? nanosecond u)).

Definition After (t u : Time) : bool :=
  (absSeconds t >? absSeconds u)
  || ((absSeconds t =? absSeconds u) && (nanosecond t >? nanosecond u)).

Definition IsZero (t : Time) : bool :=
  (absSeconds t =? 0) && (nanosecond t =? 0).

(** [appendInt(b, x, width)]: the decimal form of [x], zero-padded to
    [width] digits, after a minus sign when [x] is negative. *)
Definition appendInt (x : Z) (width : nat) : list ascii :=
  let ds := formatNat (Z.abs x) in
  (if x <? 0 then ["-"%char] else [])
  ++ repeat "0"%char (width - length ds) ++ ds.

(** [t.Format(time.RFC3339)], layout ["2006-01-02T15:04:05Z07:00"]
    ([Time.appendFormatRFC3339] without nanoseconds).  Go's [/] and [%]
    truncate, hence [Z.quot] and [Z.rem]. *)
Definition FormatRFC3339 (t : Time) : string :=
  let zone := Z.quot (zoneOffset t) 60 in
  string_of_list_ascii
    (appendInt (year t) 4 ++ "-"%char :: appendInt (month t) 2
     ++ "-"%char :: appendInt (day t) 2
     ++ "T"%char :: appendInt (hour t) 2
     ++ ":"%char :: appendInt (minute t) 2
     ++ ":"%char :: appendInt (second t) 2
     ++ (if zoneOffset t =? 0 then ["Z"%char]
         else
           (if zone <? 0 then "-"%char else "+"%char)
           :: appendInt (Z.quot (Z.abs zone) 60) 2
           ++ ":"%char :: appendInt (Z.rem (Z.abs zone) 60) 2)).

(** The range-checked field reader local to [parseRFC3339]; the second
    component is its shared [ok] flag. *)
Definition parseUint (cs : list ascii) (min max : Z) : Z * bool :=
  match parseDigits cs 0 with
  | None => (min, false)
  | Some x => if (x <? min) || (max <? x) then (min, false) else (x, true)
  end.

(** Longest prefix of digits. *)
Fixpoint spanDigits (cs : list ascii) : list ascii * list ascii :=
  match cs with
  | c :: cs' =>
      if isDigit c then let '(ds, rest) := spanDigits cs' in (c :: ds, rest)
      else ([], cs)
  | [] => ([], [])
  end.

(** [parseNanoseconds]: at most nine fraction digits count, scaled to
    nanoseconds. *)
Definition parseNanoseconds (frac : list ascii) : Z :=
  let ds := firstn 9 frac in
  match parseDigits ds 0 with
  | Some n => n * 10 ^ Z.of_nat (9 - length ds)
  | None => 0
  end.

(** The zone part of [parseRFC3339]: ["Z"], or a sign and [hh:mm]. *)
Definition parseZone (s : list ascii) : option Z :=
  match s with
  | [z] =>
      if Ascii.eqb z "Z" then Some 0 else None
  | [sg; h1; h2; c; m1; m2] =>
      let '(hr, ok1) := parseUint [h1; h2] 0 23 in
      let '(mm, ok2) := parseUint [m1; m2] 0 59 in
      if ok1 && ok2 && (Ascii.eqb sg "-" || Ascii.eqb sg "+") && Ascii.eqb c ":"
      then
        let zoneOffset := (hr * 60 + mm) * 60 in
        Some (if Ascii.eqb sg "-" then - zoneOffset else zoneOffset)
      else None
  | _ => None
  end.

(** [parseRFC3339], the strict reader that [Parse] tries first for the
    layouts [RFC3339] and [RFC3339Nano]; [None] is its [ok == false]. *)
Definition parseRFC3339 (s : list ascii) : option Time :=
  match s with
  | y1 :: y2 :: y3 :: y4 :: c4 :: mo1 :: mo2 :: c7 :: d1 :: d2 :: c10
    :: h1 :: h2 :: c13 :: mi1 :: mi2 :: c16 :: s1 :: s2 :: rest =>
      let '(year, ok1) := parseUint [y1; y2; y3; y4] 0 9999 in
      let '(month, ok2) := parseUint [mo1; mo2] 1 12 in
      let '(day, ok3) := parseUint [d1; d2] 1 (daysIn month year) in
      let '(hour, ok4) := parseUint [h1; h2] 0 23 in
      let '(min, ok5) := parseUint [mi1; mi2] 0 59 in
      let '(sec, ok6) := parseUint [s1; s2] 0 59 in
      if ok1 && ok2 && ok3 && ok4 && ok5 && ok6
         && Ascii.eqb c4 "-" && Ascii.eqb c7 "-" && Ascii.eqb c10 "T"
         && Ascii.eqb c13 ":" && Ascii.eqb c16 ":"
      then
        let '(nsec, rest') :=
          match rest with
          | p :: f :: _ =>
              if Ascii.eqb p "." && isDigit f
              then let '(ds, r) := spanDigits (tl rest) in (parseNanoseconds ds, r)
              else (0, rest)
          | _ => (0, rest)
          end in
        match parseZone rest' with
        | Some off => Some (mkTime year month day hour min sec nsec off)
        | None => None
        end
      else None
  | _ => None
  end.

(** [getnum(s, fixed)]: a number of one or two digits and the rest of the
    text; with [fixed] two digits are demanded. *)
Definition getnum (s : list ascii) (fixed : bool) : option (Z * list ascii) :=
  match s with
  | c1 :: rest =>
      if isDigit c1 then
        match rest with
        | c2 :: rest' =>
            if isDigit c2 then Some (digitVal c1 * 10 + digitVal c2, rest')
            else if fixed then None else Some (digitVal c1, rest)
        | [] => if fixed then None else Some (digitVal c1, rest)
        end
      else None
  | [] => None
  end.

(** [skip(value, prefix)] for a prefix of one character that is not a
    space. *)
Definition skip (value : list ascii) (c : ascii) : option (list ascii) :=
  match value with
  | c' :: rest => if Ascii.eqb c' c then Some rest else None
  | [] => None
  end.

(** The chunk [Z07:00] of the layout reader: ["Z"], or a sign, [hh], a
    colon and [mm], where the hour may go up to 24 and the minute up to 60
    ("some people do write offsets of 24 hours or 60 minutes"). *)
Definition parseZoneChunk (value : list ascii) : option (Z * list ascii) :=
  match value with
  | z :: rest =>
      if Ascii.eqb z "Z" then Some (0, rest)
      else
        match value with
        | sg :: h1 :: h2 :: c :: m1 :: m2 :: rest' =>
            if Ascii.eqb c ":" then
              match getnum [h1; h2] true, getnum [m1; m2] true with
              | Some (hr, _), Some (mm, _) =>
                  if (hr >? 24) || (mm >? 60) then None
                  else
                    let zoneOffset := (hr * 60 + mm) * 60 in
                    if Ascii.eqb sg "+" then Some (zoneOffset, rest')
                    else if Ascii.eqb sg "-" then Some (- zoneOffset, rest')
                    else None
              | _, _ => None
              end
            else None
        | _ => None
        end
  | [] => None
  end.

(** The fraction that the layout reader takes after the seconds although
    the layout has none: a period or a comma and at least one digit. *)
Definition parseFractionChunk (value : list ascii) : Z * list ascii :=
  match value with
  | p :: f :: _ =>
      if (Ascii.eqb p "." || Ascii.eqb p ",") && isDigit f
      then let '(ds, r) := spanDigits (tl value) in (parseNanoseconds ds, r)
      else (0, value)
  | _ => (0, value)
  end.

(** [parse(layout, value, UTC, Local)] for the layout [RFC3339], that is
    for the chunks [2006], [-01], [-02], [T15], [:04], [:05], [Z07:00]: the
    reader that [Parse] falls back to.  The year has four digits; month,
    day, minute and second have two; the hour has one or two; the day is
    checked against the month at the end; nothing may follow the zone. *)
Definition parseLayoutRFC3339 (s : list ascii) : option Time :=
  match s with
  | y1 :: y2 :: y3 :: y4 :: value =>
      if isDigit y1 then
        match parseDigits [y1; y2; y3; y4] 0 with
        | None => None
        | Some year =>
            match skip value "-" with None => None | Some value =>
            match getnum value true with None => None | Some (month, value) =>
            if (month <=? 0) || (12 <? month) then None else
            match skip value "-" with None => None | Some value =>
            match getnum value true with None => None | Some (day, value) =>
            match skip value "T" with None => None | Some value =>
            match getnum value false with None => None | Some (hour, value) =>
            if (hour <? 0) || (24 <=? hour) then None else
            match skip value ":" with None => None | Some value =>
            match getnum value true with None => None | Some (min, value) =>
            if (min <? 0) || (60 <=? min) then None else
            match skip value ":" with None => None | Some value =>
            match getnum value true with None => None | Some (sec, value) =>
            if (sec <? 0) || (60 <=? sec) then None else
            let '(nsec, value) := parseFractionChunk value in
            match parseZoneChunk value with None => None | Some (zoneOffset, value) =>
            match value with
            | _ :: _ => None
            | [] =>
                if (day <? 1) || (day >? daysIn month year) then None
                else Some (mkTime year month day hour min sec nsec zoneOffset)
            end end end end end end end end end end end end
        end
      else None
  | _ => None
  end.

(** [time.Parse(time.RFC3339, st)]: the strict reader, and the layout
    reader when the strict one refuses.  [None] is a non-nil [error]. *)
Definition ParseRFC3339 (st : string) : option Time :=
  let s := list_ascii_of_string st in
  match parseRFC3339 s with
  | Some t => Some t
  | None => parseLayoutRFC3339 s
  end.

End time.

(** ** Package github.com/shopspring/decimal *)

Module decimal.

(** [Decimal{value *big.Int, exp int32}] denotes [value * 10 ^ exp]; a nil
    [value] is read as zero. *)
Record Decimal := mkDecimal { value : Z; exp : Z }.

(** [decimal.Decimal{}]. *)
Definition Zero : Decimal := mkDecimal 0 0.

Definition MinInt32 : Z := - 2 ^ 31.
Definition MaxInt32 : Z := 2 ^ 31 - 1.

(** [d.rescale(e)] for [e <= d.exp], the only direction [RescalePair]
    uses: the same number with the smaller exponent. *)
Definition rescaleDown (d : Decimal) (e : Z) : Decimal :=
  if exp d =? e then d else mkDecimal (value d * 10 ^ (exp d - e)) e.

Definition RescalePair (d1 d2 : Decimal) : Decimal * Decimal :=
  if exp d1 <? exp d2 then (d1, rescaleDown d2 (exp d1))
  else if exp d1 >? exp d2 then (rescaleDown d1 (exp d2), d2)
  else (d1, d2).

Definition Cmp (d d2 : Decimal) : comparison :=
  if exp d =? exp d2 then value d ?= value d2
  else let '(rd, rd2) := RescalePair d d2 in value rd ?= value rd2.

Definition Equal (d d2 : Decimal) : bool :=
  match Cmp d d2 with Eq => true | _ => false end.
Definition LessThan (d d2 : Decimal) : bool :=
  match Cmp d d2 with Lt => true | _ => false end.
Definition GreaterThan (d d2 : Decimal) : bool :=
  match Cmp d d2 with Gt => true | _ => false end.

Definition IsZero (d : Decimal) : bool := value d =? 0.

(** Drops the zeros at the end of the fractional part. *)
Fixpoint trimTrailingZeros (cs : list ascii) : list ascii :=
  match cs with
  | [] => []
  | c :: cs' =>
      match trimTrailingZeros cs' with
      | [] => if Ascii.eqb c "0" then [] else [c]
      | r => c :: r
      end
  end.

(** [d.String()], that is [d.string(true)]. *)
Definition String (d : Decimal) : string :=
  string_of_list_ascii
    (if exp d >=? 0 then
       let v := value (rescaleDown d 0) in
       if v <? 0 then "-"%char :: formatNat (- v) else formatNat v
     else
       let str := formatNat (Z.abs (value d)) in
       let n := Z.to_nat (- exp d) in
       let '(intPart, fractionalPart) :=
         if (n <? length str)%nat
         then (firstn (length str - n) str, skipn (length str - n) str)
         else (["0"%char], repeat "0"%char (n - length str) ++ str) in
       let fractionalPart := trimTrailingZeros fractionalPart in
       let number :=
         match fractionalPart with
         | [] => intPart
         | _ => intPart ++ "."%char :: fractionalPart
         end in
       if value d <? 0 then "-"%char :: number else number).

(** [strings.IndexAny(value, "Ee")]: the text before the first [E] or [e]
    and the text after it. *)
Fixpoint splitAtE (cs : list ascii) : list ascii * option (list ascii) :=
  match cs with
  | [] => ([], None)
  | c :: cs' =>
      if Ascii.eqb c "E" || Ascii.eqb c "e" then ([], Some cs')
      else let '(pre, post) := splitAtE cs' in (c :: pre, post)
  end.

(** The scan for the decimal point: the text before the first [.] and,
    when there is one, the text after it. *)
Fixpoint splitAtDot (cs : list ascii) : list ascii * option (list ascii) :=
  match cs with
  | [] => ([], None)
  | c :: cs' =>
      if Ascii.eqb c "." then ([], Some cs')
      else let '(pre, post) := splitAtDot cs' in (c :: pre, post)
  end.

Definition hasDot (cs : list ascii) : bool :=
  existsb (fun c => Ascii.eqb c ".") cs.

(** [new(big.Int).SetString(s, 10)]: an optional sign and at least one
    digit, nothing else. *)
Definition SetString (s : list ascii) : option Z :=
  match s with
  | [] => None
  | c :: rest =>
      let '(neg, ds) :=
        if Ascii.eqb c "+" then (false, rest)
        else if Ascii.eqb c "-" then (true, rest)
        else (false, s) in
      match ds with
      | [] => None
      | _ =>
          match parseDigits ds 0 with
          | Some n => Some (if neg then - n else n)
          | None => None
          end
      end
  end.

(** [decimal.NewFromString(value)]; [None] is a non-nil [error]. *)
Definition NewFromString (s : string) : option Decimal :=
  let value := list_ascii_of_string s in
  let '(value, afterE) := splitAtE value in
  let expE :=
    match afterE with
    | None => Some 0
    | Some es =>
        match strconv.ParseInt es 32 with
        | (expInt, None) => Some expInt
        | (_, Some _) => None
        end
    end in
  match expE with
  | None => None
  | Some exp0 =>
      let '(intPart, afterDot) := splitAtDot value in
      match afterDot with
      | Some frac =>
          if hasDot frac then None
          else Some (intPart ++ frac, exp0 - Z.of_nat (length frac))
      | None => Some (value, exp0)
      end
      ≫= fun '(intString, exp) =>
        (if (length intString <=? 18)%nat
         then match strconv.ParseInt intString 64 with
              | (parsed64, None) => Some parsed64
              | (_, Some _) => None
              end
         else SetString intString)
        ≫= fun dValue =>
          if (exp <? MinInt32) || (exp >? MaxInt32) then None
          else Some (mkDecimal dValue exp)
  end.

End decimal.

(** ** Field keys and the six cell variants *)

Definition FieldKeyTag : string := "field".

Record FieldKey := mkFieldKey { Name : string; Tag : string }.

Definition NewFieldKey (name tag : string) : FieldKey :=
  let tag := if String.eqb tag "" then FieldKeyTag else tag in
  {| Name := name; Tag := tag |}.

Definition NewDefaultFieldKey (name : string) : FieldKey :=
  {| Name := name; Tag := FieldKeyTag |}.

Definition FieldKeyNil : FieldKey := NewDefaultFieldKey "nil".

(** Structural equality of keys, Go's [==] on the struct. *)
Definition FieldKey_eqb (k1 k2 : FieldKey) : bool :=
  String.eqb (Name k1) (Name k2) && String.eqb (Tag k1) (Tag k2).

Record StringField := mkStringField {
  StringField_ValueField : string;
  StringField_KeyField : FieldKey
}.

Record TimeField := mkTimeField {
  TimeField_ValueField : time.Time;
  TimeField_KeyField : FieldKey
}.

Record DecimalField := mkDecimalField {
  DecimalField_ValueField : decimal.Decimal;
  DecimalField_KeyField : FieldKey
}.

Record IntegerField := mkIntegerField {
  IntegerField_ValueField : Z;
  IntegerField_KeyField : FieldKey
}.

Record BoolField := mkBoolField {
  BoolField_ValueField : bool;
  BoolField_KeyField : FieldKey;
  BoolField_Set : bool
}.

Record EmptyField := mkEmptyField {
  EmptyField_KeyField : FieldKey
}.

(** The values of interface [Field]: a reference to a cell of one of the six
    struct types.  A [nil] interface is [None] of [option Field]. *)
Inductive Field :=
| FString (s : StringField)
| FTime (s : TimeField)
| FDecimal (s : DecimalField)
| FInteger (s : IntegerField)
| FBool (s : BoolField)
| FEmpty (s : EmptyField).

(** The [reflect.Type] descriptors that [Type()] returns. *)
Inductive GoType := TString | TTime | TDecimal | TInt | TBool | TEmptyFieldPtr.

Definition GoType_eqb (t1 t2 : GoType) : bool :=
  match t1, t2 with
  | TString, TString | TTime, TTime | TDecimal, TDecimal
  | TInt, TInt | TBool, TBool | TEmptyFieldPtr, TEmptyFieldPtr => true
  | _, _ => false
  end.

Definition Field_Type (f : Field) : GoType :=
  match f with
  | FString _ => TString
  | FTime _ => TTime
  | FDecimal _ => TDecimal
  | FInteger _ => TInt
  | FBool _ => TBool
  | FEmpty _ => TEmptyFieldPtr
  end.

Definition Field_Key (f : Field) : FieldKey :=
  match f with
  | FString s => StringField_KeyField s
  | FTime s => TimeField_KeyField s
  | FDecimal s => DecimalField_KeyField s
  | FInteger s => IntegerField_KeyField s
  | FBool s => BoolField_KeyField s
  | FEmpty s => EmptyField_KeyField s
  end.

Definition StringField_ToString (s : StringField) : string := StringField_ValueField s.
Definition TimeField_ToString (s : TimeField) : string :=
  time.FormatRFC3339 (TimeField_ValueField s).
Definition DecimalField_ToString (s : DecimalField) : string :=
  decimal.String (DecimalField_ValueField s).
Definition IntegerField_ToString (s : IntegerField) : string :=
  strconv.Itoa (IntegerField_ValueField s).
Definition BoolField_ToString (s : BoolField) : string :=
  strconv.FormatBool (BoolField_ValueField s).
Definition EmptyField_ToString (s : EmptyField) : string := "".

Definition Field_ToString (f : Field) : string :=
  match f with
  | FString s => StringField_ToString s
  | FTime s => TimeField_ToString s
  | FDecimal s => DecimalField_ToString s
  | FInteger s => IntegerField_ToString s
  | FBool s => BoolField_ToString s
  | FEmpty s => EmptyField_ToString s
  end.

(** ** The safe comparator *)

Inductive safeOp := EQ | LT | GT.

(** The table [safeOps]. *)
Definition safeOps (o : safeOp) (s1 s2 : string) : bool :=
  match o with
  | EQ => String.eqb s1 s2
  | LT => String.ltb s1 s2
  | GT => String.ltb s2 s1
  end.

Definition safeCompare (f1 f2 : string) (o : safeOp) : bool := safeOps o f1 f2.

Definition sameCompareTypes (f1 f2 : Field) : bool :=
  GoType_eqb (Field_Type f1) (Field_Type f2).

(** The result [*bool]: [None] is the nil pointer that asks the caller for a
    same-type comparison. *)
Definition checkAndDoSafeCompare (f1 : Field) (f2 : option Field) (o : safeOp) : option bool :=
  match f2 with
  | None => Some false
  | Some f2f =>
      if negb (sameCompareTypes f1 f2f)
      then Some (safeCompare (Field_ToString f1) (Field_ToString f2f) o)
      else None
  end.

(** ** Methods of the variants

    In each comparison the branch after [checkAndDoSafeCompare] holds the
    type assertion [in2.( *T)]; it is reached with an [in2] of type [T] only
    (lemma [checkAndDoSafeCompare_None]), the other arms are dead. *)

Definition StringField_LessThan (s : StringField) (in2 : option Field) : bool :=
  match checkAndDoSafeCompare (FString s) in2 LT with
  | Some out => out
  | None =>
      match in2 with
      | Some (FString s2) => String.ltb (StringField_ValueField s) (StringField_ValueField s2)
      | _ => false
      end
  end.

Definition StringField_GreaterThan (s : StringField) (in2 : option Field) : bool :=
  match checkAndDoSafeCompare (FString s) in2 GT with
  | Some out => out
  | None =>
      match in2 with
      | Some (FString s2) => String.ltb (StringField_ValueField s2) (StringField_ValueField s)
      | _ => false
      end
  end.

Definition StringField_Equal (s : StringField) (in2 : option Field) : bool :=
  match checkAndDoSafeCompare (FString s) in2 EQ with
  | Some out => out
  | None =>
      match in2 with
      | Some (FString s2) => String.eqb (StringField_ValueField s) (StringField_ValueField s2)
      | _ => false
      end
  end.

Definition StringField_FromString (s : StringField) (st : string) : StringField :=
  {| StringField_ValueField := st; StringField_KeyField := StringField_KeyField s |}.

Definition StringField_SetValue (s : StringField) (in2 : Field) : StringField :=
  match checkAndDoSafeCompare (FString s) (Some in2) EQ with
  | Some _ =>
      {| StringField_ValueField := Field_ToString in2;
         StringField_KeyField := StringField_KeyField s |}
  | None =>
      match in2 with
      | FString s2 =>
          {| StringField_ValueField := StringField_ValueField s2;
             StringField_KeyField := StringField_KeyField s |}
      | _ => s
      end
  end.

Definition StringField_IsEmpty (s : StringField) : bool :=
  String.eqb (StringField_ValueField s) "".

Definition TimeField_LessThan (s : TimeField) (in2 : option Field) : bool :=
  match checkAndDoSafeCompare (FTime s) in2 LT with
  | Some out => out
  | None =>
      match in2 with
      | Some (FTime s2) => time.Before (TimeField_ValueField s) (TimeField_ValueField s2)
      | _ => false
      end
  end.

Definition TimeField_GreaterThan (s : TimeField) (in2 : option Field) : bool :=
  match checkAndDoSafeCompare (FTime s) in2 GT with
  | Some out => out
  | None =>
      match in2 with
      | Some (FTime s2) => time.After (TimeField_ValueField s) (TimeField_ValueField s2)
      | _ => false
      end
  end.

Definition TimeField_Equal (s : TimeField) (in2 : option Field) : bool :=
  match checkAndDoSafeCompare (FTime s) in2 EQ with
  | Some out => out
  | None =>
      match in2 with
      | Some (FTime s2) => time.Equal (TimeField_ValueField s) (TimeField_ValueField s2)
      | _ => false
      end
  end.

Definition TimeField_FromString (s : TimeField) (st : string) : TimeField :=
  match time.ParseRFC3339 st with
  | None => s
  | Some t => {| TimeField_ValueField := t; TimeField_KeyField := TimeField_KeyField s |}
  end.

Definition TimeField_SetValue (s : TimeField) (in2 : Field) : TimeField :=
  match checkAndDoSafeCompare (FTime s) (Some in2) EQ with
  | Some _ => TimeField_FromString s (Field_ToString in2)
  | None =>
      match in2 with
      | FTime s2 =>
          {| TimeField_ValueField := TimeField_ValueField s2;
             TimeField_KeyField := TimeField_KeyField s |}
      | _ => s
      end
  end.

Definition TimeField_IsEmpty (s : TimeField) : bool :=
  time.IsZero (TimeField_ValueField s).

Definition DecimalField_LessThan (s : DecimalField) (in2 : option Field) : bool :=
  match checkAndDoSafeCompare (FDecimal s) in2 LT with
  | Some out => out
  | None =>
      match in2 with
      | Some (FDecimal s2) =>
          decimal.LessThan (DecimalField_ValueField s) (DecimalField_ValueField s2)
      | _ => false
      end
  end.

Definition DecimalField_GreaterThan (s : DecimalField) (in2 : option Field) : bool :=
  match checkAndDoSafeCompare (FDecimal s) in2 GT with
  | Some out => out
  | None =>
      match in2 with
      | Some (FDecimal s2) =>
          decimal.GreaterThan (DecimalField_ValueField s) (DecimalField_ValueField s2)
      | _ => false
      end
  end.

Definition DecimalField_Equal (s : DecimalField) (in2 : option Field) : bool :=
  match checkAndDoSafeCompare (FDecimal s) in2 EQ with
  | Some out => out
  | None =>
      match in2 with
      | Some (FDecimal s2) =>
          decimal.Equal (DecimalField_ValueField s) (DecimalField_ValueField s2)
      | _ => false
      end
  end.

Definition DecimalField_FromString (s : DecimalField) (st : string) : DecimalField :=
  match decimal.NewFromString st with
  | None => s
  | Some d =>
      {| DecimalField_ValueField := d; DecimalField_KeyField := DecimalField_KeyField s |}
  end.

Definition DecimalField_SetValue (s : DecimalField) (in2 : Field) : DecimalField :=
  match checkAndDoSafeCompare (FDecimal s) (Some in2) EQ with
  | Some _ => DecimalField_FromString s (Field_ToString in2)
  | None =>
      match in2 with
      | FDecimal s2 =>
          {| DecimalField_ValueField := DecimalField_ValueField s2;
             DecimalField_KeyField := DecimalField_KeyField s |}
      | _ => s
      end
  end.

Definition DecimalField_IsEmpty (s : DecimalField) : bool :=
  decimal.IsZero (DecimalField_ValueField s).

Definition IntegerField_LessThan (s : IntegerField) (in2 : option Field) : bool :=
  match checkAndDoSafeCompare (FInteger s) in2 LT with
  | Some out => out
  | None =>
      match in2 with
      | Some (FInteger s2) => IntegerField_ValueField s <? IntegerField_ValueField s2
      | _ => false
      end
  end.

Definition IntegerField_GreaterThan (s : IntegerField) (in2 : option Field) : bool :=
  match checkAndDoSafeCompare (FInteger s) in2 GT with
  | Some out => out
  | None =>
      match in2 with
      | Some (FInteger s2) => IntegerField_ValueField s >? IntegerField_ValueField s2
      | _ => false
      end
  end.

Definition IntegerField_Equal (s : IntegerField) (in2 : option Field) : bool :=
  match checkAndDoSafeCompare (FInteger s) in2 EQ with
  | Some out => out
  | None =>
      match in2 with
      | Some (FInteger s2) => IntegerField_ValueField s =? IntegerField_ValueField s2
      | _ => false
      end
  end.

Definition IntegerField_setValueField (s : IntegerField) (v : Z) : IntegerField :=
  {| IntegerField_ValueField := v; IntegerField_KeyField := IntegerField_KeyField s |}.

(** The assignment of [0] under [err != nil] is followed by the
    unconditional assignment of [it]. *)
Definition IntegerField_FromString (s : IntegerField) (st : string) : IntegerField :=
  let '(it, err) := strconv.Atoi st in
  let s := match err with
           | Some _ => IntegerField_setValueField s 0
           | None => s
           end in
  IntegerField_setValueField s it.

Definition IntegerField_SetValue (s : IntegerField) (in2 : Field) : IntegerField :=
  match checkAndDoSafeCompare (FInteger s) (Some in2) EQ with
  | Some _ => IntegerField_FromString s (Field_ToString in2)
  | None =>
      match in2 with
      | FInteger s2 => IntegerField_setValueField s (IntegerField_ValueField s2)
      | _ => s
      end
  end.

Definition IntegerField_IsEmpty (s : IntegerField) : bool :=
  IntegerField_ValueField s =? 0.

Definition NewBool (key : FieldKey) (b : bool) : Field :=
  FBool {| BoolField_ValueField := b; BoolField_KeyField := key; BoolField_Set := true |}.

Definition NewBoolEmpty (key : FieldKey) : Field :=
  FBool {| BoolField_ValueField := false; BoolField_KeyField := key; BoolField_Set := false |}.

Definition BoolField_InitTrue (s : BoolField) : BoolField :=
  {| BoolField_ValueField := true; BoolField_KeyField := BoolField_KeyField s;
     BoolField_Set := true |}.

Definition BoolField_InitFalse (s : BoolField) : BoolField :=
  {| BoolField_ValueField := true; BoolField_KeyField := BoolField_KeyField s;
     BoolField_Set := true |}.

(** less than and greater than are not relevant for bool *)
Definition BoolField_LessThan (s : BoolField) (in2 : option Field) : bool := false.

Definition BoolField_GreaterThan (s : BoolField) (in2 : option Field) : bool := false.

Definition BoolField_Equal (s : BoolField) (in2 : option Field) : bool :=
  match checkAndDoSafeCompare (FBool s) in2 EQ with
  | Some out => out
  | None =>
      match in2 with
      | Some (FBool s2) => Bool.eqb (BoolField_ValueField s) (BoolField_ValueField s2)
      | _ => false
      end
  end.

Definition BoolField_FromString (s : BoolField) (st : string) : BoolField :=
  let '(it, err) := strconv.ParseBool st in
  let s := match err with
           | Some _ =>
               {| BoolField_ValueField := false; BoolField_KeyField := BoolField_KeyField s;
                  BoolField_Set := BoolField_Set s |}
           | None => s
           end in
  {| BoolField_ValueField := it; BoolField_KeyField := BoolField_KeyField s;
     BoolField_Set := true |}.

Definition BoolField_SetValue (s : BoolField) (in2 : Field) : BoolField :=
  match checkAndDoSafeCompare (FBool s) (Some in2) EQ with
  | Some _ => BoolField_FromString s (Field_ToString in2)
  | None =>
      match in2 with
      | FBool s2 =>
          {| BoolField_ValueField := BoolField_ValueField s2;
             BoolField_KeyField := BoolField_KeyField s;
             BoolField_Set := true |}
      | _ => s
      end
  end.

Definition BoolField_IsEmpty (s : BoolField) : bool := BoolField_Set s.

Definition EmptyField_LessThan (s : EmptyField) (in2 : option Field) : bool := false.

Definition EmptyField_GreaterThan (s : EmptyField) (in2 : option Field) : bool := false.

Definition EmptyField_Equal (s : EmptyField) (in2 : option Field) : bool :=
  match in2 with
  | None => false
  | Some f2 =>
      if negb (sameCompareTypes (FEmpty s) f2) then false
      else
        match f2 with
        | FEmpty s2 => FieldKey_eqb (EmptyField_KeyField s) (EmptyField_KeyField s2)
        | _ => false
        end
  end.

Definition EmptyField_FromString (s : EmptyField) (st : string) : EmptyField :=
  {| EmptyField_KeyField := {| Name := st; Tag := "" |} |}.

Definition EmptyField_SetValue (s : EmptyField) (in2 : option Field) : EmptyField := s.

Definition EmptyField_IsEmpty (s : EmptyField) : bool := true.

(** ** Interface [Field]: dynamic dispatch on the variant *)

Definition Field_LessThan (f : Field) (in2 : option Field) : bool :=
  match f with
  | FString s => StringField_LessThan s in2
  | FTime s => TimeField_LessThan s in2
  | FDecimal s => DecimalField_LessThan s in2
  | FInteger s => IntegerField_LessThan s in2
  | FBool s => BoolField_LessThan s in2
  | FEmpty s => EmptyField_LessThan s in2
  end.

Definition Field_GreaterThan (f : Field) (in2 : option Field) : bool :=
  match f with
  | FString s => StringField_GreaterThan s in2
  | FTime s => TimeField_GreaterThan s in2
  | FDecimal s => DecimalField_GreaterThan s in2
  | FInteger s => IntegerField_GreaterThan s in2
  | FBool s => BoolField_GreaterThan s in2
  | FEmpty s => EmptyField_GreaterThan s in2
  end.

Definition Field_Equal (f : Field) (in2 : option Field) : bool :=
  match f with
  | FString s => StringField_Equal s in2
  | FTime s => TimeField_Equal s in2
  | FDecimal s => DecimalField_Equal s in2
  | FInteger s => IntegerField_Equal s in2
  | FBool s => BoolField_Equal s in2
  | FEmpty s => EmptyField_Equal s in2
  end.

Definition Field_FromString (f : Field) (st : string) : Field :=
  match f with
  | FString s => FString (StringField_FromString s st)
  | FTime s => FTime (TimeField_FromString s st)
  | FDecimal s => FDecimal (DecimalField_FromString s st)
  | FInteger s => FInteger (IntegerField_FromString s st)
  | FBool s => FBool (BoolField_FromString s st)
  | FEmpty s => FEmpty (EmptyField_FromString s st)
  end.

(** [SetValue] of the five valued variants asserts its argument to be a
    [Field]; the argument is therefore one here. *)
Definition Field_SetValue (f : Field) (in2 : Field) : Field :=
  match f with
  | FString s => FString (StringField_SetValue s in2)
  | FTime s => FTime (TimeField_SetValue s in2)
  | FDecimal s => FDecimal (DecimalField_SetValue s in2)
  | FInteger s => FInteger (IntegerField_SetValue s in2)
  | FBool s => FBool (BoolField_SetValue s in2)
  | FEmpty s => FEmpty (EmptyField_SetValue s (Some in2))
  end.

Definition Field_IsEmpty (f : Field) : bool :=
  match f with
  | FString s => StringField_IsEmpty s
  | FTime s => TimeField_IsEmpty s
  | FDecimal s => DecimalField_IsEmpty s
  | FInteger s => IntegerField_IsEmpty s
  | FBool s => BoolField_IsEmpty s
  | FEmpty s => EmptyField_IsEmpty s
  end.

(** ** Dynamic values

    The values of type [any] ([FieldValue]) that the package handles: the
    native values that a cell takes at construction and returns from
    [Value()], a [Field] (the pointer to a cell, as [SetValue] expects it),
    and [VOther] for a value of any other Go type.  The nil interface is
    [None] of [option GoValue]. *)
Inductive GoValue :=
| VString (s : string)
| VTime (t : time.Time)
| VDecimal (d : decimal.Decimal)
| VInt (i : Z)
| VBool (b : bool)
| VField (f : Field)
| VOther.

(** ** Default wrapper (default.go) *)

Record defaulter := mkDefaulter {
  ExplicitlySetField : bool;
  defaulter_Value : Field
}.

Definition NewDefault (explicitly : bool) (f : Field) : defaulter :=
  {| ExplicitlySetField := explicitly; defaulter_Value := f |}.

Definition ExplicitlySet (d : defaulter) : bool := ExplicitlySetField d.

Definition MatchesDefault (d : defaulter) (f : Field) : bool :=
  Field_Equal (defaulter_Value d) (Some f).

Definition DefaultField (d : defaulter) : Field := defaulter_Value d.

Record FieldWDefaultImpl := mkFieldWDefaultImpl {
  FieldWDefaultImpl_Field : Field;
  FieldWDefaultImpl_Default : defaulter
}.

Definition NewFieldWDefault (f : Field) (d : defaulter) : FieldWDefaultImpl :=
  {| FieldWDefaultImpl_Field := f; FieldWDefaultImpl_Default := d |}.

Definition IsDefault (s : FieldWDefaultImpl) : bool :=
  MatchesDefault (FieldWDefaultImpl_Default s) (FieldWDefaultImpl_Field s)
  && negb (ExplicitlySet (FieldWDefaultImpl_Default s)).

(** ** Conditional gate (conditional.go)

    [Enforceable] is [func(f any) bool]; the gate is used with fields as
    input (in [FieldConditional]) and with arbitrary test data (in the
    conditional state machine), so the input type is a parameter. *)

Section Conditional.

Context {A : Type}.

Definition Enforceable := A -> bool.

Definition EnforceableTrue : Enforceable := fun _ => true.
Definition EnforceableFalse : Enforceable := fun _ => false.

(** [type Question func() Enforceable]. *)
Definition Question := unit -> Enforceable.

Record Prerequisite := mkPrerequisite {
  IsCandidate : Enforceable;
  Gauntlet : list Question
}.

Record conditional := mkConditional { prereqs : list Prerequisite }.

Definition Conditions (l : list Prerequisite) : conditional := {| prereqs := l |}.

Definition Prerequisites (c : conditional) : list Prerequisite := prereqs c.

(** The inner loop of [Meets]: [false] as soon as a question rejects. *)
Fixpoint runGauntlet (g : list Question) (toSet : A) : bool :=
  match g with
  | [] => true
  | w :: g' => if negb (w tt toSet) then false else runGauntlet g' toSet
  end.

(** The outer loop of [Meets]. *)
Fixpoint meetsLoop (ps : list Prerequisite) (toSet : A) : bool :=
  match ps with
  | [] => true
  | v :: ps' =>
      if IsCandidate v toSet
      then if runGauntlet (Gauntlet v) toSet then meetsLoop ps' toSet else false
      else meetsLoop ps' toSet
  end.

Definition Meets (c : conditional) (toSet : A) : bool := meetsLoop (prereqs c) toSet.

End Conditional.

Arguments Enforceable : clear implicits.
Arguments Question : clear implicits.
Arguments Prerequisite : clear implicits.
Arguments conditional : clear implicits.

Record FieldConditional := mkFieldConditional {
  FieldConditional_Field : Field;
  FieldConditional_Conditional : conditional (option GoValue)
}.

Definition NewConditionalField (field : Field) (cond : conditional (option GoValue))
  : FieldConditional :=
  {| FieldConditional_Field := field; FieldConditional_Conditional := cond |}.

(** [FieldConditional.SetValue].  The argument is an [any]; the type
    assertion [intendedToSet.(Field)] comes first and panics on nil and on
    a value that is not a [Field]: the result [None].  The gate is asked
    about the asserted field. *)
Definition FieldConditional_SetValue (s : FieldConditional) (intendedToSet : option GoValue)
  : option FieldConditional :=
  match intendedToSet with
  | Some (VField fieldIntended) =>
      if Meets (FieldConditional_Conditional s) (Some (VField fieldIntended))
      then Some {| FieldConditional_Field :=
                     Field_SetValue (FieldConditional_Field s) fieldIntended;
                   FieldConditional_Conditional := FieldConditional_Conditional s |}
      else Some s
  | _ => None
  end.

(** ** The ring state machines (conditional_state_machine.go)

    [StateValue] is [any]: [None] is the nil interface, [Some v] a payload
    [v : V].  [D] is the type of the test data handed to the matchers. *)

Definition StateId := string.

(** Errors are compared by identity: [SameStateNoUpdate] is the package
    variable, [New msg] an error made on the spot by [errors.New(msg)]. *)
Inductive error :=
| SameStateNoUpdate
| New (msg : string).

Section StateMachine.

Context {V D : Type}.

Definition StateValue := option V.

Definition SimpleMatcher := D -> bool.

Record Transition := mkTransition {
  Transition_NextState : StateId;
  Transition_SimpleMatcher : SimpleMatcher
}.

Record State := mkState {
  State_Id : StateId;
  State_Matches : list Transition;
  State_StateValue : StateValue;
  State_Start : bool;
  State_Terminal : bool
}.

Record ConditionalTransition := mkConditionalTransition {
  ConditionalTransition_NextState : StateId;
  ConditionalTransition_Conditional : conditional D
}.

Record ConditionalState := mkConditionalState {
  ConditionalState_Id : StateId;
  ConditionalState_Outcomes : list ConditionalTransition;
  ConditionalState_StateValue : StateValue;
  ConditionalState_Start : bool
}.

(** The [Value any] of a ring element. *)
Inductive RingValue :=
| RNil
| RState (s : State)
| RConditionalState (s : ConditionalState).

(** [RingAddress] is [*ring.Ring]: [None] is the nil pointer, [Some i] the
    element at position [i] of the ring. *)
Definition RingAddress := option nat.

(** The embedded [*ring.Ring] is the list of the ring's elements together
    with the position of the current one; [mu] guards nothing that a
    sequential run can see and is left out. *)
Record StateMachine := mkStateMachine {
  Ring_elems : list RingValue;
  Ring_cur : nat;
  Start : StateId;
  IdRingAddressCache : gmap StateId RingAddress;
  ValueCache : gmap StateId StateValue
}.

(** [&StateMachine{}]: nil ring, nil maps. *)
Definition emptyMachine : StateMachine :=
  mkStateMachine [] 0 "" ∅ ∅.

(** [r.Next()]. *)
Definition Ring_Next (sm : StateMachine) : nat :=
  (S (Ring_cur sm) mod length (Ring_elems sm))%nat.

(** One turn of the loop shared by [PopulateRing] and
    [PopulateConditionalRing], for the element value [rv] of a state with
    identifier [id] and payload [sv]. *)
Definition populateStep (sm : StateMachine) (rv : RingValue) (id : StateId) (sv : StateValue)
  : StateMachine :=
  let sm1 :=
    mkStateMachine (<[Ring_cur sm := rv]> (Ring_elems sm)) (Ring_cur sm) (Start sm)
      (<[id := Some (Ring_cur sm)]> (IdRingAddressCache sm))
      (<[id := sv]> (ValueCache sm)) in
  mkStateMachine (Ring_elems sm1) (Ring_Next sm1) (Start sm1)
    (IdRingAddressCache sm1) (ValueCache sm1).

Definition PopulateRing (sm : StateMachine) (states : list State) : StateMachine :=
  fold_left (fun sm v => populateStep sm (RState v) (State_Id v) (State_StateValue v))
    states sm.

Definition PopulateConditionalRing (sm : StateMachine) (states : list ConditionalState)
  : StateMachine :=
  fold_left
    (fun sm v =>
       populateStep sm (RConditionalState v) (ConditionalState_Id v)
         (ConditionalState_StateValue v))
    states sm.

Definition NewStateMachine (states : list State) : StateMachine :=
  match states with
  | [] => emptyMachine
  | s0 :: _ =>
      PopulateRing
        (mkStateMachine (replicate (length states) RNil) 0 (State_Id s0) ∅ ∅) states
  end.

Definition NewConditionalStateMachine (states : list ConditionalState) : StateMachine :=
  match states with
  | [] => emptyMachine
  | s0 :: _ =>
      PopulateConditionalRing
        (mkStateMachine (replicate (length states) RNil) 0 (ConditionalState_Id s0) ∅ ∅)
        states
  end.

(** [lookupValueCacheId] ranges over the map [ValueCache]; [order] lists
    the map's entries in the order this run of [range] visits them. *)
Fixpoint lookupValueCacheId (order : list (StateId * StateValue)) (cur : StateValue)
    (equals : StateValue -> StateValue -> bool) : StateId :=
  match order with
  | [] => ""
  | (k, v) :: order' => if equals v cur then k else lookupValueCacheId order' cur equals
  end.

Fixpoint evalMatches (ms : list Transition) (dataToTest : D) : StateId * option error :=
  match ms with
  | [] => ("", Some (New "no valid transitions available"))
  | v :: ms' =>
      if Transition_SimpleMatcher v dataToTest then (Transition_NextState v, None)
      else evalMatches ms' dataToTest
  end.

Definition State_EvaluateTransition (s : State) (dataToTest : D) : StateId * option error :=
  if State_Terminal s then (State_Id s, None)
  else evalMatches (State_Matches s) dataToTest.

Fixpoint evalOutcomes (os : list ConditionalTransition) (dataToTest : D)
  : StateId * option error :=
  match os with
  | [] => ("", Some (New "no valid transitions available"))
  | v :: os' =>
      if Meets (ConditionalTransition_Conditional v) dataToTest
      then (ConditionalTransition_NextState v, None)
      else evalOutcomes os' dataToTest
  end.

Definition ConditionalState_EvaluateTransition (s : ConditionalState) (dataToTest : D)
  : StateId * option error :=
  evalOutcomes (ConditionalState_Outcomes s) dataToTest.

(** The tail shared by both machines: the payload cached for [nextId]. *)
Definition lookupNextValue (sm : StateMachine) (nextId : StateId) : StateValue * option error :=
  match ValueCache sm !! nextId with
  | None => (None, Some (New "next id does not exist in machine"))
  | Some None => (None, Some (New "value is nil for next id"))
  | Some (Some value) => (Some value, None)
  end.

(** [StateMachine.ProcessInMachine], the plain machine.  A ring address
    always points at an element; a position outside the list of elements
    has none and fails the type assertion like a nil [Value]. *)
Definition ProcessInMachine (sm : StateMachine) (order : list (StateId * StateValue))
    (cur : StateValue) (testData : D) (equals : StateValue -> StateValue -> bool)
  : StateValue * option error :=
  let stateId := lookupValueCacheId order cur equals in
  match IdRingAddressCache sm !! stateId with
  | None => (None, Some (New "id does not exist in machine"))
  | Some None => (None, Some (New "address does not exist in machine"))
  | Some (Some currentAddr) =>
      match Ring_elems sm !! currentAddr with
      | Some (RState currentState) =>
          match State_EvaluateTransition currentState testData with
          | (_, Some err) => (None, Some err)
          | (nextId, None) =>
              if String.eqb nextId "" then (None, Some (New "next id is empty"))
              else if String.eqb nextId stateId then (None, Some SameStateNoUpdate)
              else lookupNextValue sm nextId
          end
      | _ => (None, Some (New "error retrieving state"))
      end
  end.

(** [ConditionalStateMachine.ProcessInMachine]. *)
Definition ConditionalStateMachine_ProcessInMachine (sm : StateMachine)
    (order : list (StateId * StateValue))
    (cur : StateValue) (testData : D) (equals : StateValue -> StateValue -> bool)
  : StateValue * option error :=
  let stateId := lookupValueCacheId order cur equals in
  match IdRingAddressCache sm !! stateId with
  | None => (None, Some (New "id does not exist in machine"))
  | Some None => (None, Some (New "address does not exist in machine"))
  | Some (Some currentAddr) =>
      match Ring_elems sm !! currentAddr with
      | Some (RConditionalState currentState) =>
          match ConditionalState_EvaluateTransition currentState testData with
          | (_, Some err) => (None, Some err)
          | (nextId, None) =>
              if String.eqb nextId "" then (None, Some (New "next id is empty"))
              else lookupNextValue sm nextId
          end
      | _ => (None, Some (New "error retrieving state"))
      end
  end.

(** [BasicEquals] is [==] on interface values. *)
Definition BasicEquals `{EqDecision V} (s1 s2 : StateValue) : bool :=
  bool_decide (s1 = s2).

End StateMachine.

Arguments StateValue : clear implicits.
Arguments State : clear implicits.
Arguments Transition : clear implicits.
Arguments ConditionalState : clear implicits.
Arguments ConditionalTransition : clear implicits.
Arguments StateMachine : clear implicits.
Arguments RingValue : clear implicits.

(** ** Sample machines

    The three-state ring [A -> B -> C] of the specification, with [C]
    terminal and both transitions taken on the input ["go"]. *)

Definition onGo : @SimpleMatcher string := fun input => String.eqb input "go".

Definition stateA : State string string :=
  mkState "A" [mkTransition "B" onGo] (Some "A"%string) true false.
Definition stateB : State string string :=
  mkState "B" [mkTransition "C" onGo] (Some "B"%string) false false.
Definition stateC : State string string :=
  mkState "C" [] (Some "C"%string) false true.

Definition machineABC : StateMachine string string :=
  NewStateMachine [stateA; stateB; stateC].

(** The same ring as a conditional machine whose state [C] has one outcome
    that targets [C] itself behind a gate without prerequisites. *)
Definition gateOnGo : conditional string :=
  Conditions [mkPrerequisite EnforceableTrue [fun _ => onGo]].

Definition cstateA : ConditionalState string string :=
  mkConditionalState "A" [mkConditionalTransition "B" gateOnGo] (Some "A"%string) true.
Definition cstateB : ConditionalState string string :=
  mkConditionalState "B" [mkConditionalTransition "C" gateOnGo] (Some "B"%string) false.
Definition cstateC : ConditionalState string string :=
  mkConditionalState "C" [mkConditionalTransition "C" (Conditions [])] (Some "C"%string) false.

Definition cmachineABC : StateMachine string string :=
  NewConditionalStateMachine [cstateA; cstateB; cstateC].

(** Two one-state conditional machines whose state targets itself behind a
    gate without prerequisites: in the first the state has the nil payload,
    in the second the empty identifier. *)
Definition cstateNil : ConditionalState string string :=
  mkConditionalState "N" [mkConditionalTransition "N" (Conditions [])] None true.

Definition cmachineNil : StateMachine string string :=
  NewConditionalStateMachine [cstateNil].

Definition cstateAnon : ConditionalState string string :=
  mkConditionalState "" [mkConditionalTransition "" (Conditions [])] (Some "P"%string) true.

Definition cmachineAnon : StateMachine string string :=
  NewConditionalStateMachine [cstateAnon].

(** The two populate loops differ only in how a state is wrapped into a ring
    element; [populateAll] is their common shape over the triples (element,
    identifier, payload). *)
Definition populateAll {V D : Type} (sm : StateMachine V D)
    (l : list (RingValue V D * StateId * StateValue V)) : StateMachine V D :=
  fold_left (fun sm '(rv, id, sv) => populateStep sm rv id sv) l sm.

Definition stateEntry {V D : Type} (v : State V D)
  : RingValue V D * StateId * StateValue V :=
  (RState v, State_Id v, State_StateValue v).

Definition conditionalStateEntry {V D : Type} (v : ConditionalState V D)
  : RingValue V D * StateId * StateValue V :=
  (RConditionalState v, ConditionalState_Id v, ConditionalState_StateValue v).

(** The machine that [NewStateMachine] hands to the populate loop. *)
Definition freshMachine {V D : Type} (n : nat) (start : StateId) : StateMachine V D :=
  mkStateMachine (replicate n RNil) 0 start ∅ ∅.



(** The civil date and clock of a [Time] are those of a calendar day and
    of a time of day: this is what [Date()] and [Clock()] return for every
    instant and location. *)
Definition civilFields (t : time.Time) : bool :=
  (1 <=? time.month t) && (time.month t <=? 12)
  && (1 <=? time.day t) && (time.day t <=? time.daysIn (time.month t) (time.year t))
  && (0 <=? time.hour t) && (time.hour t <=? 23)
  && (0 <=? time.minute t) && (time.minute t <=? 59)
  && (0 <=? time.second t) && (time.second t <=? 59).

(** The instants whose [Format]ted text [Parse] reads: the year has four
    digits and the zone offset is under 25 hours (a zone hour up to 24). *)
Definition readableRFC3339 (t : time.Time) : bool :=
  (0 <=? time.year t) && (time.year t <=? 9999)
  && ((-90000 <? time.zoneOffset t) && (time.zoneOffset t <? 90000)).

(** What the layout [time.RFC3339] carries of an instant: the civil date
    and clock to the whole second, and the zone offset cut to whole
    minutes. *)
Definition carriedByRFC3339 (t : time.Time) : time.Time :=
  time.mkTime (time.year t) (time.month t) (time.day t)
    (time.hour t) (time.minute t) (time.second t)
    0 (Z.quot (time.zoneOffset t) 60 * 60).

(** The instants that the layout carries in full and that are read back:
    no fraction of a second, a zone offset of whole minutes. *)
Definition fitsRFC3339 (t : time.Time) : bool :=
  civilFields t && readableRFC3339 t
  && (time.nanosecond t =? 0) && (Z.rem (time.zoneOffset t) 60 =? 0).

(** The values of a cell whose text reads back as an equal value: any Text
    or Boolean value, every [int] (64 bits), every Decimal (an [int32]
    exponent), a Timestamp that fits the layout; no Empty cell. *)
Definition roundTripValue (f : Field) : bool :=
  match f with
  | FString _ | FBool _ => true
  | FTime s => fitsRFC3339 (TimeField_ValueField s)
  | FDecimal s =>
      (decimal.MinInt32 <=? decimal.exp (DecimalField_ValueField s))
      && (decimal.exp (DecimalField_ValueField s) <=? decimal.MaxInt32)
  | FInteger s =>
      (- 2 ^ 63 <=? IntegerField_ValueField s) && (IntegerField_ValueField s <=? 2 ^ 63 - 1)
  | FEmpty _ => false
  end.


(** ** The factory, the dynamic values and the key sets *)

Definition StringField_Value (s : StringField) : option GoValue :=
  Some (VString (StringField_ValueField s)).
Definition TimeField_Value (s : TimeField) : option GoValue :=
  Some (VTime (TimeField_ValueField s)).
Definition DecimalField_Value (s : DecimalField) : option GoValue :=
  Some (VDecimal (DecimalField_ValueField s)).
Definition IntegerField_Value (s : IntegerField) : option GoValue :=
  Some (VInt (IntegerField_ValueField s)).
Definition BoolField_Value (s : BoolField) : option GoValue :=
  Some (VBool (BoolField_ValueField s)).
Definition EmptyField_Value (s : EmptyField) : option GoValue := None.

Definition Field_Value (f : Field) : option GoValue :=
  match f with
  | FString s => StringField_Value s
  | FTime s => TimeField_Value s
  | FDecimal s => DecimalField_Value s
  | FInteger s => IntegerField_Value s
  | FBool s => BoolField_Value s
  | FEmpty s => EmptyField_Value s
  end.

(** The [reflect.Type] argument of the factory: nil, one of the six
    descriptors the switch knows, or the descriptor of another type. *)
Inductive TypeArg :=
| TyNil
| Ty (t : GoType)
| TyOther.

(** What a call of the factory comes to: a cell, the nil [Field], or the
    panic of a failed type assertion [va.(T)]. *)
Inductive Created :=
| Cell (f : Field)
| NoCell
| Panics.

(** [CreateFieldFromType].  A struct literal that names no [ValueField]
    leaves it at the zero value of its type; no literal sets [Set]. *)
Definition CreateFieldFromType (ty : TypeArg) (va : option GoValue) (fk : FieldKey)
  : Created :=
  match ty with
  | TyNil => NoCell
  | Ty TString =>
      match va with
      | None => Cell (FString (mkStringField "" fk))
      | Some (VString s) => Cell (FString (mkStringField s fk))
      | Some _ => Panics
      end
  | Ty TTime =>
      match va with
      | None => Cell (FTime (mkTimeField time.Zero fk))
      | Some (VTime t) => Cell (FTime (mkTimeField t fk))
      | Some _ => Panics
      end
  | Ty TDecimal =>
      match va with
      | None => Cell (FDecimal (mkDecimalField decimal.Zero fk))
      | Some (VDecimal d) => Cell (FDecimal (mkDecimalField d fk))
      | Some _ => Panics
      end
  | Ty TInt =>
      match va with
      | None => Cell (FInteger (mkIntegerField 0 fk))
      | Some (VInt i) => Cell (FInteger (mkIntegerField i fk))
      | Some _ => Panics
      end
  | Ty TBool =>
      match va with
      | None => Cell (FBool (mkBoolField false fk false))
      | Some (VBool b) => Cell (FBool (mkBoolField b fk false))
      | Some _ => Panics
      end
  | Ty TEmptyFieldPtr => Cell (FEmpty (mkEmptyField fk))
  | TyOther => NoCell
  end.

(** [var FieldNil]. *)
Definition FieldNil : Created :=
  CreateFieldFromType (Ty TEmptyFieldPtr) None FieldKeyNil.

(** The type of the dynamic value [v], as far as the factory tells types
    apart: a pointer to an Empty cell has the sixth type of the switch, a
    pointer to a cell of another variant has none of the six. *)
Definition GoValue_Type (v : GoValue) : TypeArg :=
  match v with
  | VString _ => Ty TString
  | VTime _ => Ty TTime
  | VDecimal _ => Ty TDecimal
  | VInt _ => Ty TInt
  | VBool _ => Ty TBool
  | VField (FEmpty _) => Ty TEmptyFieldPtr
  | VField _ => TyOther
  | VOther => TyOther
  end.

Fixpoint SliceContains {A : Type} (s : list A) (val : A) (equals : A -> A -> bool) : bool :=
  match s with
  | [] => false
  | v :: s' => if equals v val then true else SliceContains s' val equals
  end.

(** [IsFieldKey]; [keySet[0]] is read only behind [len(keySet) > 0]. *)
Definition IsFieldKey (s : string) (keySet : list FieldKey) : bool :=
  negb (String.eqb s "")
  && match keySet with
     | [] => false
     | k0 :: _ => SliceContains keySet (NewFieldKey s (Tag k0)) FieldKey_eqb
     end.

(** Exactly one of three booleans is true. *)
Definition exactlyOne (a b c : bool) : Prop :=
  (a = true /\ b = false /\ c = false)
  \/ (a = false /\ b = true /\ c = false)
  \/ (a = false /\ b = false /\ c = true).

(** The variants that have an order: Text, Timestamp, Decimal, Integer. *)
Definition ordered (f : Field) : bool :=
  match f with
  | FString _ | FTime _ | FDecimal _ | FInteger _ => true
  | FBool _ | FEmpty _ => false
  end.

Definition isEmptyVariant (f : Field) : bool :=
  match f with FEmpty _ => true | _ => false end.

(** ** More sample machines *)

(** One state that is not terminal: on ["go"] it targets itself, on any
    other input a state ["X"] that the machine does not have. *)
Definition stateLoop : State string string :=
  mkState "L" [mkTransition "L" onGo; mkTransition "X" (fun _ => true)]
    (Some "L"%string) true false.

Definition machineLoop : StateMachine string string := NewStateMachine [stateLoop].

(** A second state listed under the identifier ["A"]. *)
Definition stateA' : State string string :=
  mkState "A" [] (Some "A2"%string) false true.

(** ** Wrappers around shared cells

    A [Field] held by a wrapper is a pointer to a cell; two wrappers, or two
    members of one wrapper, may hold the same pointer.  [Ref] is such a
    pointer and [Store] the cells that the pointers of a program lead to; a
    method that dereferences a pointer without a cell has no result
    ([None]). *)

Definition Ref := nat.
Definition Store := gmap nat Field.

(** [defaulter] with its [Value] as the pointer it is. *)
Record defaulterAt := mkDefaulterAt {
  defaulterAt_ExplicitlySetField : bool;
  defaulterAt_Value : Ref
}.

Definition NewDefaultAt (explicitly : bool) (f : Ref) : defaulterAt :=
  {| defaulterAt_ExplicitlySetField := explicitly; defaulterAt_Value := f |}.

Record conditionalFieldWDefault := mkConditionalFieldWDefault {
  cfwd_Conditional : conditional Field;
  cfwd_Default : defaulterAt;
  cfwd_Field : Ref
}.

Definition NewCFWD (f : Ref) (prereqs : list (Prerequisite Field)) (defaultField : Ref)
  : conditionalFieldWDefault :=
  {| cfwd_Conditional := Conditions prereqs;
     cfwd_Default := NewDefaultAt true defaultField;
     cfwd_Field := f |}.

Definition NewEmptyCFWD (prereqs : list (Prerequisite Field)) (defaultField : Ref)
  : conditionalFieldWDefault :=
  {| cfwd_Conditional := Conditions prereqs;
     cfwd_Default := NewDefaultAt false defaultField;
     cfwd_Field := defaultField |}.

(** The methods that [conditionalFieldWDefault] has from its embedded
    members: [SetValue] and [FromString] are those of the embedded [Field]
    (the wrapper declares none of its own), [MatchesDefault] and
    [ExplicitlySet] those of the embedded [Default]. *)
Definition cfwd_SetValue (w : conditionalFieldWDefault) (in2 : Ref) (σ : Store)
  : option Store :=
  match σ !! cfwd_Field w, σ !! in2 with
  | Some f, Some g => Some (<[cfwd_Field w := Field_SetValue f g]> σ)
  | _, _ => None
  end.

Definition cfwd_FromString (w : conditionalFieldWDefault) (st : string) (σ : Store)
  : option Store :=
  match σ !! cfwd_Field w with
  | Some f => Some (<[cfwd_Field w := Field_FromString f st]> σ)
  | None => None
  end.

Definition cfwd_MatchesDefault (w : conditionalFieldWDefault) (f : Ref) (σ : Store)
  : option bool :=
  match σ !! defaulterAt_Value (cfwd_Default w), σ !! f with
  | Some d, Some x => Some (Field_Equal d (Some x))
  | _, _ => None
  end.

Definition cfwd_ExplicitlySet (w : conditionalFieldWDefault) : bool :=
  defaulterAt_ExplicitlySetField (cfwd_Default w).
(** * Properties *)

(** ** The safe comparator and the variants *)

Lemma GoType_eqb_eq (t1 t2 : GoType) : GoType_eqb t1 t2 = true <-> t1 = t2.
Proof. destruct t1, t2; simpl; split; intros H; congruence. Qed.

(** The nil result of [checkAndDoSafeCompare] is reserved for an argument of
    the receiver's own variant, so the type assertions that follow it hold. *)
Lemma checkAndDoSafeCompare_None (f1 : Field) (in2 : option Field) (o : safeOp) :
  checkAndDoSafeCompare f1 in2 o = None ->
  exists f2, in2 = Some f2 /\ Field_Type f1 = Field_Type f2.
Proof.
  destruct in2 as [f2|]; simpl; [|discriminate].
  unfold sameCompareTypes.
  destruct (GoType_eqb (Field_Type f1) (Field_Type f2)) eqn:E; simpl; [|discriminate].
  intros _. exists f2. split; [reflexivity|]. now apply GoType_eqb_eq.
Qed.

Lemma checkAndDoSafeCompare_diff (f1 f2 : Field) (o : safeOp) :
  Field_Type f1 <> Field_Type f2 ->
  checkAndDoSafeCompare f1 (Some f2) o
  = Some (safeCompare (Field_ToString f1) (Field_ToString f2) o).
Proof.
  intros Hne. unfold checkAndDoSafeCompare, sameCompareTypes.
  destruct (GoType_eqb (Field_Type f1) (Field_Type f2)) eqn:E; [|reflexivity].
  apply GoType_eqb_eq in E. contradiction.
Qed.

(** C2, the code at the inputs where it departs from the claim: a cell made
    by [NewBoolEmpty], never assigned, reports itself non-empty, and a cell
    made by [NewBool] reports itself empty; [IsEmpty] is the [Set] flag
    itself, not its negation. *)
Theorem BoolField_IsEmpty_is_Set_flag :
  Field_IsEmpty (NewBoolEmpty FieldKeyNil) = false
  /\ Field_IsEmpty (NewBool FieldKeyNil false) = true
  /\ forall s : BoolField, BoolField_IsEmpty s = BoolField_Set s.
Proof. repeat split. Qed.

(** C10: [SetValue] on an Empty cell changes nothing, whatever the argument
    (nil included): the cell, hence its key, is the same afterwards, and
    [IsEmpty] is still true. *)
Theorem EmptyField_SetValue_noop (s : EmptyField) (in2 : option Field) :
  EmptyField_SetValue s in2 = s
  /\ EmptyField_KeyField (EmptyField_SetValue s in2) = EmptyField_KeyField s
  /\ EmptyField_IsEmpty (EmptyField_SetValue s in2) = true.
Proof. repeat split. Qed.

(** C4 as stated fails: a Boolean cell is never less than a Text cell,
    although its text ["true"] sorts before ["zzz"]; and an Empty cell is not
    equal to a Text cell holding the empty string, although both print as
    the empty string. *)
Lemma cross_variant_not_always_textual :
  let b := NewBool FieldKeyNil true in
  let z := FString (mkStringField "zzz" FieldKeyNil) in
  let e := FEmpty (mkEmptyField FieldKeyNil) in
  let n := FString (mkStringField "" FieldKeyNil) in
  Field_Type b <> Field_Type z
  /\ Field_LessThan b (Some z) = false
  /\ safeCompare (Field_ToString b) (Field_ToString z) LT = true
  /\ Field_Type e <> Field_Type n
  /\ Field_Equal e (Some n) = false
  /\ safeCompare (Field_ToString e) (Field_ToString n) EQ = true.
Proof. cbv zeta. repeat split; try discriminate; reflexivity. Qed.

(** C4, amended: between cells of different variants, the comparisons of a
    Text, Timestamp, Decimal or Integer receiver, and [Equal] of a Boolean
    receiver, return the textual comparison of the two [ToString] forms;
    [LessThan] and [GreaterThan] of a Boolean receiver and all three
    comparisons of an Empty receiver return false.  Every case yields a
    boolean. *)
Theorem cross_variant_comparison (f1 f2 : Field) :
  Field_Type f1 <> Field_Type f2 ->
  match f1 with
  | FBool _ =>
      Field_LessThan f1 (Some f2) = false
      /\ Field_GreaterThan f1 (Some f2) = false
      /\ Field_Equal f1 (Some f2) = safeCompare (Field_ToString f1) (Field_ToString f2) EQ
  | FEmpty _ =>
      Field_LessThan f1 (Some f2) = false
      /\ Field_GreaterThan f1 (Some f2) = false
      /\ Field_Equal f1 (Some f2) = false
  | _ =>
      Field_LessThan f1 (Some f2) = safeCompare (Field_ToString f1) (Field_ToString f2) LT
      /\ Field_GreaterThan f1 (Some f2) = safeCompare (Field_ToString f1) (Field_ToString f2) GT
      /\ Field_Equal f1 (Some f2) = safeCompare (Field_ToString f1) (Field_ToString f2) EQ
  end.
Proof.
  intros Hne.
  destruct f1 as [s|s|s|s|s|s]; simpl;
    unfold StringField_LessThan, StringField_GreaterThan, StringField_Equal,
      TimeField_LessThan, TimeField_GreaterThan, TimeField_Equal,
      DecimalField_LessThan, DecimalField_GreaterThan, DecimalField_Equal,
      IntegerField_LessThan, IntegerField_GreaterThan, IntegerField_Equal,
      BoolField_LessThan, BoolField_GreaterThan, BoolField_Equal,
      EmptyField_LessThan, EmptyField_GreaterThan, EmptyField_Equal;
    rewrite ?(checkAndDoSafeCompare_diff _ _ _ Hne); repeat split.
  (* Empty receiver: [sameCompareTypes] is false *)
  unfold sameCompareTypes.
  destruct (GoType_eqb (Field_Type (FEmpty s)) (Field_Type f2)) eqn:E; [|reflexivity].
  apply GoType_eqb_eq in E. contradiction.
Qed.

Lemma cross_variant_comparison_witness :
  let i := FInteger (mkIntegerField 10 FieldKeyNil) in
  let t := FString (mkStringField "9" FieldKeyNil) in
  Field_LessThan i (Some t) = safeCompare (Field_ToString i) (Field_ToString t) LT
  /\ Field_GreaterThan i (Some t) = safeCompare (Field_ToString i) (Field_ToString t) GT
  /\ Field_Equal i (Some t) = safeCompare (Field_ToString i) (Field_ToString t) EQ.
Proof.
  cbv zeta.
  apply (cross_variant_comparison (FInteger (mkIntegerField 10 FieldKeyNil))
           (FString (mkStringField "9" FieldKeyNil))).
  simpl. discriminate.
Defined.

(** ** Default wrapper *)

(** C8: [IsDefault()] is true exactly when the baseline's [Equal] accepts
    the wrapped field and the explicitly-set flag is false; with the flag
    true it is false whatever the values. *)
Theorem IsDefault_iff (s : FieldWDefaultImpl) :
  (IsDefault s = true <->
     Field_Equal (DefaultField (FieldWDefaultImpl_Default s))
       (Some (FieldWDefaultImpl_Field s)) = true
     /\ ExplicitlySet (FieldWDefaultImpl_Default s) = false)
  /\ (ExplicitlySet (FieldWDefaultImpl_Default s) = true -> IsDefault s = false).
Proof.
  unfold IsDefault, MatchesDefault, DefaultField.
  destruct (ExplicitlySet (FieldWDefaultImpl_Default s)); simpl;
    rewrite ?andb_false_r, ?andb_true_r; split; try tauto; try congruence.
  - split; [discriminate | intros [_ H]; discriminate].
Qed.

(** ** Conditional gate *)

Section ConditionalFacts.

Context {A : Type}.
Implicit Types (g : list (Question A)) (ps : list (Prerequisite A)) (v : A).

Lemma runGauntlet_false g v :
  runGauntlet g v = false <-> exists w, In w g /\ w tt v = false.
Proof.
  induction g as [|w g IH]; simpl.
  - split; [discriminate | intros (w & [] & _)].
  - destruct (w tt v) eqn:E; simpl.
    + rewrite IH. split.
      * intros (w' & Hin & Hw'). exists w'. auto.
      * intros (w' & [-> | Hin] & Hw'); [congruence | exists w'; auto].
    + split; [|reflexivity]. intros _. exists w. auto.
Qed.

Lemma meetsLoop_false ps v :
  meetsLoop ps v = false <->
  exists p, In p ps /\ IsCandidate p v = true
            /\ exists w, In w (Gauntlet p) /\ w tt v = false.
Proof.
  induction ps as [|p ps IH]; simpl.
  - split; [discriminate | intros (p & [] & _)].
  - destruct (IsCandidate p v) eqn:Ec.
    + destruct (runGauntlet (Gauntlet p) v) eqn:Eg.
      * rewrite IH. split.
        -- intros (p' & Hin & H). exists p'. auto.
        -- intros (p' & [<- | Hin] & Hc & Hw); [|exists p'; auto].
           apply runGauntlet_false in Hw. congruence.
      * split; [|reflexivity]. intros _. exists p.
        apply runGauntlet_false in Eg. auto.
    + rewrite IH. split.
      * intros (p' & Hin & H). exists p'. auto.
      * intros (p' & [<- | Hin] & Hc & Hw); [congruence | exists p'; auto].
Qed.

(** C5: [Meets] rejects exactly when some prerequisite that is a candidate
    for the value has a question in its gauntlet that rejects the value;
    with no candidate prerequisite the gate approves. *)
Theorem Meets_false_iff (c : conditional A) v :
  (Meets c v = false <->
     exists p, In p (Prerequisites c) /\ IsCandidate p v = true
               /\ exists w, In w (Gauntlet p) /\ w tt v = false)
  /\ ((forall p, In p (Prerequisites c) -> IsCandidate p v = false) -> Meets c v = true).
Proof.
  split; [apply meetsLoop_false|].
  intros Hnone. destruct (Meets c v) eqn:E; [reflexivity|].
  apply meetsLoop_false in E. destruct E as (p & Hin & Hc & _).
  rewrite (Hnone p Hin) in Hc. discriminate.
Qed.

End ConditionalFacts.

(** C6 as stated fails: a gate without prerequisites approves every value,
    the boolean [true] and nil included, yet [SetValue] of those values
    forwards nothing: it panics at its type assertion. *)
Lemma FieldConditional_SetValue_needs_a_Field :
  let s := NewConditionalField (NewBoolEmpty (NewDefaultFieldKey "HasColor"))
             (Conditions []) in
  Meets (FieldConditional_Conditional s) (Some (VBool true)) = true
  /\ FieldConditional_SetValue s (Some (VBool true)) = None
  /\ Meets (FieldConditional_Conditional s) None = true
  /\ FieldConditional_SetValue s None = None.
Proof. cbv zeta. repeat split. Qed.

(** C6, amended: for an intended value that is a [Field], the gated
    [SetValue] hands it to the base field's [SetValue] when [Meets] approves
    it, and only then; on rejection the wrapper, base field included, is
    returned as it was, and no error comes out on either path.  For an
    intended value that is nil or not a [Field], [SetValue] panics at its
    type assertion, whatever the gate would say. *)
Theorem FieldConditional_SetValue_gated (s : FieldConditional) (intended : option GoValue) :
  match intended with
  | Some (VField f) =>
      (Meets (FieldConditional_Conditional s) intended = true ->
         FieldConditional_SetValue s intended
         = Some {| FieldConditional_Field := Field_SetValue (FieldConditional_Field s) f;
                   FieldConditional_Conditional := FieldConditional_Conditional s |})
      /\ (Meets (FieldConditional_Conditional s) intended = false ->
            FieldConditional_SetValue s intended = Some s)
  | _ => FieldConditional_SetValue s intended = None
  end.
Proof.
  destruct intended as [[| | | | |f|]|]; try reflexivity.
  unfold FieldConditional_SetValue.
  destruct (Meets (FieldConditional_Conditional s) (Some (VField f)));
    split; congruence.
Qed.

Lemma FieldConditional_SetValue_gated_witness :
  let rejectTrue : Prerequisite (option GoValue) :=
    mkPrerequisite
      (fun v => match v with
                | Some (VField f) => String.eqb (Field_ToString f) "true"
                | _ => false
                end)
      [fun _ => EnforceableFalse] in
  let s := NewConditionalField (NewBool FieldKeyNil false) (Conditions [rejectTrue]) in
  FieldConditional_SetValue s (Some (VField (NewBool FieldKeyNil true))) = Some s.
Proof.
  cbv zeta.
  apply (FieldConditional_SetValue_gated
           (NewConditionalField (NewBool FieldKeyNil false)
              (Conditions
                 [mkPrerequisite
                    (fun v => match v with
                              | Some (VField f) => String.eqb (Field_ToString f) "true"
                              | _ => false
                              end)
                    [fun _ => EnforceableFalse]]))
           (Some (VField (NewBool FieldKeyNil true)))).
  reflexivity.
Defined.

(** ** Unparsable input to [FromString] *)







(** ** The ring and its caches after construction *)

Section MachineFacts.

Context {V D : Type}.
Implicit Types (sm : StateMachine V D) (id : StateId) (sv : StateValue V).
Implicit Types (l : list (RingValue V D * StateId * StateValue V)).

Lemma populateAll_snoc sm l rv id sv :
  populateAll sm (l ++ [(rv, id, sv)]) = populateStep (populateAll sm l) rv id sv.
Proof. unfold populateAll. rewrite fold_left_app. reflexivity. Qed.

Lemma PopulateRing_populateAll sm (states : list (State V D)) :
  PopulateRing sm states = populateAll sm (map stateEntry states).
Proof.
  unfold PopulateRing, populateAll. revert sm.
  induction states as [|v states IH]; intros sm; simpl; [reflexivity|]. apply IH.
Qed.

Lemma PopulateConditionalRing_populateAll sm (states : list (ConditionalState V D)) :
  PopulateConditionalRing sm states = populateAll sm (map conditionalStateEntry states).
Proof.
  unfold PopulateConditionalRing, populateAll. revert sm.
  induction states as [|v states IH]; intros sm; simpl; [reflexivity|]. apply IH.
Qed.

(** After the loop has written a prefix [l] of at most [n] entries with
    pairwise different identifiers into a fresh ring of [n] elements: the
    ring still has [n] elements, the current position is [length l] (mod
    [n]), entry [i] sits at position [i], the address cache maps its
    identifier to [i] and the value cache to its payload, and the value
    cache holds nothing else. *)
Lemma populateAll_fresh (n : nat) (start : StateId) l :
  (length l <= n)%nat -> (0 < n)%nat ->
  NoDup (map (fun e => snd (fst e)) l) ->
  let sm := populateAll (freshMachine n start) l in
  length (Ring_elems sm) = n
  /\ Ring_cur sm = (length l mod n)%nat
  /\ (forall i rv id sv, l !! i = Some (rv, id, sv) ->
        Ring_elems sm !! i = Some rv
        /\ IdRingAddressCache sm !! id = Some (Some i)
        /\ ValueCache sm !! id = Some sv)
  /\ (forall id sv, ValueCache sm !! id = Some sv ->
        exists i rv, l !! i = Some (rv, id, sv)).
Proof.
  intros Hlen Hn. induction l as [|[[rv id] sv] l IH] using rev_ind; intros Hnd sm.
  - subst sm. simpl. rewrite length_replicate, Nat.Div0.mod_0_l.
    repeat split; intros; discriminate.
  - rewrite length_app in Hlen. simpl in Hlen.
    rewrite map_app in Hnd. simpl in Hnd.
    apply NoDup_app in Hnd. destruct Hnd as (Hnd & Hfresh & _).
    destruct (IH ltac:(lia) Hnd) as (Hl & Hcur & Hin & Hout). clear IH.
    subst sm. rewrite populateAll_snoc.
    remember (populateAll (freshMachine n start) l) as sm' eqn:Esm'. clear Esm'.
    rewrite Nat.mod_small in Hcur by lia.
    unfold populateStep, Ring_Next. simpl.
    rewrite length_insert, Hl, Hcur, length_app. simpl.
    split; [reflexivity|]. split; [f_equal; lia|]. split.
    + intros i rv' id' sv' Hi.
      destruct (decide (i = length l)) as [->|Hne].
      * rewrite list_lookup_middle in Hi by reflexivity. inversion Hi; subst.
        rewrite list_lookup_insert_eq by lia. rewrite !lookup_insert_eq. auto.
      * assert (Hi' : l !! i = Some (rv', id', sv')).
        { apply lookup_lt_Some in Hi as Hlt. rewrite length_app in Hlt. simpl in Hlt.
          rewrite lookup_app_l in Hi by lia. exact Hi. }
        destruct (Hin _ _ _ _ Hi') as (H1 & H2 & H3).
        assert (id <> id').
        { intros <-. apply (Hfresh id); [|left; reflexivity].
          apply list_elem_of_In, in_map_iff. exists (rv', id, sv').
          split; [reflexivity|]. apply list_elem_of_In.
          eapply list_elem_of_lookup_2; eauto. }
        rewrite list_lookup_insert_ne by auto.
        rewrite !lookup_insert_ne by auto. auto.
    + intros id' sv' H.
      destruct (decide (id = id')) as [<-|Hne].
      * rewrite lookup_insert_eq in H. inversion H; subst.
        exists (length l), rv. apply list_lookup_middle. reflexivity.
      * rewrite lookup_insert_ne in H by auto.
        destruct (Hout _ _ H) as (i & rv' & Hi). exists i, rv'.
        apply lookup_app_l_Some. exact Hi.
Qed.

End MachineFacts.

Section ProcessFacts.

Context {V D : Type}.
Implicit Types (cur : StateValue V) (equals : StateValue V -> StateValue V -> bool).
Implicit Types (order : list (StateId * StateValue V)).

(** When some visited entry matches and every matching entry carries the
    identifier [k0], the scan returns [k0] in whatever order it visits. *)
Lemma lookupValueCacheId_unique order cur equals (k0 : StateId) :
  (exists v, In (k0, v) order /\ equals v cur = true) ->
  (forall k v, In (k, v) order -> equals v cur = true -> k = k0) ->
  lookupValueCacheId order cur equals = k0.
Proof.
  induction order as [|[k v] order IH]; simpl; intros (v0 & Hin & Heq) Huniq.
  - destruct Hin.
  - destruct (equals v cur) eqn:E; [eapply Huniq; eauto|].
    apply IH.
    + destruct Hin as [Hin|Hin]; [congruence | eauto].
    + intros k' v' Hin'. apply Huniq. auto.
Qed.

(** The scan over the value cache of a machine populated from [l] (with
    pairwise different identifiers) finds the identifier of the one entry
    whose payload matches. *)
Lemma lookup_populated (n : nat) (start : StateId)
    (l : list (RingValue V D * StateId * StateValue V)) order cur equals i rv id sv :
  (length l <= n)%nat -> (0 < n)%nat ->
  NoDup (map (fun e => snd (fst e)) l) ->
  order ≡ₚ map_to_list (ValueCache (populateAll (freshMachine n start) l)) ->
  l !! i = Some (rv, id, sv) ->
  equals sv cur = true ->
  (forall rv' id' sv', In (rv', id', sv') l -> equals sv' cur = true -> id' = id) ->
  lookupValueCacheId order cur equals = id.
Proof.
  intros Hlen Hn Hnd Hperm Hi Heq Huniq.
  destruct (populateAll_fresh n start l Hlen Hn Hnd) as (_ & _ & Hin & Hout).
  apply lookupValueCacheId_unique.
  - exists sv. split; [|exact Heq].
    apply list_elem_of_In. rewrite Hperm. apply elem_of_map_to_list.
    apply (Hin _ _ _ _ Hi).
  - intros k v Hk Hv. apply list_elem_of_In in Hk. rewrite Hperm in Hk.
    apply elem_of_map_to_list in Hk. destruct (Hout _ _ Hk) as (j & rv' & Hj).
    eapply Huniq; [|exact Hv]. apply list_elem_of_In.
    eapply list_elem_of_lookup_2; eauto.
Qed.

(** C1 as stated fails on the ring of the specification: from the
    terminal state [C] the plain machine returns no payload and the
    signal [SameStateNoUpdate]. *)
Lemma terminal_state_is_not_a_success :
  ProcessInMachine machineABC (map_to_list (ValueCache machineABC))
    (Some "C"%string) "go"%string BasicEquals
  = (None, Some SameStateNoUpdate)
  /\ State_Terminal stateC = true
  /\ State_StateValue stateC = Some "C"%string.
Proof. repeat split; vm_compute; reflexivity. Qed.

(** C1, amended: in a plain machine built from states with pairwise
    different identifiers, for a terminal state [C] with a non-empty
    identifier whose payload is the only one that [equals] matches with the
    current value, [ProcessInMachine] returns no payload together with the
    distinguished signal [SameStateNoUpdate], in every iteration order of
    the value cache. *)
Theorem ProcessInMachine_terminal (states : list (State V D)) (C : State V D)
    order cur (testData : D) equals :
  NoDup (map State_Id states) ->
  In C states ->
  State_Terminal C = true ->
  State_Id C <> "" ->
  order ≡ₚ map_to_list (ValueCache (NewStateMachine states)) ->
  equals (State_StateValue C) cur = true ->
  (forall s, In s states -> equals (State_StateValue s) cur = true ->
             State_Id s = State_Id C) ->
  ProcessInMachine (NewStateMachine states) order cur testData equals
  = (None, Some SameStateNoUpdate).
Proof.
  intros Hnd HC Hterm Hid Hperm Heq Huniq.
  destruct states as [|s0 states']; [destruct HC|].
  remember (s0 :: states') as states eqn:Est.
  assert (Hsm : NewStateMachine states
                = populateAll (freshMachine (length states) (State_Id s0))
                    (map stateEntry states)).
  { rewrite Est. unfold NewStateMachine. rewrite PopulateRing_populateAll. reflexivity. }
  rewrite Hsm in *. clear Hsm.
  assert (Hlen : (length (map stateEntry states) <= length states)%nat)
    by (rewrite length_map; lia).
  assert (Hn : (0 < length states)%nat) by (rewrite Est; simpl; lia).
  assert (Hnd' : NoDup (map (fun e => snd (fst e)) (map stateEntry states)))
    by (rewrite map_map; exact Hnd).
  apply list_elem_of_In, list_elem_of_lookup in HC. destruct HC as (i & Hi).
  assert (Hi' : map stateEntry states !! i = Some (stateEntry C))
    by (rewrite list_lookup_fmap, Hi; reflexivity).
  unfold ProcessInMachine.
  rewrite (lookup_populated _ _ _ order cur equals i _ _ _ Hlen Hn Hnd' Hperm Hi' Heq).
  - destruct (populateAll_fresh _ (State_Id s0) _ Hlen Hn Hnd') as (_ & _ & Hin & _).
    destruct (Hin _ _ _ _ Hi') as (Hel & Haddr & _).
    rewrite Haddr, Hel. unfold State_EvaluateTransition. rewrite Hterm.
    destruct (String.eqb (State_Id C) "") eqn:E1.
    + apply String.eqb_eq in E1. contradiction.
    + rewrite String.eqb_refl. reflexivity.
  - intros rv' id' sv' Hin' Hm. apply in_map_iff in Hin'.
    destruct Hin' as (s & Hs & Hsin). inversion Hs; subst. apply Huniq; auto.
Qed.

(** The conditional machine's errors are all made on the spot. *)
Lemma evalOutcomes_error (os : list (ConditionalTransition D)) (td : D) nextId err :
  evalOutcomes os td = (nextId, Some err) -> err <> SameStateNoUpdate.
Proof.
  induction os as [|o os IH]; simpl.
  - intros H. inversion H. discriminate.
  - destruct (Meets (ConditionalTransition_Conditional o) td); [discriminate | exact IH].
Qed.

(** The first outcome whose gate meets the data decides the transition. *)
Lemma evalOutcomes_first (pre post : list (ConditionalTransition D))
    (t : ConditionalTransition D) (td : D) :
  (forall t', In t' pre -> Meets (ConditionalTransition_Conditional t') td = false) ->
  Meets (ConditionalTransition_Conditional t) td = true ->
  evalOutcomes (pre ++ t :: post) td = (ConditionalTransition_NextState t, None).
Proof.
  intros Hpre Ht. induction pre as [|p pre IH]; simpl.
  - rewrite Ht. reflexivity.
  - rewrite (Hpre p) by (left; reflexivity). apply IH.
    intros t' Hin. apply Hpre. right. exact Hin.
Qed.

(** C9, amended: the conditional machine never returns
    [SameStateNoUpdate]; and in a conditional machine built from states
    with pairwise different identifiers, when [equals] matches the current
    value with the payload of the state [cs] only and the first outcome of
    [cs] whose gate meets the test data targets [cs] itself, the machine
    looks [cs] up again like any other target: the result is the error
    "next id is empty" when the identifier of [cs] is empty, the error
    "value is nil for next id" when its payload is nil, and otherwise the
    payload of [cs] and no error. *)
Theorem ConditionalStateMachine_self_transition :
  (forall (sm : StateMachine V D) order cur (testData : D) equals,
      snd (ConditionalStateMachine_ProcessInMachine sm order cur testData equals)
      <> Some SameStateNoUpdate)
  /\ (forall (states : list (ConditionalState V D)) (cs : ConditionalState V D)
             order cur (testData : D) equals pre t post,
        NoDup (map ConditionalState_Id states) ->
        In cs states ->
        order ≡ₚ map_to_list (ValueCache (NewConditionalStateMachine states)) ->
        equals (ConditionalState_StateValue cs) cur = true ->
        (forall s, In s states -> equals (ConditionalState_StateValue s) cur = true ->
                   ConditionalState_Id s = ConditionalState_Id cs) ->
        ConditionalState_Outcomes cs = pre ++ t :: post ->
        (forall t', In t' pre ->
                    Meets (ConditionalTransition_Conditional t') testData = false) ->
        Meets (ConditionalTransition_Conditional t) testData = true ->
        ConditionalTransition_NextState t = ConditionalState_Id cs ->
        ConditionalStateMachine_ProcessInMachine (NewConditionalStateMachine states)
          order cur testData equals
        = if String.eqb (ConditionalState_Id cs) ""
          then (None, Some (New "next id is empty"))
          else match ConditionalState_StateValue cs with
               | Some v => (Some v, None)
               | None => (None, Some (New "value is nil for next id"))
               end).
Proof.
  split.
  - intros sm order cur td equals. unfold ConditionalStateMachine_ProcessInMachine.
    destruct (IdRingAddressCache sm !! _) as [[addr|]|]; simpl; try discriminate.
    destruct (Ring_elems sm !! addr) as [[|s|s]|]; simpl; try discriminate.
    unfold ConditionalState_EvaluateTransition.
    destruct (evalOutcomes _ td) as [nextId [err|]] eqn:E; simpl.
    + apply evalOutcomes_error in E. congruence.
    + destruct (String.eqb nextId ""); simpl; [discriminate|].
      unfold lookupNextValue.
      destruct (ValueCache sm !! nextId) as [[value|]|]; simpl; discriminate.
  - intros states cs order cur td equals pre t post
      Hnd Hcs Hperm Heq Huniq Hout Hpre Ht Hnext.
    destruct states as [|s0 states']; [destruct Hcs|].
    remember (s0 :: states') as states eqn:Est.
    assert (Hsm : NewConditionalStateMachine states
                  = populateAll (freshMachine (length states) (ConditionalState_Id s0))
                      (map conditionalStateEntry states)).
    { rewrite Est. unfold NewConditionalStateMachine.
      rewrite PopulateConditionalRing_populateAll. reflexivity. }
    rewrite Hsm in *. clear Hsm.
    assert (Hlen : (length (map conditionalStateEntry states) <= length states)%nat)
      by (rewrite length_map; lia).
    assert (Hn : (0 < length states)%nat) by (rewrite Est; simpl; lia).
    assert (Hnd' : NoDup (map (fun e => snd (fst e)) (map conditionalStateEntry states)))
      by (rewrite map_map; exact Hnd).
    apply list_elem_of_In, list_elem_of_lookup in Hcs. destruct Hcs as (i & Hi).
    assert (Hi' : map conditionalStateEntry states !! i = Some (conditionalStateEntry cs))
      by (rewrite list_lookup_fmap, Hi; reflexivity).
    unfold ConditionalStateMachine_ProcessInMachine.
    rewrite (lookup_populated _ _ _ order cur equals i _ _ _ Hlen Hn Hnd' Hperm Hi' Heq).
    + destruct (populateAll_fresh _ (ConditionalState_Id s0) _ Hlen Hn Hnd')
        as (_ & _ & Hin & _).
      destruct (Hin _ _ _ _ Hi') as (Hel & Haddr & Hval).
      rewrite Haddr, Hel. unfold ConditionalState_EvaluateTransition.
      rewrite Hout, (evalOutcomes_first pre post t td Hpre Ht), Hnext.
      destruct (String.eqb (ConditionalState_Id cs) ""); [reflexivity|].
      unfold lookupNextValue. unfold StateValue in *. rewrite Hval.
      destruct (ConditionalState_StateValue cs); reflexivity.
    + intros rv' id' sv' Hin' Hm. apply in_map_iff in Hin'.
      destruct Hin' as (s & Hs & Hsin). inversion Hs; subst. apply Huniq; auto.
Qed.

End ProcessFacts.

Lemma ProcessInMachine_terminal_witness :
  ProcessInMachine machineABC (map_to_list (ValueCache machineABC))
    (Some "C"%string) "stop"%string BasicEquals
  = (None, Some SameStateNoUpdate).
Proof.
  apply (ProcessInMachine_terminal [stateA; stateB; stateC] stateC).
  - apply (bool_decide_unpack _). vm_compute. exact I.
  - simpl. auto.
  - reflexivity.
  - discriminate.
  - reflexivity.
  - vm_compute. reflexivity.
  - intros s [<-|[<-|[<-|[]]]]; vm_compute; congruence.
Defined.

Lemma ConditionalStateMachine_self_transition_witness :
  ConditionalStateMachine_ProcessInMachine cmachineABC
    (map_to_list (ValueCache cmachineABC)) (Some "C"%string) "go"%string BasicEquals
  = (Some "C"%string, None).
Proof.
  apply (proj2 ConditionalStateMachine_self_transition
           [cstateA; cstateB; cstateC] cstateC
           (map_to_list (ValueCache cmachineABC)) (Some "C"%string) "go"%string
           BasicEquals [] (mkConditionalTransition "C" (Conditions [])) []).
  - apply (bool_decide_unpack _). vm_compute. exact I.
  - simpl. auto.
  - reflexivity.
  - vm_compute. reflexivity.
  - intros s [<-|[<-|[<-|[]]]]; vm_compute; congruence.
  - reflexivity.
  - intros t' [].
  - reflexivity.
  - reflexivity.
Defined.

(** C9 as stated fails: a state that targets itself behind a gate without
    prerequisites does not get its own payload back as a success when its
    payload is nil, nor when its identifier is the empty string. *)
Lemma self_transition_is_not_always_a_success :
  ConditionalStateMachine_ProcessInMachine cmachineNil
    (map_to_list (ValueCache cmachineNil)) None "go"%string BasicEquals
  = (None, Some (New "value is nil for next id"))
  /\ ConditionalStateMachine_ProcessInMachine cmachineAnon
       (map_to_list (ValueCache cmachineAnon)) (Some "P"%string) "go"%string BasicEquals
     = (None, Some (New "next id is empty")).
Proof. split; vm_compute; reflexivity. Qed.

(** ** Digits: what is formatted reads back *)

Lemma isDigit_range (c : ascii) :
  isDigit c = true -> 0 <= digitVal c <= 9.
Proof. unfold isDigit, digitVal. intros H. apply andb_true_iff in H. lia. Qed.

Lemma digitChar_digit (d : Z) :
  0 <= d <= 9 -> isDigit (digitChar d) = true /\ digitVal (digitChar d) = d.
Proof.
  intros Hd. assert (Hc : d = 0 \/ d = 1 \/ d = 2 \/ d = 3 \/ d = 4 \/ d = 5
                          \/ d = 6 \/ d = 7 \/ d = 8 \/ d = 9) by lia.
  repeat (destruct Hc as [-> | Hc]; [split; reflexivity|]). subst d. split; reflexivity.
Qed.

Lemma parseDigits_app (a b : list ascii) (m : Z) :
  parseDigits (a ++ b) m
  = match parseDigits a m with Some r => parseDigits b r | None => None end.
Proof.
  revert m. induction a as [|c a IH]; intros m; simpl; [reflexivity|].
  destruct (isDigit c); [apply IH | reflexivity].
Qed.

Lemma parseDigits_value (ds : list ascii) (m : Z) :
  Forall (fun c => isDigit c = true) ds ->
  exists r, parseDigits ds 0 = Some r /\ 0 <= r < 10 ^ Z.of_nat (length ds)
            /\ parseDigits ds m = Some (m * 10 ^ Z.of_nat (length ds) + r).
Proof.
  revert m. induction ds as [|c ds IH] using rev_ind; intros m Hds.
  - exists 0. simpl. split; [reflexivity|]. split; [lia|]. f_equal. lia.
  - apply Forall_app in Hds. destruct Hds as [Hds Hc].
    apply Forall_inv in Hc.
    destruct (IH 0 Hds) as (r0 & Hr0 & Hb & _). destruct (IH m Hds) as (r0' & Hr0' & _ & Hm).
    assert (r0' = r0) by congruence. subst r0'.
    pose proof (isDigit_range c Hc) as Hd.
    exists (r0 * 10 + digitVal c).
    rewrite !parseDigits_app, Hr0, Hm. simpl. rewrite Hc.
    rewrite length_app. simpl.
    replace (Z.of_nat (length ds + 1)) with (Z.of_nat (length ds) + 1) by lia.
    rewrite Z.pow_add_r by lia. split; [reflexivity|]. split; [lia|]. f_equal. lia.
Qed.

(** With fuel for every digit, [fmtDigits] puts the digits of [n] before
    the accumulator. *)
Lemma fmtDigits_spec (fuel : nat) (n : Z) (acc : list ascii) :
  0 <= n < 10 ^ Z.of_nat (S fuel) ->
  exists ds, fmtDigits (S fuel) n acc = ds ++ acc
             /\ ds <> []
             /\ Forall (fun c => isDigit c = true) ds
             /\ parseDigits ds 0 = Some n
             /\ (length ds <= S fuel)%nat.
Proof.
  revert n acc. induction fuel as [|fuel IH]; intros n acc Hn.
  - assert (Hlt : n < 10) by (change (10 ^ Z.of_nat 1) with 10 in Hn; lia).
    exists [digitChar n]. simpl. rewrite Z.mod_small by lia.
    destruct (digitChar_digit n ltac:(lia)) as [H1 H2].
    split; [destruct (n <? 10); reflexivity|]. split; [discriminate|].
    split; [constructor; auto|]. rewrite H1, H2. split; [f_equal; lia | lia].
  - change (fmtDigits (S (S fuel)) n acc)
      with (let acc' := digitChar (n mod 10) :: acc in
            if n <? 10 then acc' else fmtDigits (S fuel) (n / 10) acc').
    cbv zeta.
    assert (Hm : 0 <= n mod 10 <= 9) by (pose proof (Z.mod_pos_bound n 10); lia).
    destruct (digitChar_digit (n mod 10) Hm) as [H1 H2].
    destruct (n <? 10) eqn:E.
    + apply Z.ltb_lt in E. exists [digitChar (n mod 10)].
      split; [reflexivity|]. split; [discriminate|]. split; [constructor; auto|].
      simpl. rewrite H1, H2, Z.mod_small by lia. split; [f_equal | lia].
    + apply Z.ltb_ge in E.
      assert (Hq : 0 <= n / 10 < 10 ^ Z.of_nat (S fuel)).
      { split; [apply Z.div_pos; lia|]. apply Z.div_lt_upper_bound; [lia|].
        replace (Z.of_nat (S (S fuel))) with (1 + Z.of_nat (S fuel)) in Hn by lia.
        rewrite Z.pow_add_r in Hn by lia. lia. }
      destruct (IH (n / 10) (digitChar (n mod 10) :: acc) Hq)
        as (ds & Hds & Hne & Hall & Hval & Hlen).
      exists (ds ++ [digitChar (n mod 10)]).
      split; [rewrite Hds, <- app_assoc; reflexivity|].
      split; [destruct ds; discriminate|].
      split; [apply Forall_app; split; [exact Hall | constructor; auto]|].
      rewrite parseDigits_app, Hval. simpl. rewrite H1, H2.
      split; [f_equal; pose proof (Z.div_mod n 10); lia|].
      rewrite length_app. simpl. lia.
Qed.

Lemma digitsFuel_enough (n : Z) : 0 <= n -> n < 10 ^ Z.of_nat (digitsFuel n).
Proof.
  intros Hn. unfold digitsFuel.
  destruct (Z.eq_dec n 0) as [->|Hne]; [reflexivity|].
  pose proof (Z.log2_spec n ltac:(lia)) as [_ Hup].
  pose proof (Z.log2_nonneg n) as Hl.
  replace (Z.of_nat (S (Z.to_nat (Z.log2 n)))) with (Z.succ (Z.log2 n)) by lia.
  eapply Z.lt_le_trans; [exact Hup|].
  apply Z.pow_le_mono_l. lia.
Qed.

Lemma formatNat_spec (n : Z) :
  0 <= n ->
  formatNat n <> []
  /\ Forall (fun c => isDigit c = true) (formatNat n)
  /\ parseDigits (formatNat n) 0 = Some n.
Proof.
  intros Hn. unfold formatNat.
  assert (Hfuel : 0 <= n < 10 ^ Z.of_nat (digitsFuel n))
    by (split; [lia | apply (digitsFuel_enough n Hn)]).
  destruct (fmtDigits_spec (Z.to_nat (Z.log2 n)) n [] Hfuel)
    as (ds & Hds & Hne & Hall & Hval & _).
  unfold digitsFuel. rewrite Hds, app_nil_r. auto.
Qed.

Lemma fmtDigits_more (f1 f2 : nat) (n : Z) (acc : list ascii) :
  0 <= n < 10 ^ Z.of_nat (S f1) -> (f1 <= f2)%nat ->
  fmtDigits (S f2) n acc = fmtDigits (S f1) n acc.
Proof.
  revert f2 n acc. induction f1 as [|f1 IH]; intros f2 n acc Hn Hle.
  - assert (Hlt : n < 10) by (change (10 ^ Z.of_nat 1) with 10 in Hn; lia).
    apply Z.ltb_lt in Hlt. simpl. rewrite Hlt. reflexivity.
  - destruct f2 as [|f2]; [lia|].
    change (fmtDigits (S (S f2)) n acc)
      with (let acc' := digitChar (n mod 10) :: acc in
            if n <? 10 then acc' else fmtDigits (S f2) (n / 10) acc').
    change (fmtDigits (S (S f1)) n acc)
      with (let acc' := digitChar (n mod 10) :: acc in
            if n <? 10 then acc' else fmtDigits (S f1) (n / 10) acc').
    cbv zeta. destruct (n <? 10) eqn:E; [reflexivity|].
    apply Z.ltb_ge in E. apply IH; [|lia].
    split; [apply Z.div_pos; lia|]. apply Z.div_lt_upper_bound; [lia|].
    replace (Z.of_nat (S (S f1))) with (1 + Z.of_nat (S f1)) in Hn by lia.
    rewrite Z.pow_add_r in Hn by lia. lia.
Qed.

Lemma formatNat_length (n : Z) (k : nat) :
  0 <= n < 10 ^ Z.of_nat k -> (1 <= k)%nat -> (length (formatNat n) <= k)%nat.
Proof.
  intros Hn Hk. destruct k as [|k]; [lia|].
  destruct (fmtDigits_spec k n [] Hn) as (ds & Hds & _ & _ & _ & Hlen).
  rewrite app_nil_r in Hds.
  pose proof (fmtDigits_spec (Z.to_nat (Z.log2 n)) n []
                ltac:(split; [lia | apply (digitsFuel_enough n); lia]))
    as (ds' & Hds' & _ & _ & _ & Hlen').
  rewrite app_nil_r in Hds'.
  unfold formatNat, digitsFuel.
  destruct (Nat.le_ge_cases k (Z.to_nat (Z.log2 n))) as [Hle|Hge].
  - rewrite (fmtDigits_more k _ n [] Hn Hle), Hds. exact Hlen.
  - rewrite Hds'. lia.
Qed.

Lemma parseDigits_zeros (k : nat) (ds : list ascii) :
  parseDigits (repeat "0"%char k ++ ds) 0 = parseDigits ds 0.
Proof. induction k as [|k IH]; simpl; [reflexivity | exact IH]. Qed.

Lemma Forall_digits_zeros (k : nat) :
  Forall (fun c => isDigit c = true) (repeat "0"%char k).
Proof. induction k; simpl; constructor; auto. Qed.

Lemma appendInt_spec (x : Z) (w : nat) :
  0 <= x < 10 ^ Z.of_nat w -> (1 <= w)%nat ->
  length (time.appendInt x w) = w
  /\ Forall (fun c => isDigit c = true) (time.appendInt x w)
  /\ parseDigits (time.appendInt x w) 0 = Some x.
Proof.
  intros Hx Hw. unfold time.appendInt.
  assert (Hneg : (x <? 0) = false) by (apply Z.ltb_ge; lia).
  rewrite Hneg, Z.abs_eq by lia. simpl.
  pose proof (formatNat_length x w Hx Hw) as Hlen.
  destruct (formatNat_spec x ltac:(lia)) as (_ & Hall & Hval).
  rewrite length_app, repeat_length, parseDigits_zeros.
  split; [lia|]. split; [|exact Hval].
  apply Forall_app. split; [apply Forall_digits_zeros | exact Hall].
Qed.

(** ** strconv: reading back what was formatted *)

Lemma parseDigits_mono (cs : list ascii) (a r : Z) :
  0 <= a -> parseDigits cs a = Some r -> a <= r.
Proof.
  revert a. induction cs as [|c cs IH]; intros a Ha Hp; simpl in Hp.
  - inversion Hp. lia.
  - destruct (isDigit c) eqn:Ec; [|discriminate].
    pose proof (isDigit_range c Ec).
    specialize (IH (a * 10 + digitVal c) ltac:(lia) Hp). lia.
Qed.

Lemma ParseUint_loop_digits (maxVal : Z) (cs : list ascii) (n r : Z) :
  parseDigits cs n = Some r -> 0 <= n -> r <= maxVal -> maxVal <= strconv.maxUint64 ->
  strconv.ParseUint_loop maxVal cs n = (r, None).
Proof.
  revert n. induction cs as [|c cs IH]; intros n Hp Hn Hr Hmax; simpl in *.
  - congruence.
  - destruct (isDigit c) eqn:Ec; [|discriminate].
    pose proof (isDigit_range c Ec) as Hd.
    pose proof (parseDigits_mono cs (n * 10 + digitVal c) r ltac:(lia) Hp) as Hge.
    unfold strconv.maxUint64 in *.
    change (2 ^ 64) with 18446744073709551616 in *.
    change ((18446744073709551616 - 1) / 10 + 1) with 1844674407370955162.
    assert (E1 : (n >=? 1844674407370955162) = false) by (rewrite Z.geb_leb; apply Z.leb_gt; lia).
    rewrite E1, Z.mod_small by lia.
    assert (E2 : (n * 10 + digitVal c <? n * 10) = false) by (apply Z.ltb_ge; lia).
    assert (E3 : (n * 10 + digitVal c >? maxVal) = false)
      by (rewrite Z.gtb_ltb; apply Z.ltb_ge; lia).
    rewrite E2, E3. simpl. apply IH; auto; lia.
Qed.

Lemma digit_not_sign (c : ascii) :
  isDigit c = true ->
  Ascii.eqb c "+" = false /\ Ascii.eqb c "-" = false /\ Ascii.eqb c "." = false
  /\ Ascii.eqb c "E" = false /\ Ascii.eqb c "e" = false.
Proof.
  intros H. repeat split; apply Ascii.eqb_neq; intros ->; discriminate.
Qed.

(** A numeral: an optional minus sign and the digits of the magnitude. *)
Lemma ParseInt_numeral (ds : list ascii) (neg : bool) (bitSize r : Z) :
  ds <> [] -> Forall (fun c => isDigit c = true) ds ->
  parseDigits ds 0 = Some r ->
  bitSize = 0 \/ bitSize = 32 \/ bitSize = 64 ->
  (let b := if bitSize =? 0 then strconv.IntSize else bitSize in
   if neg then r <= 2 ^ (b - 1) else r < 2 ^ (b - 1)) ->
  strconv.ParseInt (if neg then "-"%char :: ds else ds) bitSize
  = (if neg then - r else r, None).
Proof.
  intros Hne Hall Hp Hb Hr.
  destruct ds as [|c ds]; [contradiction|].
  pose proof (Forall_inv Hall) as Hc. destruct (digit_not_sign c Hc) as (Hplus & Hminus & _).
  assert (HU : strconv.ParseUint (c :: ds) bitSize = (r, None)).
  { unfold strconv.ParseUint. apply ParseUint_loop_digits; auto; [lia| |].
    - destruct Hb as [-> | [-> | ->]]; destruct neg; simpl in *; unfold strconv.IntSize in *; lia.
    - destruct Hb as [-> | [-> | ->]]; vm_compute; discriminate. }
  assert (Hr0 : 0 <= r) by (apply (parseDigits_mono (c :: ds) 0 r); [lia | exact Hp]).
  destruct neg.
  - unfold strconv.ParseInt. simpl Ascii.eqb. cbv iota. rewrite HU. simpl.
    assert (E : (r >? 2 ^ ((if bitSize =? 0 then strconv.IntSize else bitSize) - 1)) = false)
      by (rewrite Z.gtb_ltb; apply Z.ltb_ge; exact Hr).
    rewrite E. reflexivity.
  - unfold strconv.ParseInt. rewrite Hplus, Hminus, HU. simpl.
    assert (E : (r >=? 2 ^ ((if bitSize =? 0 then strconv.IntSize else bitSize) - 1)) = false)
      by (rewrite Z.geb_leb; apply Z.leb_gt; exact Hr).
    rewrite E. reflexivity.
Qed.

Lemma Atoi_Itoa (v : Z) :
  - 2 ^ 63 <= v <= 2 ^ 63 - 1 -> strconv.Atoi (strconv.Itoa v) = (v, None).
Proof.
  intros Hv. unfold strconv.Atoi, strconv.Itoa.
  rewrite list_ascii_of_string_of_list_ascii.
  destruct (v <? 0) eqn:E.
  - apply Z.ltb_lt in E.
    destruct (formatNat_spec (- v) ltac:(lia)) as (Hne & Hall & Hval).
    rewrite (ParseInt_numeral (formatNat (- v)) true 0 (- v)); auto.
    + f_equal. lia.
    + simpl. unfold strconv.IntSize. lia.
  - apply Z.ltb_ge in E.
    destruct (formatNat_spec v ltac:(lia)) as (Hne & Hall & Hval).
    rewrite (ParseInt_numeral (formatNat v) false 0 v); auto.
    simpl. unfold strconv.IntSize. lia.
Qed.

(** ** time: reading back what [Format] wrote *)

Lemma parseUint_ok (cs : list ascii) (min max x : Z) :
  parseDigits cs 0 = Some x -> min <= x <= max -> time.parseUint cs min max = (x, true).
Proof.
  intros Hp Hx. unfold time.parseUint. rewrite Hp.
  assert (E1 : (x <? min) = false) by (apply Z.ltb_ge; lia).
  assert (E2 : (max <? x) = false) by (apply Z.ltb_ge; lia).
  rewrite E1, E2. reflexivity.
Qed.

(** A field written by [appendInt] with two, resp. four, digits. *)
Lemma appendInt_2 (x : Z) :
  0 <= x < 100 ->
  exists a b, time.appendInt x 2 = [a; b] /\ parseDigits [a; b] 0 = Some x.
Proof.
  intros Hx. destruct (appendInt_spec x 2 ltac:(simpl; lia) ltac:(lia)) as (Hl & _ & Hp).
  destruct (time.appendInt x 2) as [|a [|b [|c l]]]; try discriminate. eauto.
Qed.

Lemma appendInt_4 (x : Z) :
  0 <= x < 10000 ->
  exists a b c d, time.appendInt x 4 = [a; b; c; d] /\ parseDigits [a; b; c; d] 0 = Some x.
Proof.
  intros Hx. destruct (appendInt_spec x 4 ltac:(simpl; lia) ltac:(lia)) as (Hl & _ & Hp).
  destruct (time.appendInt x 4) as [|a [|b [|c [|d [|e l]]]]]; try discriminate.
  exists a, b, c, d. auto.
Qed.

Lemma parseDigits_2 (a b : ascii) (x : Z) :
  parseDigits [a; b] 0 = Some x ->
  isDigit a = true /\ isDigit b = true /\ x = digitVal a * 10 + digitVal b.
Proof.
  cbn [parseDigits]. destruct (isDigit a), (isDigit b); try discriminate.
  intros H. inversion H. repeat split; lia.
Qed.

Lemma getnum_2 (a b : ascii) (rest : list ascii) (fixed : bool) (x : Z) :
  parseDigits [a; b] 0 = Some x -> time.getnum (a :: b :: rest) fixed = Some (x, rest).
Proof.
  intros H. apply parseDigits_2 in H. destruct H as (Ha & Hb & ->).
  unfold time.getnum. rewrite Ha, Hb. reflexivity.
Qed.

Lemma digit_not_colon (c : ascii) :
  isDigit c = true -> Ascii.eqb c ":" = false.
Proof. intros H. apply Ascii.eqb_neq. intros ->. discriminate. Qed.

(** A negative number is written with a minus sign, and a number of more
    than [w] digits in full. *)
Lemma appendInt_negative (x : Z) (w : nat) :
  x < 0 -> exists l, time.appendInt x w = "-"%char :: l.
Proof.
  intros Hx. unfold time.appendInt. apply Z.ltb_lt in Hx. rewrite Hx. simpl. eauto.
Qed.

Lemma appendInt_long (x : Z) (w : nat) :
  10 ^ Z.of_nat w <= x ->
  Forall (fun c => isDigit c = true) (time.appendInt x w)
  /\ (w < length (time.appendInt x w))%nat.
Proof.
  intros Hx.
  assert (H0 : 0 < x) by (pose proof (Z.pow_pos_nonneg 10 (Z.of_nat w)); lia).
  unfold time.appendInt.
  assert (Hneg : (x <? 0) = false) by (apply Z.ltb_ge; lia).
  rewrite Hneg, Z.abs_eq by lia. cbn [app].
  destruct (formatNat_spec x ltac:(lia)) as (_ & Hall & Hval).
  destruct (parseDigits_value (formatNat x) 0 Hall) as (r & Hr & Hb & _).
  assert (r = x) by congruence. subst r.
  assert (Hlen : (w < length (formatNat x))%nat).
  { apply Nat2Z.inj_lt. apply (Z.pow_lt_mono_r_iff 10); lia. }
  replace (w - length (formatNat x))%nat with 0%nat by lia. simpl. split; assumption.
Qed.

(** The strict reader and the layout reader refuse a text that does not
    begin with a digit, and one whose year has a fifth digit. *)
Lemma parseRFC3339_not_digit (c : ascii) (l : list ascii) :
  isDigit c = false -> time.parseRFC3339 (c :: l) = None.
Proof.
  intros Hc. unfold time.parseRFC3339.
  do 18 (destruct l as [|? l]; [reflexivity|]).
  unfold time.parseUint at 1. cbn [parseDigits]. rewrite Hc.
  repeat match goal with
         | |- context [time.parseUint ?a ?b ?c] =>
             destruct (time.parseUint a b c) as [? ?]
         end.
  reflexivity.
Qed.

Lemma parseRFC3339_long_year (d1 d2 d3 d4 d5 : ascii) (l : list ascii) :
  isDigit d5 = true -> time.parseRFC3339 (d1 :: d2 :: d3 :: d4 :: d5 :: l) = None.
Proof.
  intros Hc. destruct (digit_not_sign d5 Hc) as (_ & Hm & _).
  unfold time.parseRFC3339.
  do 14 (destruct l as [|? l]; [reflexivity|]).
  repeat match goal with
         | |- context [time.parseUint ?a ?b ?c] =>
             destruct (time.parseUint a b c) as [? ?]
         end.
  rewrite Hm, andb_false_r. reflexivity.
Qed.

Lemma parseLayoutRFC3339_not_digit (c : ascii) (l : list ascii) :
  isDigit c = false -> time.parseLayoutRFC3339 (c :: l) = None.
Proof.
  intros Hc. unfold time.parseLayoutRFC3339.
  destruct l as [|? [|? [|? l]]]; try reflexivity. rewrite Hc. reflexivity.
Qed.

Lemma parseLayoutRFC3339_long_year (d1 d2 d3 d4 d5 : ascii) (l : list ascii) :
  isDigit d5 = true -> time.parseLayoutRFC3339 (d1 :: d2 :: d3 :: d4 :: d5 :: l) = None.
Proof.
  intros Hc. destruct (digit_not_sign d5 Hc) as (_ & Hm & _).
  unfold time.parseLayoutRFC3339.
  destruct (isDigit d1); [|reflexivity].
  destruct (parseDigits [d1; d2; d3; d4] 0); [|reflexivity].
  unfold time.skip at 1. rewrite Hm. reflexivity.
Qed.

Lemma daysIn_bound (m y : Z) : 28 <= time.daysIn m y <= 31.
Proof.
  unfold time.daysIn.
  repeat match goal with |- context [if ?b then _ else _] => destruct b end; lia.
Qed.

(** The strict reader on the date and clock that [Format] wrote. *)
Lemma parseRFC3339_fields (y mo d h mi s : Z) (z : ascii) (zs : list ascii) :
  0 <= y <= 9999 -> 1 <= mo <= 12 -> 1 <= d <= time.daysIn mo y ->
  0 <= h <= 23 -> 0 <= mi <= 59 -> 0 <= s <= 59 ->
  Ascii.eqb z "." = false ->
  time.parseRFC3339
    (time.appendInt y 4 ++ "-"%char :: time.appendInt mo 2
     ++ "-"%char :: time.appendInt d 2
     ++ "T"%char :: time.appendInt h 2
     ++ ":"%char :: time.appendInt mi 2
     ++ ":"%char :: time.appendInt s 2 ++ z :: zs)
  = match time.parseZone (z :: zs) with
    | Some off => Some (time.mkTime y mo d h mi s 0 off)
    | None => None
    end.
Proof.
  intros Hy Hmo Hd Hh Hmi Hs Hz.
  pose proof (daysIn_bound mo y) as Hdi.
  destruct (appendInt_4 y ltac:(lia)) as (y1 & y2 & y3 & y4 & Ey & Py).
  destruct (appendInt_2 mo ltac:(lia)) as (mo1 & mo2 & Emo & Pmo).
  destruct (appendInt_2 d ltac:(lia)) as (d1 & d2 & Ed & Pd).
  destruct (appendInt_2 h ltac:(lia)) as (h1 & h2 & Eh & Ph).
  destruct (appendInt_2 mi ltac:(lia)) as (mi1 & mi2 & Emi & Pmi).
  destruct (appendInt_2 s ltac:(lia)) as (s1 & s2 & Es & Ps).
  rewrite Ey, Emo, Ed, Eh, Emi, Es. cbn [app].
  unfold time.parseRFC3339.
  rewrite (parseUint_ok _ 0 9999 y Py), (parseUint_ok _ 1 12 mo Pmo),
    (parseUint_ok _ 1 (time.daysIn mo y) d Pd), (parseUint_ok _ 0 23 h Ph),
    (parseUint_ok _ 0 59 mi Pmi), (parseUint_ok _ 0 59 s Ps) by lia.
  cbn [andb Ascii.eqb Bool.eqb].
  destruct zs as [|f zs']; [reflexivity|].
  rewrite Hz. reflexivity.
Qed.

(** The layout reader on the same text. *)
Lemma parseLayoutRFC3339_fields (y mo d h mi s : Z) (z : ascii) (zs : list ascii) :
  0 <= y <= 9999 -> 1 <= mo <= 12 -> 1 <= d <= time.daysIn mo y ->
  0 <= h <= 23 -> 0 <= mi <= 59 -> 0 <= s <= 59 ->
  Ascii.eqb z "." = false -> Ascii.eqb z "," = false ->
  time.parseLayoutRFC3339
    (time.appendInt y 4 ++ "-"%char :: time.appendInt mo 2
     ++ "-"%char :: time.appendInt d 2
     ++ "T"%char :: time.appendInt h 2
     ++ ":"%char :: time.appendInt mi 2
     ++ ":"%char :: time.appendInt s 2 ++ z :: zs)
  = match time.parseZoneChunk (z :: zs) with
    | Some (off, []) => Some (time.mkTime y mo d h mi s 0 off)
    | _ => None
    end.
Proof.
  intros Hy Hmo Hd Hh Hmi Hs Hz Hz'.
  destruct (appendInt_4 y ltac:(lia)) as (y1 & y2 & y3 & y4 & Ey & Py).
  destruct (appendInt_2 mo ltac:(lia)) as (mo1 & mo2 & Emo & Pmo).
  pose proof (daysIn_bound mo y) as Hdi.
  destruct (appendInt_2 d ltac:(lia)) as (d1 & d2 & Ed & Pd).
  destruct (appendInt_2 h ltac:(lia)) as (h1 & h2 & Eh & Ph).
  destruct (appendInt_2 mi ltac:(lia)) as (mi1 & mi2 & Emi & Pmi).
  destruct (appendInt_2 s ltac:(lia)) as (s1 & s2 & Es & Ps).
  rewrite Ey, Emo, Ed, Eh, Emi, Es. cbn [app].
  assert (Hy1 : isDigit y1 = true).
  { cbn [parseDigits] in Py. destruct (isDigit y1); [reflexivity | discriminate]. }
  unfold time.parseLayoutRFC3339. rewrite Hy1, Py.
  cbn [time.skip Ascii.eqb Bool.eqb andb].
  rewrite (getnum_2 _ _ _ true mo Pmo).
  assert (E1 : (mo <=? 0) || (12 <? mo) = false)
    by (apply orb_false_iff; split; [apply Z.leb_gt | apply Z.ltb_ge]; lia).
  rewrite E1. cbn [time.skip Ascii.eqb Bool.eqb andb].
  rewrite (getnum_2 _ _ _ true d Pd). cbn [time.skip Ascii.eqb Bool.eqb andb].
  rewrite (getnum_2 _ _ _ false h Ph).
  assert (E2 : (h <? 0) || (24 <=? h) = false)
    by (apply orb_false_iff; split; [apply Z.ltb_ge | apply Z.leb_gt]; lia).
  rewrite E2. cbn [time.skip Ascii.eqb Bool.eqb andb].
  rewrite (getnum_2 _ _ _ true mi Pmi).
  assert (E3 : (mi <? 0) || (60 <=? mi) = false)
    by (apply orb_false_iff; split; [apply Z.ltb_ge | apply Z.leb_gt]; lia).
  rewrite E3. cbn [time.skip Ascii.eqb Bool.eqb andb].
  rewrite (getnum_2 _ _ _ true s Ps).
  assert (E4 : (s <? 0) || (60 <=? s) = false)
    by (apply orb_false_iff; split; [apply Z.ltb_ge | apply Z.leb_gt]; lia).
  rewrite E4.
  assert (E5 : (d <? 1) || (d >? time.daysIn mo y) = false)
    by (rewrite Z.gtb_ltb; apply orb_false_iff; split; apply Z.ltb_ge; lia).
  assert (Ef : time.parseFractionChunk (z :: zs) = (0, z :: zs)).
  { unfold time.parseFractionChunk. destruct zs as [|f zs']; [reflexivity|].
    rewrite Hz, Hz'. reflexivity. }
  rewrite Ef.
  destruct (time.parseZoneChunk (z :: zs)) as [[off [|c l]]|]; try reflexivity.
  rewrite E5. reflexivity.
Qed.

(** The zone that [Format] wrote, read by the strict reader (zone hour up
    to 23) and by the layout reader (zone hour up to 24). *)
Lemma parseZone_written (neg : bool) (zh zm : Z) :
  0 <= zh -> 0 <= zm <= 59 ->
  time.parseZone
    ((if neg then "-" else "+")%char :: time.appendInt zh 2
     ++ ":"%char :: time.appendInt zm 2)
  = if zh <=? 23
    then Some (if neg then - ((zh * 60 + zm) * 60) else (zh * 60 + zm) * 60)
    else None.
Proof.
  intros Hzh Hzm.
  destruct (appendInt_2 zm ltac:(lia)) as (m1 & m2 & Em & Pm). rewrite Em.
  destruct (Z_lt_le_dec zh 100) as [Hlt|Hge].
  - destruct (appendInt_2 zh ltac:(lia)) as (a & b & Eh & Ph). rewrite Eh.
    cbn [app]. unfold time.parseZone.
    rewrite (parseUint_ok _ 0 59 zm Pm) by lia.
    destruct (zh <=? 23) eqn:E.
    + apply Z.leb_le in E. rewrite (parseUint_ok _ 0 23 zh Ph) by lia.
      destruct neg; reflexivity.
    + apply Z.leb_gt in E. unfold time.parseUint. rewrite Ph.
      assert (E' : (23 <? zh) = true) by (apply Z.ltb_lt; lia).
      rewrite E', orb_true_r. reflexivity.
  - destruct (appendInt_long zh 2 ltac:(simpl; lia)) as (_ & Hlen).
    assert (E : (zh <=? 23) = false) by (apply Z.leb_gt; lia). rewrite E.
    destruct (time.appendInt zh 2) as [|a [|b [|c l]]]; simpl in Hlen; try lia.
    destruct l as [|? [|? [|? l]]]; reflexivity.
Qed.

Lemma parseZoneChunk_written (neg : bool) (zh zm : Z) :
  0 <= zh -> 0 <= zm <= 59 ->
  time.parseZoneChunk
    ((if neg then "-" else "+")%char :: time.appendInt zh 2
     ++ ":"%char :: time.appendInt zm 2)
  = if zh <=? 24
    then Some (if neg then - ((zh * 60 + zm) * 60) else (zh * 60 + zm) * 60, [])
    else None.
Proof.
  intros Hzh Hzm.
  destruct (appendInt_2 zm ltac:(lia)) as (m1 & m2 & Em & Pm). rewrite Em.
  assert (Hsg : Ascii.eqb (if neg then "-" else "+")%char "Z" = false)
    by (destruct neg; reflexivity).
  destruct (Z_lt_le_dec zh 100) as [Hlt|Hge].
  - destruct (appendInt_2 zh ltac:(lia)) as (a & b & Eh & Ph). rewrite Eh.
    cbn [app]. unfold time.parseZoneChunk. rewrite Hsg.
    rewrite (getnum_2 _ _ _ true zh Ph), (getnum_2 _ _ _ true zm Pm).
    cbn [Ascii.eqb Bool.eqb andb].
    assert (E' : (zm >? 60) = false) by (rewrite Z.gtb_ltb; apply Z.ltb_ge; lia).
    rewrite E', orb_false_r, Z.gtb_ltb.
    destruct (zh <=? 24) eqn:E.
    + apply Z.leb_le in E.
      assert (E2 : (24 <? zh) = false) by (apply Z.ltb_ge; lia). rewrite E2.
      destruct neg; reflexivity.
    + apply Z.leb_gt in E.
      assert (E2 : (24 <? zh) = true) by (apply Z.ltb_lt; lia). rewrite E2.
      reflexivity.
  - destruct (appendInt_long zh 2 ltac:(simpl; lia)) as (Hall & Hlen).
    assert (E : (zh <=? 24) = false) by (apply Z.leb_gt; lia). rewrite E.
    destruct (time.appendInt zh 2) as [|a [|b [|c l]]]; simpl in Hlen; try lia.
    rewrite !Forall_cons in Hall. destruct Hall as (_ & _ & Hc & _).
    apply digit_not_colon in Hc.
    unfold time.parseZoneChunk. rewrite Hsg.
    destruct l as [|? [|? l]]; cbn [app]; rewrite Hc; reflexivity.
Qed.

(** What [Parse] makes of the text that [Format] wrote, for every instant:
    the instant to the whole second, with the zone offset cut to whole
    minutes, when the year has four digits and the zone offset is under 25
    hours; an error otherwise. *)
Lemma ParseRFC3339_FormatRFC3339_civil (t : time.Time) :
  civilFields t = true ->
  time.ParseRFC3339 (time.FormatRFC3339 t)
  = if readableRFC3339 t then Some (carriedByRFC3339 t) else None.
Proof.
  unfold civilFields. rewrite !andb_true_iff.
  intros (((((((((Hm0 & Hm1) & Hd0) & Hd1) & Hh0) & Hh1) & Hi0) & Hi1) & Hs0) & Hs1).
  destruct t as [y mo d h mi s ns off]. simpl in *.
  apply Z.leb_le in Hm0, Hm1, Hd0, Hd1, Hh0, Hh1, Hi0, Hi1, Hs0, Hs1.
  unfold time.FormatRFC3339, time.ParseRFC3339, readableRFC3339, carriedByRFC3339.
  cbn [time.year time.month time.day time.hour time.minute time.second
       time.zoneOffset].
  cbv zeta. rewrite list_ascii_of_string_of_list_ascii.
  destruct (Z_lt_le_dec y 0) as [Hneg|Hy0].
  { destruct (appendInt_negative y 4 Hneg) as (l & El). rewrite El. cbn [app].
    rewrite parseRFC3339_not_digit, parseLayoutRFC3339_not_digit by reflexivity.
    assert (E : (0 <=? y) = false) by (apply Z.leb_gt; lia). rewrite E. reflexivity. }
  destruct (Z_lt_le_dec 9999 y) as [Hbig|Hy1].
  { destruct (appendInt_long y 4 ltac:(simpl; lia)) as (Hall & Hlen).
    destruct (time.appendInt y 4) as [|d1 [|d2 [|d3 [|d4 [|d5 l]]]]];
      simpl in Hlen; try lia.
    rewrite !Forall_cons in Hall. destruct Hall as (_ & _ & _ & _ & H5 & _).
    cbn [app].
    rewrite parseRFC3339_long_year, parseLayoutRFC3339_long_year by exact H5.
    assert (E : (y <=? 9999) = false) by (apply Z.leb_gt; lia).
    rewrite E, andb_false_r. reflexivity. }
  assert (Ey0 : (0 <=? y) = true) by (apply Z.leb_le; lia).
  assert (Ey1 : (y <=? 9999) = true) by (apply Z.leb_le; lia).
  rewrite Ey0, Ey1. cbn [andb].
  destruct (off =? 0) eqn:Eoff.
  { apply Z.eqb_eq in Eoff. subst off.
    rewrite parseRFC3339_fields by (auto; lia). reflexivity. }
  apply Z.eqb_neq in Eoff.
  set (zone := Z.quot off 60).
  set (az := Z.abs zone).
  assert (Haz : 0 <= az) by (subst az; lia).
  pose proof (Z.quot_rem' off 60) as Hoff. fold zone in Hoff.
  pose proof (Z.quot_rem' az 60) as Hazq.
  assert (Hzm : 0 <= Z.rem az 60 < 60) by (apply Z.rem_bound_pos; lia).
  assert (Hzh : 0 <= Z.quot az 60) by (apply Z.quot_pos; lia).
  assert (Hro : Z.abs (Z.rem off 60) < 60) by (apply Z.rem_bound_abs; lia).
  assert (Hsgn : 0 <= Z.rem off 60 * off) by (apply Z.rem_sign_mul; lia).
  assert (Hsg : forall b : bool, Ascii.eqb (if b then "-" else "+")%char "." = false
                                 /\ Ascii.eqb (if b then "-" else "+")%char "," = false)
    by (intros []; split; reflexivity).
  assert (Hval : (if zone <? 0
                  then - ((Z.quot az 60 * 60 + Z.rem az 60) * 60)
                  else (Z.quot az 60 * 60 + Z.rem az 60) * 60) = zone * 60).
  { destruct (zone <? 0) eqn:En;
      [apply Z.ltb_lt in En | apply Z.ltb_ge in En]; subst az; lia. }
  rewrite parseRFC3339_fields by (try apply Hsg; lia).
  rewrite parseZone_written by lia.
  destruct (Z.quot az 60 <=? 23) eqn:E23.
  { apply Z.leb_le in E23. rewrite Hval.
    assert (E1 : (-90000 <? off) = true) by (apply Z.ltb_lt; subst az; nia).
    assert (E2 : (off <? 90000) = true) by (apply Z.ltb_lt; subst az; nia).
    rewrite E1, E2. reflexivity. }
  apply Z.leb_gt in E23.
  rewrite parseLayoutRFC3339_fields by (try apply Hsg; lia).
  rewrite parseZoneChunk_written by lia.
  destruct (Z.quot az 60 <=? 24) eqn:E24.
  - apply Z.leb_le in E24. rewrite Hval.
    assert (E1 : (-90000 <? off) = true) by (apply Z.ltb_lt; subst az; nia).
    assert (E2 : (off <? 90000) = true) by (apply Z.ltb_lt; subst az; nia).
    rewrite E1, E2. reflexivity.
  - apply Z.leb_gt in E24.
    assert (E : (-90000 <? off) && (off <? 90000) = false).
    { apply andb_false_iff.
      destruct (Z_lt_le_dec off 0);
        [left; apply Z.ltb_ge | right; apply Z.ltb_ge]; subst az; nia. }
    rewrite E. reflexivity.
Qed.

Lemma ParseRFC3339_FormatRFC3339 (t : time.Time) :
  fitsRFC3339 t = true -> time.ParseRFC3339 (time.FormatRFC3339 t) = Some t.
Proof.
  unfold fitsRFC3339. rewrite !andb_true_iff. intros (((Hc & Hr) & Hn) & Hz).
  rewrite (ParseRFC3339_FormatRFC3339_civil t Hc), Hr.
  apply Z.eqb_eq in Hn, Hz. destruct t as [y mo d h mi s ns off]. simpl in *.
  unfold carriedByRFC3339. simpl. subst ns. do 2 f_equal.
  pose proof (Z.quot_rem' off 60). lia.
Qed.

(** ** decimal: reading back what [String] wrote *)

Lemma parseDigits_zeros_after (k : nat) (w : Z) :
  parseDigits (repeat "0"%char k) w = Some (w * 10 ^ Z.of_nat k).
Proof.
  revert w. induction k as [|k IH]; intros w.
  - simpl. f_equal. lia.
  - change (parseDigits (repeat "0"%char (S k)) w)
      with (parseDigits (repeat "0"%char k) (w * 10 + 0)).
    rewrite IH. f_equal.
    replace (Z.of_nat (S k)) with (1 + Z.of_nat k) by lia.
    rewrite Z.pow_add_r by lia. lia.
Qed.

Lemma trimTrailingZeros_spec (cs : list ascii) :
  exists k, cs = decimal.trimTrailingZeros cs ++ repeat "0"%char k.
Proof.
  induction cs as [|c cs [k IH]]; simpl.
  - exists 0%nat. reflexivity.
  - destruct (decimal.trimTrailingZeros cs) as [|x r] eqn:E.
    + destruct (Ascii.eqb c "0") eqn:Ec.
      * apply Ascii.eqb_eq in Ec. subst c. exists (S k). simpl in *. congruence.
      * exists k. simpl in *. congruence.
    + exists k. rewrite IH at 1. reflexivity.
Qed.

Lemma splitAtE_none (cs : list ascii) :
  Forall (fun c => Ascii.eqb c "E" || Ascii.eqb c "e" = false) cs ->
  decimal.splitAtE cs = (cs, None).
Proof.
  induction 1 as [|c cs Hc _ IH]; simpl; [reflexivity|]. rewrite Hc, IH. reflexivity.
Qed.

Lemma splitAtDot_none (cs : list ascii) :
  Forall (fun c => Ascii.eqb c "." = false) cs ->
  decimal.splitAtDot cs = (cs, None).
Proof.
  induction 1 as [|c cs Hc _ IH]; simpl; [reflexivity|]. rewrite Hc, IH. reflexivity.
Qed.

Lemma splitAtDot_at (a b : list ascii) :
  Forall (fun c => Ascii.eqb c "." = false) a ->
  decimal.splitAtDot (a ++ "."%char :: b) = (a, Some b).
Proof.
  induction 1 as [|c cs Hc _ IH]; simpl; [reflexivity|]. rewrite Hc, IH. reflexivity.
Qed.

Lemma digits_no_dot (ds : list ascii) :
  Forall (fun c => isDigit c = true) ds -> Forall (fun c => Ascii.eqb c "." = false) ds.
Proof.
  intros H. eapply Forall_impl; [exact H|]. intros c Hc. apply (digit_not_sign c Hc).
Qed.

Lemma digits_no_E (ds : list ascii) :
  Forall (fun c => isDigit c = true) ds ->
  Forall (fun c => Ascii.eqb c "E" || Ascii.eqb c "e" = false) ds.
Proof.
  intros H. eapply Forall_impl; [exact H|]. intros c Hc. simpl.
  destruct (digit_not_sign c Hc) as (_ & _ & _ & -> & ->). reflexivity.
Qed.

Lemma hasDot_digits (ds : list ascii) :
  Forall (fun c => isDigit c = true) ds -> decimal.hasDot ds = false.
Proof.
  intros H. apply digits_no_dot in H. unfold decimal.hasDot.
  induction H as [|c cs Hc _ IH]; simpl; [reflexivity|]. rewrite Hc, IH. reflexivity.
Qed.

Lemma SetString_numeral (ds : list ascii) (neg : bool) (r : Z) :
  ds <> [] -> Forall (fun c => isDigit c = true) ds ->
  parseDigits ds 0 = Some r ->
  decimal.SetString (if neg then "-"%char :: ds else ds) = Some (if neg then - r else r).
Proof.
  intros Hne Hall Hp. destruct ds as [|c ds]; [contradiction|].
  pose proof (Forall_inv Hall) as Hc. destruct (digit_not_sign c Hc) as (Hplus & Hminus & _).
  destruct neg; unfold decimal.SetString.
  - simpl Ascii.eqb. cbv iota. rewrite Hp. reflexivity.
  - rewrite Hplus, Hminus, Hp. reflexivity.
Qed.

(** The text of a decimal number: a sign, the integer digits and, after a
    point, the fraction digits are read as the digits' number with the
    fraction's length as negated exponent. *)
Lemma NewFromString_numeral (neg : bool) (intPart frac : list ascii) (w : Z) :
  intPart <> [] ->
  Forall (fun c => isDigit c = true) intPart ->
  Forall (fun c => isDigit c = true) frac ->
  parseDigits (intPart ++ frac) 0 = Some w ->
  decimal.MinInt32 <= - Z.of_nat (length frac) ->
  let number := match frac with
                | [] => intPart
                | _ => intPart ++ "."%char :: frac
                end in
  decimal.NewFromString
    (string_of_list_ascii (if neg then "-"%char :: number else number))
  = Some (decimal.mkDecimal (if neg then - w else w) (- Z.of_nat (length frac))).
Proof.
  intros Hne Hi Hf Hp Hmin number.
  set (sign := if neg then ["-"%char] else []).
  assert (Hsign : forall l, (if neg then "-"%char :: l else l) = sign ++ l)
    by (intros l; subst sign; destruct neg; reflexivity).
  assert (HsE : Forall (fun c => Ascii.eqb c "E" || Ascii.eqb c "e" = false) sign)
    by (subst sign; destruct neg; repeat constructor).
  assert (HsD : Forall (fun c => Ascii.eqb c "." = false) sign)
    by (subst sign; destruct neg; repeat constructor).
  assert (Hnum : forall l, l = intPart ++ frac ->
            (if (length (sign ++ l) <=? 18)%nat
             then match strconv.ParseInt (sign ++ l) 64 with
                  | (parsed64, None) => Some parsed64
                  | (_, Some _) => None
                  end
             else decimal.SetString (sign ++ l)) = Some (if neg then - w else w)).
  { intros l ->. rewrite <- Hsign.
    assert (Hall : Forall (fun c => isDigit c = true) (intPart ++ frac))
      by (apply Forall_app; auto).
    assert (Hne' : intPart ++ frac <> []) by (destruct intPart; [contradiction | discriminate]).
    destruct (length (if neg then "-"%char :: intPart ++ frac else intPart ++ frac) <=? 18)%nat
      eqn:E.
    - apply Nat.leb_le in E.
      destruct (parseDigits_value (intPart ++ frac) 0 Hall) as (r & Hr & Hb & _).
      assert (r = w) by congruence. subst r.
      assert (Hlen : (length (intPart ++ frac) <= 18)%nat) by (destruct neg; simpl in E; lia).
      assert (Hw : w < 10 ^ 18).
      { eapply Z.lt_le_trans; [apply Hb|]. apply Z.pow_le_mono_r; lia. }
      rewrite (ParseInt_numeral _ neg 64 w Hne' Hall Hp); [reflexivity | auto |].
      simpl. destruct neg; lia.
    - apply SetString_numeral; auto. }
  unfold decimal.NewFromString. rewrite list_ascii_of_string_of_list_ascii, Hsign.
  subst number. destruct frac as [|f frac'].
  - rewrite app_nil_r in *.
    rewrite splitAtE_none by (apply Forall_app; split; [exact HsE | apply digits_no_E; exact Hi]).
    rewrite splitAtDot_none
      by (apply Forall_app; split; [exact HsD | apply digits_no_dot; exact Hi]).
    simpl mbind. cbn [option_bind]. simpl.
    rewrite (Hnum intPart eq_refl). simpl. reflexivity.
  - set (frac := f :: frac') in *.
    rewrite splitAtE_none.
    2:{ apply Forall_app; split; [exact HsE|]. apply Forall_app; split.
        - apply digits_no_E; exact Hi.
        - constructor; [reflexivity | apply digits_no_E; exact Hf]. }
    rewrite app_assoc, splitAtDot_at
      by (apply Forall_app; split; [exact HsD | apply digits_no_dot; exact Hi]).
    rewrite (hasDot_digits frac Hf). simpl.
    rewrite <- app_assoc, (Hnum _ eq_refl). simpl.
    unfold decimal.MinInt32, decimal.MaxInt32 in *.
    subst frac. simpl length in Hmin.
    assert (E1 : (0 - Z.of_nat (S (length frac')) <? - 2 ^ 31) = false)
      by (apply Z.ltb_ge; lia).
    assert (E2 : (0 - Z.of_nat (S (length frac')) >? 2 ^ 31 - 1) = false)
      by (rewrite Z.gtb_ltb; apply Z.ltb_ge; lia).
    rewrite E1, E2. simpl. reflexivity.
Qed.

Lemma Cmp_same_number (v e v' e' : Z) :
  e <= e' -> v' * 10 ^ (e' - e) = v ->
  decimal.Equal (decimal.mkDecimal v' e') (decimal.mkDecimal v e) = true.
Proof.
  intros Hle Hv. unfold decimal.Equal, decimal.Cmp, decimal.RescalePair, decimal.rescaleDown.
  simpl. destruct (e' =? e) eqn:E.
  - apply Z.eqb_eq in E. subst e'. rewrite Z.sub_diag, Z.pow_0_r, Z.mul_1_r in Hv.
    subst v'. rewrite Z.compare_refl. reflexivity.
  - apply Z.eqb_neq in E.
    assert (E1 : (e' <? e) = false) by (apply Z.ltb_ge; lia).
    assert (E2 : (e' >? e) = true) by (rewrite Z.gtb_ltb; apply Z.ltb_lt; lia).
    rewrite E1, E2. simpl. rewrite Hv, Z.compare_refl. reflexivity.
Qed.

Lemma NewFromString_String (d : decimal.Decimal) :
  decimal.MinInt32 <= decimal.exp d <= decimal.MaxInt32 ->
  exists d', decimal.NewFromString (decimal.String d) = Some d'
             /\ decimal.Equal d' d = true.
Proof.
  destruct d as [v e]. simpl. intros He. unfold decimal.String. simpl decimal.exp.
  simpl decimal.value.
  destruct (e >=? 0) eqn:Ee.
  - (* an integer: the digits of the rescaled value *)
    rewrite Z.geb_leb in Ee. apply Z.leb_le in Ee.
    set (v' := decimal.value (decimal.rescaleDown (decimal.mkDecimal v e) 0)).
    assert (Hv' : v' = v * 10 ^ e).
    { subst v'. unfold decimal.rescaleDown. simpl. destruct (e =? 0) eqn:E0; simpl.
      - apply Z.eqb_eq in E0. subst e. lia.
      - rewrite Z.sub_0_r. reflexivity. }
    exists (decimal.mkDecimal v' 0). split.
    + destruct (v' <? 0) eqn:En.
      * apply Z.ltb_lt in En.
        destruct (formatNat_spec (- v') ltac:(lia)) as (Hne & Hall & Hval).
        pose proof (NewFromString_numeral true (formatNat (- v')) [] (- v') Hne Hall
                      (Forall_nil_2 _)) as H.
        rewrite app_nil_r in H.
        specialize (H Hval ltac:(unfold decimal.MinInt32; simpl; lia)).
        cbv zeta in H. rewrite H. simpl. do 2 f_equal. lia.
      * apply Z.ltb_ge in En.
        destruct (formatNat_spec v' ltac:(lia)) as (Hne & Hall & Hval).
        pose proof (NewFromString_numeral false (formatNat v') [] v' Hne Hall
                      (Forall_nil_2 _)) as H.
        rewrite app_nil_r in H.
        specialize (H Hval ltac:(unfold decimal.MinInt32; simpl; lia)).
        cbv zeta in H. rewrite H. reflexivity.
    + unfold decimal.Equal, decimal.Cmp, decimal.RescalePair. simpl decimal.exp.
      simpl decimal.value at 1.
      destruct (0 =? e) eqn:E0.
      * apply Z.eqb_eq in E0. subst e. rewrite Hv'. simpl.
        rewrite Z.mul_1_r, Z.compare_refl. reflexivity.
      * apply Z.eqb_neq in E0.
        assert (E1 : (0 <? e) = true) by (apply Z.ltb_lt; lia).
        rewrite E1. fold v'. rewrite Z.compare_refl. reflexivity.
  - (* a fraction of [n] digits *)
    rewrite Z.geb_leb in Ee. apply Z.leb_gt in Ee.
    set (str := formatNat (Z.abs v)).
    set (n := Z.to_nat (- e)).
    destruct (formatNat_spec (Z.abs v) ltac:(lia)) as (Hne & Hall & Hval).
    fold str in Hne, Hall, Hval.
    assert (Hparts : exists intPart frac,
               (if (n <? length str)%nat
                then (firstn (length str - n) str, skipn (length str - n) str)
                else (["0"%char], repeat "0"%char (n - length str) ++ str))
               = (intPart, frac)
               /\ intPart <> [] /\ Forall (fun c => isDigit c = true) intPart
               /\ Forall (fun c => isDigit c = true) frac
               /\ parseDigits (intPart ++ frac) 0 = Some (Z.abs v)
               /\ length frac = n).
    { destruct (n <? length str)%nat eqn:En.
      - apply Nat.ltb_lt in En.
        exists (firstn (length str - n) str), (skipn (length str - n) str).
        split; [reflexivity|]. split.
        { intros H. apply (f_equal (@length ascii)) in H.
          rewrite length_take in H. simpl in H. lia. }
        split; [apply Forall_take; exact Hall|].
        split; [apply Forall_drop; exact Hall|].
        rewrite take_drop. split; [exact Hval|]. rewrite length_drop. lia.
      - apply Nat.ltb_ge in En.
        exists ["0"%char], (repeat "0"%char (n - length str) ++ str).
        split; [reflexivity|]. split; [discriminate|].
        split; [repeat constructor|].
        split; [apply Forall_app; split; [apply Forall_digits_zeros | exact Hall]|].
        split.
        + change (["0"%char] ++ repeat "0"%char (n - length str) ++ str)
            with (repeat "0"%char (S (n - length str)) ++ str).
          rewrite parseDigits_zeros. exact Hval.
        + rewrite length_app, repeat_length. lia. }
    destruct Hparts as (intPart & frac & -> & Hine & Hi & Hf & Hp & Hlen).
    destruct (trimTrailingZeros_spec frac) as (k & Hk).
    set (frac' := decimal.trimTrailingZeros frac) in *.
    assert (Hf' : Forall (fun c => isDigit c = true) frac').
    { rewrite Hk in Hf. apply Forall_app in Hf. tauto. }
    assert (Hall' : Forall (fun c => isDigit c = true) (intPart ++ frac'))
      by (apply Forall_app; auto).
    destruct (parseDigits_value (intPart ++ frac') 0 Hall') as (w & Hw & Hwb & _).
    assert (Habs : Z.abs v = w * 10 ^ Z.of_nat k).
    { rewrite Hk, app_assoc, parseDigits_app, Hw, parseDigits_zeros_after in Hp.
      congruence. }
    assert (Hlen' : (length frac' + k = n)%nat).
    { rewrite <- Hlen, Hk at 1. rewrite length_app, repeat_length. reflexivity. }
    assert (Hn : Z.of_nat n = - e) by (subst n; lia).
    exists (decimal.mkDecimal (if v <? 0 then - w else w) (- Z.of_nat (length frac'))).
    split.
    + apply (NewFromString_numeral (v <? 0) intPart frac' w); auto.
      unfold decimal.MinInt32 in *. lia.
    + apply Cmp_same_number; [lia|].
      replace (- Z.of_nat (length frac') - e) with (Z.of_nat k) by lia.
      destruct (v <? 0) eqn:En; [apply Z.ltb_lt in En | apply Z.ltb_ge in En]; lia.
Qed.

(** ** The textual round trip of a cell *)

(** C7 as stated fails for Timestamp cells: the layout has no fraction of a
    second, so a cell holding one nanosecond past 13:04:05 prints as
    13:04:05, reads back as 13:04:05 sharp, and is not equal to what it
    was.  Nor has the layout the seconds of a zone offset: a cell in a zone
    of 1 h 0 min 1 s east prints the zone as +01:00 and reads back as an
    instant one second off. *)
Lemma round_trip_drops_nanoseconds :
  let t := mkTimeField (time.mkTime 2024 2 29 13 4 5 1 0) FieldKeyNil in
  let u := mkTimeField (time.mkTime 2024 2 29 13 4 5 0 3601) FieldKeyNil in
  TimeField_ToString t = "2024-02-29T13:04:05Z"%string
  /\ TimeField_FromString t (TimeField_ToString t)
     = mkTimeField (time.mkTime 2024 2 29 13 4 5 0 0) FieldKeyNil
  /\ Field_Equal (Field_FromString (FTime t) (Field_ToString (FTime t))) (Some (FTime t))
     = false
  /\ TimeField_ToString u = "2024-02-29T13:04:05+01:00"%string
  /\ TimeField_FromString u (TimeField_ToString u)
     = mkTimeField (time.mkTime 2024 2 29 13 4 5 0 3600) FieldKeyNil
  /\ Field_Equal (Field_FromString (FTime u) (Field_ToString (FTime u))) (Some (FTime u))
     = false.
Proof. cbv zeta. repeat split; vm_compute; reflexivity. Qed.

(** The instant that the layout carries is the instant itself exactly when
    there is no fraction of a second and the zone offset has whole
    minutes. *)
Lemma Equal_carriedByRFC3339 (t : time.Time) :
  time.Equal (carriedByRFC3339 t) t
  = (time.nanosecond t =? 0) && (Z.rem (time.zoneOffset t) 60 =? 0).
Proof.
  destruct t as [y mo d h mi s ns off].
  unfold time.Equal, time.absSeconds, carriedByRFC3339.
  cbn [time.year time.month time.day time.hour time.minute time.second
       time.nanosecond time.zoneOffset].
  pose proof (Z.quot_rem' off 60) as Hoff.
  rewrite (Z.eqb_sym 0 ns), andb_comm. f_equal.
  destruct (Z.rem off 60 =? 0) eqn:E.
  - apply Z.eqb_eq in E. apply Z.eqb_eq. lia.
  - apply Z.eqb_neq in E. apply Z.eqb_neq. lia.
Qed.

Lemma time_Equal_refl (t : time.Time) : time.Equal t t = true.
Proof. unfold time.Equal. rewrite !Z.eqb_refl. reflexivity. Qed.

(** C7, amended.  (1) For a Text, Decimal, Integer or Boolean cell holding
    any value of its type, and for a Timestamp cell whose value has no
    fraction of a second and a zone offset of whole minutes, with a year
    from 0 to 9999 and an offset under 25 hours, the text of the cell reads
    back as an equal value: [FromString] of [cell.ToString()] leaves the
    cell itself, and any other cell of the variant, holding a value equal
    to the original.  (2) For every Timestamp cell, the text carries the
    date and clock to the whole second and the zone offset cut to whole
    minutes; [FromString] stores that instant when the year is from 0 to
    9999 and the offset under 25 hours, and otherwise keeps the receiving
    cell as it was, for the text does not parse.  (3) Hence
    [cell.FromString(cell.ToString())] leaves a Timestamp cell holding a
    value equal to the original exactly when the value has no fraction of a
    second and a zone offset of whole minutes, or its text does not
    parse. *)
Theorem FromString_ToString_round_trip :
  (forall f g : Field,
      roundTripValue f = true -> Field_Type g = Field_Type f ->
      Field_Equal (Field_FromString g (Field_ToString f)) (Some f) = true)
  /\ (forall s g : TimeField,
        civilFields (TimeField_ValueField s) = true ->
        TimeField_FromString g (TimeField_ToString s)
        = if readableRFC3339 (TimeField_ValueField s)
          then mkTimeField (carriedByRFC3339 (TimeField_ValueField s))
                 (TimeField_KeyField g)
          else g)
  /\ (forall s : TimeField,
        civilFields (TimeField_ValueField s) = true ->
        Field_Equal (Field_FromString (FTime s) (Field_ToString (FTime s)))
          (Some (FTime s))
        = negb (readableRFC3339 (TimeField_ValueField s))
          || ((time.nanosecond (TimeField_ValueField s) =? 0)
              && (Z.rem (time.zoneOffset (TimeField_ValueField s)) 60 =? 0))).
Proof.
  assert (Hread : forall s g : TimeField,
             civilFields (TimeField_ValueField s) = true ->
             TimeField_FromString g (TimeField_ToString s)
             = if readableRFC3339 (TimeField_ValueField s)
               then mkTimeField (carriedByRFC3339 (TimeField_ValueField s))
                      (TimeField_KeyField g)
               else g).
  { intros s g Hc. unfold TimeField_FromString, TimeField_ToString.
    rewrite (ParseRFC3339_FormatRFC3339_civil _ Hc).
    destruct (readableRFC3339 (TimeField_ValueField s)); reflexivity. }
  split; [|split; [exact Hread|]].
  - intros f g Hv Hty.
    destruct f as [s|s|s|s|s|s]; destruct g as [g|g|g|g|g|g]; try discriminate;
      simpl in Hv |- *.
    + unfold StringField_Equal. simpl. apply String.eqb_refl.
    + unfold TimeField_FromString, TimeField_ToString.
      rewrite (ParseRFC3339_FormatRFC3339 _ Hv).
      unfold TimeField_Equal. simpl. apply time_Equal_refl.
    + apply andb_true_iff in Hv. destruct Hv as [H1 H2].
      apply Z.leb_le in H1, H2.
      destruct (NewFromString_String (DecimalField_ValueField s) (conj H1 H2))
        as (d' & Hd' & Heq).
      unfold DecimalField_FromString, DecimalField_ToString. rewrite Hd'.
      unfold DecimalField_Equal. simpl. exact Heq.
    + apply andb_true_iff in Hv. destruct Hv as [H1 H2].
      apply Z.leb_le in H1, H2.
      unfold IntegerField_FromString, IntegerField_ToString.
      rewrite (Atoi_Itoa _ (conj H1 H2)).
      unfold IntegerField_Equal. simpl. apply Z.eqb_refl.
    + unfold BoolField_FromString, BoolField_ToString, BoolField_Equal.
      destruct s as [[|] k st]; reflexivity.
  - intros s Hc. simpl. rewrite (Hread s s Hc).
    destruct (readableRFC3339 (TimeField_ValueField s)); unfold TimeField_Equal; simpl.
    + apply Equal_carriedByRFC3339.
    + apply time_Equal_refl.
Qed.

Lemma FromString_ToString_round_trip_witness :
  let d := FDecimal (mkDecimalField (decimal.mkDecimal (-12340) (-3)) FieldKeyNil) in
  let z := FDecimal (mkDecimalField decimal.Zero (NewDefaultFieldKey "Price")) in
  let t := mkTimeField (time.mkTime 2024 2 29 13 4 5 0 (-16200)) FieldKeyNil in
  let late := mkTimeField (time.mkTime 10000 2 29 13 4 5 1 0) FieldKeyNil in
  let fresh := mkTimeField time.Zero (NewDefaultFieldKey "At") in
  Field_ToString d = "-12.34"%string
  /\ Field_Equal (Field_FromString d (Field_ToString d)) (Some d) = true
  /\ Field_Equal (Field_FromString z (Field_ToString d)) (Some d) = true
  /\ TimeField_ToString t = "2024-02-29T13:04:05-04:30"%string
  /\ Field_Equal (Field_FromString (FTime fresh) (Field_ToString (FTime t)))
       (Some (FTime t)) = true
  /\ TimeField_ToString late = "10000-02-29T13:04:05Z"%string
  /\ TimeField_FromString fresh (TimeField_ToString late) = fresh
  /\ Field_Equal (Field_FromString (FTime late) (Field_ToString (FTime late)))
       (Some (FTime late)) = true.
Proof.
  cbv zeta. split; [reflexivity|]. split.
  { apply (proj1 FromString_ToString_round_trip
             (FDecimal (mkDecimalField (decimal.mkDecimal (-12340) (-3)) FieldKeyNil))
             (FDecimal (mkDecimalField (decimal.mkDecimal (-12340) (-3)) FieldKeyNil)));
      reflexivity. }
  split.
  { apply (proj1 FromString_ToString_round_trip
             (FDecimal (mkDecimalField (decimal.mkDecimal (-12340) (-3)) FieldKeyNil))
             (FDecimal (mkDecimalField decimal.Zero (NewDefaultFieldKey "Price"))));
      reflexivity. }
  split; [reflexivity|]. split.
  { apply (proj1 FromString_ToString_round_trip
             (FTime (mkTimeField (time.mkTime 2024 2 29 13 4 5 0 (-16200)) FieldKeyNil))
             (FTime (mkTimeField time.Zero (NewDefaultFieldKey "At"))));
      reflexivity. }
  split; [reflexivity|]. split.
  { exact (proj1 (proj2 FromString_ToString_round_trip)
             (mkTimeField (time.mkTime 10000 2 29 13 4 5 1 0) FieldKeyNil)
             (mkTimeField time.Zero (NewDefaultFieldKey "At")) eq_refl). }
  exact (proj2 (proj2 FromString_ToString_round_trip)
           (mkTimeField (time.mkTime 10000 2 29 13 4 5 1 0) FieldKeyNil) eq_refl).
Defined.

(** ** The worked cases of the specification *)

(** A comparison with nil is false for every cell. *)
Lemma Field_compare_nil (f : Field) :
  Field_Equal f None = false
  /\ Field_LessThan f None = false
  /\ Field_GreaterThan f None = false.
Proof. destruct f; repeat split. Qed.

(** The ring [A -> B -> C]: the two steps on ["go"], the refusal of
    ["stop"], and a current value that no state carries. *)
Example machineABC_runs :
  let order := map_to_list (ValueCache machineABC) in
  ProcessInMachine machineABC order (Some "A"%string) "go"%string BasicEquals
  = (Some "B"%string, None)
  /\ ProcessInMachine machineABC order (Some "B"%string) "go"%string BasicEquals
     = (Some "C"%string, None)
  /\ ProcessInMachine machineABC order (Some "A"%string) "stop"%string BasicEquals
     = (None, Some (New "no valid transitions available"))
  /\ ProcessInMachine machineABC order (Some "Z"%string) "go"%string BasicEquals
     = (None, Some (New "id does not exist in machine")).
Proof. cbv zeta. repeat split; vm_compute; reflexivity. Qed.

(** The conditional ring: a gate whose guard rejects the data leaves the
    state without a valid transition, although the outcome is listed. *)
Example cmachineABC_runs :
  let order := map_to_list (ValueCache cmachineABC) in
  ConditionalStateMachine_ProcessInMachine cmachineABC order (Some "A"%string)
    "go"%string BasicEquals
  = (Some "B"%string, None)
  /\ ConditionalStateMachine_ProcessInMachine cmachineABC order (Some "A"%string)
       "stop"%string BasicEquals
     = (None, Some (New "no valid transitions available")).
Proof. cbv zeta. repeat split; vm_compute; reflexivity. Qed.

(** A gate with one prerequisite, candidate for the value ["X"] only, whose
    single question always rejects. *)
Example gate_rejects_matched_value :
  let gate := Conditions [mkPrerequisite (fun v => String.eqb v "X")
                            [fun _ => EnforceableFalse]] in
  Meets gate "X"%string = false /\ Meets gate "Y"%string = true.
Proof. cbv zeta. split; reflexivity. Qed.

(** A numeral beyond the range of [int] is not a syntax error: [Atoi]
    returns the nearest bound next to its range error, and the
    unconditional assignment in [IntegerField.FromString] stores it. *)
Example IntegerField_FromString_out_of_range :
  IntegerField_FromString (mkIntegerField 7 FieldKeyNil) "9223372036854775808"
  = mkIntegerField 9223372036854775807 FieldKeyNil.
Proof. vm_compute. reflexivity. Qed.

(** * Further properties of the code *)

(** ** The algebra of the comparisons *)

Lemma string_compare_refl (s : string) : String.compare s s = Eq.
Proof.
  pose proof (String.compare_antisym s s) as H.
  destruct (String.compare s s); simpl in H; congruence.
Qed.

Lemma string_trichotomy (s1 s2 : string) :
  exactlyOne (String.ltb s1 s2) (String.eqb s1 s2) (String.ltb s2 s1).
Proof.
  unfold exactlyOne, String.ltb.
  pose proof (String.compare_antisym s1 s2) as Ha.
  destruct (String.eqb_spec s1 s2) as [->|Hne].
  - rewrite string_compare_refl. auto.
  - destruct (String.compare s2 s1) eqn:E; simpl in Ha; rewrite Ha; auto.
    apply String.compare_eq_iff in E. congruence.
Qed.

Lemma FieldKey_eqb_eq (k1 k2 : FieldKey) : FieldKey_eqb k1 k2 = true <-> k1 = k2.
Proof.
  destruct k1 as [n1 t1], k2 as [n2 t2]. unfold FieldKey_eqb. simpl.
  rewrite andb_true_iff, !String.eqb_eq. split.
  - intros [-> ->]. reflexivity.
  - intros H. inversion H. auto.
Qed.

Lemma decimal_Cmp_antisym (d d2 : decimal.Decimal) :
  decimal.Cmp d2 d = CompOpp (decimal.Cmp d d2).
Proof.
  unfold decimal.Cmp, decimal.RescalePair. rewrite (Z.eqb_sym (decimal.exp d2)).
  destruct (decimal.exp d =? decimal.exp d2) eqn:E; [apply Z.compare_antisym|].
  apply Z.eqb_neq in E. rewrite !Z.gtb_ltb.
  destruct (decimal.exp d <? decimal.exp d2) eqn:E1.
  - apply Z.ltb_lt in E1.
    assert (E2 : (decimal.exp d2 <? decimal.exp d) = false) by (apply Z.ltb_ge; lia).
    rewrite E2. apply Z.compare_antisym.
  - apply Z.ltb_ge in E1.
    assert (E2 : (decimal.exp d2 <? decimal.exp d) = true) by (apply Z.ltb_lt; lia).
    rewrite E2. apply Z.compare_antisym.
Qed.

Lemma decimal_Cmp_refl (d : decimal.Decimal) : decimal.Cmp d d = Eq.
Proof. unfold decimal.Cmp. rewrite Z.eqb_refl. apply Z.compare_refl. Qed.

Lemma decimal_trichotomy (d d2 : decimal.Decimal) :
  exactlyOne (decimal.LessThan d d2) (decimal.Equal d d2) (decimal.GreaterThan d d2).
Proof.
  unfold exactlyOne, decimal.LessThan, decimal.Equal, decimal.GreaterThan.
  destruct (decimal.Cmp d d2); auto.
Qed.

Lemma time_trichotomy (t u : time.Time) :
  exactlyOne (time.Before t u) (time.Equal t u) (time.After t u).
Proof.
  unfold exactlyOne, time.Before, time.Equal, time.After. rewrite !Z.gtb_ltb.
  destruct (Z.ltb_spec (time.absSeconds t) (time.absSeconds u));
    destruct (Z.eqb_spec (time.absSeconds t) (time.absSeconds u));
    destruct (Z.ltb_spec (time.absSeconds u) (time.absSeconds t));
    destruct (Z.ltb_spec (time.nanosecond t) (time.nanosecond u));
    destruct (Z.eqb_spec (time.nanosecond t) (time.nanosecond u));
    destruct (Z.ltb_spec (time.nanosecond u) (time.nanosecond t));
    simpl; auto; lia.
Qed.

Lemma integer_trichotomy (a b : Z) : exactlyOne (a <? b) (a =? b) (a >? b).
Proof.
  unfold exactlyOne. rewrite Z.gtb_ltb.
  destruct (Z.ltb_spec a b); destruct (Z.eqb_spec a b); destruct (Z.ltb_spec b a);
    auto; lia.
Qed.

(** Unfolds the comparison methods down to the native comparisons. *)
Ltac unfold_comparisons :=
  unfold Field_LessThan, Field_GreaterThan, Field_Equal,
    StringField_LessThan, StringField_GreaterThan, StringField_Equal,
    TimeField_LessThan, TimeField_GreaterThan, TimeField_Equal,
    DecimalField_LessThan, DecimalField_GreaterThan, DecimalField_Equal,
    IntegerField_LessThan, IntegerField_GreaterThan, IntegerField_Equal,
    BoolField_LessThan, BoolField_GreaterThan, BoolField_Equal,
    EmptyField_LessThan, EmptyField_GreaterThan, EmptyField_Equal,
    checkAndDoSafeCompare, sameCompareTypes, safeCompare, safeOps;
  cbn [Field_Type GoType_eqb negb Field_ToString].

(** X1: against any cell, of the same variant or not, exactly one of
    [LessThan], [Equal], [GreaterThan] of a Text, Timestamp, Decimal or
    Integer cell is true. *)
Theorem ordered_trichotomy (f g : Field) :
  ordered f = true ->
  exactlyOne (Field_LessThan f (Some g)) (Field_Equal f (Some g))
    (Field_GreaterThan f (Some g)).
Proof.
  intros Hf.
  destruct f as [s|s|s|s|s|s]; try discriminate;
    destruct g as [s2|s2|s2|s2|s2|s2]; unfold_comparisons;
    first [ apply string_trichotomy | apply time_trichotomy
          | apply decimal_trichotomy | apply integer_trichotomy ].
Qed.

Lemma ordered_trichotomy_witness :
  let a := FDecimal (mkDecimalField (decimal.mkDecimal 15 (-1)) FieldKeyNil) in
  let b := FDecimal (mkDecimalField (decimal.mkDecimal 2 0) FieldKeyNil) in
  exactlyOne (Field_LessThan a (Some b)) (Field_Equal a (Some b))
    (Field_GreaterThan a (Some b)).
Proof.
  cbv zeta.
  apply (ordered_trichotomy
           (FDecimal (mkDecimalField (decimal.mkDecimal 15 (-1)) FieldKeyNil))
           (FDecimal (mkDecimalField (decimal.mkDecimal 2 0) FieldKeyNil))).
  reflexivity.
Defined.

(** X2: between two cells of the ordered variants, [a.LessThan(b)] and
    [b.GreaterThan(a)] agree, whether the variants are the same or the
    texts are compared. *)
Theorem LessThan_mirrors_GreaterThan (f g : Field) :
  ordered f = true -> ordered g = true ->
  Field_LessThan f (Some g) = Field_GreaterThan g (Some f).
Proof.
  intros Hf Hg.
  destruct f as [s|s|s|s|s|s]; try discriminate;
    destruct g as [s2|s2|s2|s2|s2|s2]; try discriminate; unfold_comparisons;
    try reflexivity.
  - unfold time.Before, time.After. rewrite !Z.gtb_ltb.
    rewrite (Z.eqb_sym (time.absSeconds (TimeField_ValueField s2))). reflexivity.
  - unfold decimal.LessThan, decimal.GreaterThan.
    rewrite (decimal_Cmp_antisym (DecimalField_ValueField s) (DecimalField_ValueField s2)).
    destruct (decimal.Cmp _ _); reflexivity.
  - rewrite Z.gtb_ltb. reflexivity.
Qed.

Lemma LessThan_mirrors_GreaterThan_witness :
  let a := FInteger (mkIntegerField 10 FieldKeyNil) in
  let b := FString (mkStringField "9" FieldKeyNil) in
  Field_LessThan a (Some b) = true /\ Field_GreaterThan b (Some a) = true.
Proof.
  cbv zeta. split; [reflexivity|].
  rewrite <- (LessThan_mirrors_GreaterThan
                (FInteger (mkIntegerField 10 FieldKeyNil))
                (FString (mkStringField "9" FieldKeyNil)) eq_refl eq_refl).
  reflexivity.
Defined.

Lemma Field_Equal_self (f : Field) : Field_Equal f (Some f) = true.
Proof.
  destruct f as [s|s|s|s|s|s]; unfold_comparisons.
  - apply String.eqb_refl.
  - unfold time.Equal. rewrite !Z.eqb_refl. reflexivity.
  - unfold decimal.Equal. rewrite decimal_Cmp_refl. reflexivity.
  - apply Z.eqb_refl.
  - apply Bool.eqb_reflx.
  - apply FieldKey_eqb_eq. reflexivity.
Qed.

(** X3: every cell is [Equal] to itself, whatever its variant and value. *)
Theorem Field_Equal_refl (f : Field) : Field_Equal f (Some f) = true.
Proof. exact (Field_Equal_self f). Qed.

(** X4: between two cells neither of which is Empty, [Equal] does not
    depend on which one is the receiver. *)
Theorem Field_Equal_sym (f g : Field) :
  isEmptyVariant f = false -> isEmptyVariant g = false ->
  Field_Equal f (Some g) = Field_Equal g (Some f).
Proof.
  intros Hf Hg.
  destruct f as [s|s|s|s|s|s]; try discriminate;
    destruct g as [s2|s2|s2|s2|s2|s2]; try discriminate; unfold_comparisons;
    try apply String.eqb_sym.
  - unfold time.Equal.
    rewrite (Z.eqb_sym (time.absSeconds (TimeField_ValueField s))),
      (Z.eqb_sym (time.nanosecond (TimeField_ValueField s))). reflexivity.
  - unfold decimal.Equal.
    rewrite (decimal_Cmp_antisym (DecimalField_ValueField s) (DecimalField_ValueField s2)).
    destruct (decimal.Cmp _ _); reflexivity.
  - apply Z.eqb_sym.
  - destruct (BoolField_ValueField s), (BoolField_ValueField s2); reflexivity.
Qed.

Lemma Field_Equal_sym_witness :
  let a := FDecimal (mkDecimalField (decimal.mkDecimal 1 0) FieldKeyNil) in
  let b := FInteger (mkIntegerField 1 FieldKeyNil) in
  Field_Equal a (Some b) = Field_Equal b (Some a).
Proof.
  cbv zeta.
  apply (Field_Equal_sym
           (FDecimal (mkDecimalField (decimal.mkDecimal 1 0) FieldKeyNil))
           (FInteger (mkIntegerField 1 FieldKeyNil))); reflexivity.
Defined.

(** X5: an Empty cell is [Equal] to exactly the Empty cells with the same
    key, and to nothing else (not to nil, not to a cell of another variant
    that prints as the empty string). *)
Theorem EmptyField_Equal_iff (s : EmptyField) (in2 : option Field) :
  Field_Equal (FEmpty s) in2 = true <->
  exists s2, in2 = Some (FEmpty s2) /\ EmptyField_KeyField s = EmptyField_KeyField s2.
Proof.
  split.
  - destruct in2 as [[s2|s2|s2|s2|s2|s2]|]; unfold_comparisons; try discriminate.
    intros H. apply FieldKey_eqb_eq in H. eauto.
  - intros (s2 & -> & Hk). unfold_comparisons. apply FieldKey_eqb_eq. exact Hk.
Qed.

(** ** Writing to a cell *)

(** X6: no write changes what a cell is or how it is addressed: [SetValue]
    and [FromString] keep the variant, [SetValue] keeps the key, and
    [FromString] keeps the key of every variant but Empty, whose key it
    replaces by the bare name [st]. *)
Theorem writes_keep_type_and_key (f g : Field) (st : string) :
  Field_Type (Field_SetValue f g) = Field_Type f
  /\ Field_Key (Field_SetValue f g) = Field_Key f
  /\ Field_Type (Field_FromString f st) = Field_Type f
  /\ Field_Key (Field_FromString f st)
     = match f with
       | FEmpty _ => {| Name := st; Tag := "" |}
       | _ => Field_Key f
       end.
Proof.
  destruct f as [s|s|s|s|s|s]; cbn [Field_SetValue Field_FromString Field_Type Field_Key];
    repeat split; try reflexivity.
  - unfold StringField_SetValue.
    destruct (checkAndDoSafeCompare _ _ _); [reflexivity|]. destruct g; reflexivity.
  - unfold TimeField_SetValue, TimeField_FromString.
    destruct (checkAndDoSafeCompare _ _ _);
      [destruct (time.ParseRFC3339 _); reflexivity|]. destruct g; reflexivity.
  - unfold TimeField_FromString. destruct (time.ParseRFC3339 _); reflexivity.
  - unfold DecimalField_SetValue, DecimalField_FromString.
    destruct (checkAndDoSafeCompare _ _ _);
      [destruct (decimal.NewFromString _); reflexivity|]. destruct g; reflexivity.
  - unfold DecimalField_FromString. destruct (decimal.NewFromString _); reflexivity.
  - unfold IntegerField_SetValue, IntegerField_FromString.
    destruct (checkAndDoSafeCompare _ _ _);
      [destruct (strconv.Atoi _) as [it [e|]]; reflexivity|]. destruct g; reflexivity.
  - unfold IntegerField_FromString. destruct (strconv.Atoi _) as [it [e|]]; reflexivity.
  - unfold BoolField_SetValue, BoolField_FromString.
    destruct (checkAndDoSafeCompare _ _ _);
      [destruct (strconv.ParseBool _) as [it [e|]]; reflexivity|]. destruct g; reflexivity.
  - unfold BoolField_FromString. destruct (strconv.ParseBool _) as [it [e|]]; reflexivity.
Qed.

(** X7: [SetValue] with a cell of the receiver's own variant (Empty apart)
    copies the value: afterwards [Value()] is the argument's and the
    receiver is [Equal] to the argument. *)
Theorem SetValue_same_variant_copies (f g : Field) :
  Field_Type f = Field_Type g -> isEmptyVariant f = false ->
  Field_Value (Field_SetValue f g) = Field_Value g
  /\ Field_Equal (Field_SetValue f g) (Some g) = true.
Proof.
  intros Ht Hf.
  destruct f as [s|s|s|s|s|s]; try discriminate;
    destruct g as [s2|s2|s2|s2|s2|s2]; try discriminate;
    (split; [reflexivity|]); unfold_comparisons;
    cbn [Field_SetValue StringField_SetValue TimeField_SetValue DecimalField_SetValue
         IntegerField_SetValue BoolField_SetValue]; unfold_comparisons.
  - apply String.eqb_refl.
  - simpl. unfold time.Equal. rewrite !Z.eqb_refl. reflexivity.
  - simpl. unfold decimal.Equal. rewrite decimal_Cmp_refl. reflexivity.
  - simpl. apply Z.eqb_refl.
  - simpl. apply Bool.eqb_reflx.
Qed.

Lemma SetValue_same_variant_copies_witness :
  let a := FInteger (mkIntegerField 3 (NewDefaultFieldKey "a")) in
  let b := FInteger (mkIntegerField 8 (NewDefaultFieldKey "b")) in
  Field_Value (Field_SetValue a b) = Some (VInt 8)
  /\ Field_Equal (Field_SetValue a b) (Some b) = true.
Proof.
  cbv zeta.
  apply (SetValue_same_variant_copies
           (FInteger (mkIntegerField 3 (NewDefaultFieldKey "a")))
           (FInteger (mkIntegerField 8 (NewDefaultFieldKey "b")))); reflexivity.
Defined.

(** X8: a Text cell takes the text of whatever cell it is assigned: after
    [SetValue(g)] its [ToString()] is [g.ToString()], for every variant of
    [g]. *)
Theorem StringField_SetValue_takes_text (s : StringField) (g : Field) :
  Field_ToString (Field_SetValue (FString s) g) = Field_ToString g.
Proof. destruct g; reflexivity. Qed.

(** X9: assigning an Integer cell to a Decimal cell stores the same number,
    as the decimal [i * 10 ^ 0]. *)
Theorem DecimalField_SetValue_from_Integer (s : DecimalField) (i : IntegerField) :
  DecimalField_SetValue s (FInteger i)
  = mkDecimalField (decimal.mkDecimal (IntegerField_ValueField i) 0)
      (DecimalField_KeyField s).
Proof.
  unfold DecimalField_SetValue. cbn. unfold DecimalField_FromString, IntegerField_ToString.
  set (v := IntegerField_ValueField i).
  assert (H : decimal.NewFromString (strconv.Itoa v) = Some (decimal.mkDecimal v 0)).
  { unfold strconv.Itoa. destruct (v <? 0) eqn:E.
    - apply Z.ltb_lt in E.
      destruct (formatNat_spec (- v) ltac:(lia)) as (Hne & Hall & Hval).
      pose proof (NewFromString_numeral true (formatNat (- v)) [] (- v) Hne Hall
                    (Forall_nil_2 _)) as H.
      rewrite app_nil_r in H.
      specialize (H Hval ltac:(unfold decimal.MinInt32; simpl; lia)).
      cbv zeta in H. rewrite H. simpl. do 2 f_equal. lia.
    - apply Z.ltb_ge in E.
      destruct (formatNat_spec v ltac:(lia)) as (Hne & Hall & Hval).
      pose proof (NewFromString_numeral false (formatNat v) [] v Hne Hall
                    (Forall_nil_2 _)) as H.
      rewrite app_nil_r in H.
      specialize (H Hval ltac:(unfold decimal.MinInt32; simpl; lia)).
      cbv zeta in H. rewrite H. reflexivity. }
  rewrite H. reflexivity.
Qed.

(** The text of an integer is a truth token for 1 only. *)
Lemma ParseBool_Itoa (v : Z) :
  fst (strconv.ParseBool (strconv.Itoa v)) = (v =? 1).
Proof.
  destruct (Z.eqb_spec v 1) as [->|Hne]; [reflexivity|].
  assert (Hlit : forall L : string,
             match list_ascii_of_string L with
             | c :: rest => (isDigit c = false /\ c <> "-"%char) \/ (c = "1"%char /\ rest = [])
             | [] => True
             end ->
             String.eqb (strconv.Itoa v) L = false).
  { intros L HL. apply String.eqb_neq. intros Heq.
    apply (f_equal list_ascii_of_string) in Heq. unfold strconv.Itoa in Heq.
    rewrite list_ascii_of_string_of_list_ascii in Heq. rewrite <- Heq in HL.
    destruct (v <? 0) eqn:E.
    - destruct HL as [[_ H]|[H _]]; [congruence | discriminate].
    - apply Z.ltb_ge in E. destruct (formatNat_spec v E) as (Hnil & Hall & Hval).
      destruct (formatNat v) as [|c rest]; [contradiction|].
      destruct HL as [[Hd _]|[-> ->]].
      + apply Forall_inv in Hall. congruence.
      + vm_compute in Hval. inversion Hval. congruence. }
  unfold strconv.ParseBool.
  rewrite !Hlit by (simpl; first [right; split; reflexivity
                                 | left; split; [reflexivity | discriminate]]).
  simpl. destruct (_ || _); reflexivity.
Qed.

(** X10: assigning an Integer cell to a Boolean cell stores whether the
    integer is 1 (0 and every other integer give false) and marks the cell
    as set. *)
Theorem BoolField_SetValue_from_Integer (s : BoolField) (i : IntegerField) :
  BoolField_SetValue s (FInteger i)
  = mkBoolField (IntegerField_ValueField i =? 1) (BoolField_KeyField s) true.
Proof.
  unfold BoolField_SetValue. cbn. unfold BoolField_FromString, IntegerField_ToString.
  pose proof (ParseBool_Itoa (IntegerField_ValueField i)) as H.
  destruct (strconv.ParseBool _) as [it [e|]]; simpl in H; subst it; reflexivity.
Qed.

(** X11: a Boolean or Empty cell assigned to an Integer cell resets it to
    0: neither ["true"], ["false"] nor the empty text is a numeral. *)
Theorem IntegerField_SetValue_from_Bool_or_Empty (s : IntegerField) (g : Field) :
  Field_Type g = TBool \/ Field_Type g = TEmptyFieldPtr ->
  IntegerField_SetValue s g = mkIntegerField 0 (IntegerField_KeyField s).
Proof.
  intros [Hg|Hg]; destruct g as [s2|s2|s2|s2|s2|s2]; try discriminate.
  - destruct s2 as [[|] k st]; reflexivity.
  - reflexivity.
Qed.

Lemma IntegerField_SetValue_from_Bool_or_Empty_witness :
  IntegerField_SetValue (mkIntegerField 7 FieldKeyNil) (NewBool FieldKeyNil true)
  = mkIntegerField 0 FieldKeyNil.
Proof.
  apply (IntegerField_SetValue_from_Bool_or_Empty (mkIntegerField 7 FieldKeyNil)
           (NewBool FieldKeyNil true)).
  left. reflexivity.
Defined.

(** X12: every write marks a Boolean cell as set: after [SetValue],
    [FromString], [InitTrue] or [InitFalse] the [Set] flag is true, whatever
    was written and whether or not the text parsed. *)
Theorem BoolField_writes_mark_set (s : BoolField) (g : Field) (st : string) :
  BoolField_Set (BoolField_SetValue s g) = true
  /\ BoolField_Set (BoolField_FromString s st) = true
  /\ BoolField_Set (BoolField_InitTrue s) = true
  /\ BoolField_Set (BoolField_InitFalse s) = true.
Proof.
  assert (H : forall st', BoolField_Set (BoolField_FromString s st') = true).
  { intros st'. unfold BoolField_FromString.
    destruct (strconv.ParseBool st') as [it [e|]]; reflexivity. }
  repeat split; try apply H.
  unfold BoolField_SetValue, checkAndDoSafeCompare, sameCompareTypes.
  destruct g; cbn [Field_Type GoType_eqb negb]; first [apply H | reflexivity].
Qed.

(** ** The factory and the key sets *)

(** X13: handed a value of the requested type, the factory returns, for
    each of the six types, a cell of that type with the given key.  For the
    five valued types the cell's [Value()] is the value handed in; for the
    Empty type, requested with a pointer to an Empty cell as value, the
    value is dropped and [Value()] is nil. *)
Theorem CreateFieldFromType_holds_value (t : GoType) (v : GoValue) (fk : FieldKey) :
  GoValue_Type v = Ty t ->
  exists f, CreateFieldFromType (Ty t) (Some v) fk = Cell f
            /\ Field_Type f = t /\ Field_Key f = fk
            /\ Field_Value f = if GoType_eqb t TEmptyFieldPtr then None else Some v.
Proof.
  intros Hv. destruct v as [| | | | |[]|]; simpl in Hv; inversion Hv; subst t;
    simpl; eauto.
Qed.

Lemma CreateFieldFromType_holds_value_witness :
  (exists f, CreateFieldFromType (Ty TInt) (Some (VInt 5)) FieldKeyNil = Cell f
             /\ Field_Type f = TInt /\ Field_Key f = FieldKeyNil
             /\ Field_Value f = Some (VInt 5))
  /\ (exists f, CreateFieldFromType (Ty TEmptyFieldPtr)
                  (Some (VField (FEmpty (mkEmptyField FieldKeyNil)))) FieldKeyNil = Cell f
                /\ Field_Type f = TEmptyFieldPtr /\ Field_Key f = FieldKeyNil
                /\ Field_Value f = None).
Proof.
  split.
  - apply (CreateFieldFromType_holds_value TInt (VInt 5) FieldKeyNil). reflexivity.
  - apply (CreateFieldFromType_holds_value TEmptyFieldPtr
             (VField (FEmpty (mkEmptyField FieldKeyNil))) FieldKeyNil). reflexivity.
Defined.

(** X14: handed nil as value, the factory returns for each of the six types
    a cell of that type with the given key; the cell reports itself empty,
    except the Boolean one, whose [Set] flag no literal sets and whose
    [IsEmpty] is that flag. *)
Theorem CreateFieldFromType_nil_value (t : GoType) (fk : FieldKey) :
  exists f, CreateFieldFromType (Ty t) None fk = Cell f
            /\ Field_Type f = t /\ Field_Key f = fk
            /\ Field_IsEmpty f = negb (GoType_eqb t TBool).
Proof. destruct t; simpl; eexists; repeat split. Qed.

(** X15: the factory returns no cell exactly for the nil type and for a
    type outside the six, and it panics exactly when the type is one of the
    five valued ones and the value is non-nil of another type; the Empty
    type ignores the value. *)
Theorem CreateFieldFromType_failures (ty : TypeArg) (va : option GoValue) (fk : FieldKey) :
  (CreateFieldFromType ty va fk = NoCell <-> ty = TyNil \/ ty = TyOther)
  /\ (CreateFieldFromType ty va fk = Panics <->
        exists t v, ty = Ty t /\ t <> TEmptyFieldPtr /\ va = Some v
                    /\ GoValue_Type v <> Ty t).
Proof.
  split; split.
  - destruct ty as [|[]|]; simpl; auto; destruct va as [[| | | | |f|]|]; discriminate.
  - intros [-> | ->]; reflexivity.
  - destruct ty as [|t|]; simpl; try discriminate.
    destruct t, va as [v|]; try discriminate;
      destruct v as [| | | | |[]|]; try discriminate;
      intros _; eexists _, _; repeat split; discriminate.
  - intros (t & v & -> & Ht & -> & Hv).
    destruct t, v as [| | | | |[]|]; simpl in *; congruence.
Qed.

Lemma SliceContains_iff {A : Type} (s : list A) (val : A) (equals : A -> A -> bool) :
  SliceContains s val equals = true <-> exists v, In v s /\ equals v val = true.
Proof.
  induction s as [|v s IH]; simpl.
  - split; [discriminate | intros (v & [] & _)].
  - destruct (equals v val) eqn:E.
    + split; [|reflexivity]. intros _. exists v. auto.
    + rewrite IH. split.
      * intros (w & Hin & Hw). exists w. auto.
      * intros (w & [<- | Hin] & Hw); [congruence | exists w; auto].
Qed.

(** X16: a name is a field key of a key set exactly when the name is not
    empty, the set is not empty, and the set holds the key made of that
    name and the tag of the set's first key (the default tag ["field"] when
    that tag is empty). *)
Theorem IsFieldKey_iff (s : string) (keySet : list FieldKey) :
  IsFieldKey s keySet = true <->
  s <> ""%string
  /\ exists k0 rest, keySet = k0 :: rest
       /\ In {| Name := s;
                Tag := if String.eqb (Tag k0) "" then FieldKeyTag else Tag k0 |} keySet.
Proof.
  unfold IsFieldKey. rewrite andb_true_iff, negb_true_iff, String.eqb_neq.
  apply and_iff_compat_l. destruct keySet as [|k0 rest].
  - split; [discriminate | intros (k & r & H & _); discriminate].
  - rewrite SliceContains_iff. unfold NewFieldKey. split.
    + intros (v & Hin & Hv). apply FieldKey_eqb_eq in Hv. subst v.
      exists k0, rest. auto.
    + intros (k & r & Heq & Hin). inversion Heq; subst k r.
      eexists. split; [exact Hin|]. apply FieldKey_eqb_eq. reflexivity.
Qed.

(** ** The machines after construction *)

Section MachineExtras.

Context {V D : Type}.
Implicit Types (sm : StateMachine V D) (id : StateId) (sv : StateValue V).
Implicit Types (l : list (RingValue V D * StateId * StateValue V)).
Implicit Types (cur : StateValue V) (equals : StateValue V -> StateValue V -> bool).
Implicit Types (order : list (StateId * StateValue V)).

Lemma populateAll_cons sm l rv id sv :
  populateAll sm ((rv, id, sv) :: l) = populateAll (populateStep sm rv id sv) l.
Proof. reflexivity. Qed.

(** Whatever the identifiers, the caches of a populated machine hold only
    what the machine held before and what the entries bring. *)
Lemma populateAll_sources l sm :
  (forall id a, IdRingAddressCache (populateAll sm l) !! id = Some a ->
      IdRingAddressCache sm !! id = Some a \/ exists e, In e l /\ snd (fst e) = id)
  /\ (forall id sv, ValueCache (populateAll sm l) !! id = Some sv ->
        ValueCache sm !! id = Some sv
        \/ exists e, In e l /\ snd (fst e) = id /\ snd e = sv).
Proof.
  revert sm. induction l as [|[[rv k] v] l IH]; intros sm.
  - split; intros; left; assumption.
  - rewrite populateAll_cons. destruct (IH (populateStep sm rv k v)) as [IHa IHv].
    split.
    + intros id a H. destruct (IHa id a H) as [H'|(e & He & Hid)].
      * unfold populateStep in H'. simpl in H'.
        destruct (decide (k = id)) as [<-|Hne].
        -- right. exists (rv, k, v). split; [left; reflexivity | reflexivity].
        -- rewrite lookup_insert_ne in H' by exact Hne. left. exact H'.
      * right. exists e. split; [right; exact He | exact Hid].
    + intros id sv H. destruct (IHv id sv H) as [H'|(e & He & Hid & Hsv)].
      * unfold populateStep in H'. simpl in H'.
        destruct (decide (k = id)) as [<-|Hne].
        -- rewrite lookup_insert_eq in H'. inversion H'; subst.
           right. exists (rv, k, sv). split; [left; reflexivity | split; reflexivity].
        -- rewrite lookup_insert_ne in H' by exact Hne. left. exact H'.
      * right. exists e. split; [right; exact He | split; assumption].
Qed.

Lemma populateAll_Start l sm : Start (populateAll sm l) = Start sm.
Proof.
  revert sm. induction l as [|[[rv id] sv] l IH]; intros sm; [reflexivity|].
  rewrite populateAll_cons, IH. reflexivity.
Qed.

Lemma NewStateMachine_populateAll (s0 : State V D) (rest : list (State V D)) :
  NewStateMachine (s0 :: rest)
  = populateAll (freshMachine (length (s0 :: rest)) (State_Id s0))
      (map stateEntry (s0 :: rest)).
Proof. unfold NewStateMachine. rewrite PopulateRing_populateAll. reflexivity. Qed.

Lemma NewConditionalStateMachine_populateAll
    (s0 : ConditionalState V D) (rest : list (ConditionalState V D)) :
  NewConditionalStateMachine (s0 :: rest)
  = populateAll (freshMachine (length (s0 :: rest)) (ConditionalState_Id s0))
      (map conditionalStateEntry (s0 :: rest)).
Proof.
  unfold NewConditionalStateMachine. rewrite PopulateConditionalRing_populateAll.
  reflexivity.
Qed.

(** X17: a machine built from states with pairwise different identifiers
    is consistent with the list it was built from: the ring has one element
    per state and has come full circle, [Start] is the first identifier, the
    state at position [i] of the list sits at position [i] of the ring, the
    address cache maps its identifier to that position and the value cache
    to its payload; and the value cache holds payloads of listed states
    only. *)
Theorem NewStateMachine_consistent (states : list (State V D)) :
  NoDup (map State_Id states) ->
  let sm := NewStateMachine states in
  length (Ring_elems sm) = length states
  /\ Ring_cur sm = 0%nat
  /\ Start sm = match states with [] => ""%string | s0 :: _ => State_Id s0 end
  /\ (forall i s, states !! i = Some s ->
        Ring_elems sm !! i = Some (RState s)
        /\ IdRingAddressCache sm !! State_Id s = Some (Some i)
        /\ ValueCache sm !! State_Id s = Some (State_StateValue s))
  /\ (forall id sv, ValueCache sm !! id = Some sv ->
        exists s, In s states /\ State_Id s = id /\ State_StateValue s = sv).
Proof.
  intros Hnd sm. subst sm. destruct states as [|s0 rest].
  - simpl. repeat split; intros; discriminate.
  - rewrite NewStateMachine_populateAll.
    remember (s0 :: rest) as states eqn:Est.
    assert (Hn : (0 < length states)%nat) by (rewrite Est; simpl; lia).
    destruct (populateAll_fresh (length states) (State_Id s0) (map stateEntry states))
      as (Hl & Hcur & Hin & Hout).
    { rewrite length_map. lia. } { exact Hn. } { rewrite map_map. exact Hnd. }
    rewrite length_map, Nat.Div0.mod_same in Hcur.
    split; [exact Hl|]. split; [exact Hcur|]. split.
    { rewrite populateAll_Start, Est. reflexivity. }
    split.
    + intros i s Hi. apply (Hin i (RState s) (State_Id s) (State_StateValue s)).
      rewrite list_lookup_fmap, Hi. reflexivity.
    + intros id sv H. destruct (Hout id sv H) as (i & rv & Hi).
      rewrite list_lookup_fmap in Hi.
      destruct (states !! i) as [s|] eqn:Es; [|discriminate].
      inversion Hi; subst. exists s. split; [|auto].
      apply list_elem_of_In. eapply list_elem_of_lookup_2; eauto.
Qed.

(** X18: both machines return a payload exactly when they return no error:
    the result is either a non-nil payload with a nil error, or a nil
    payload with an error. *)
Theorem ProcessInMachine_payload_xor_error sm order cur (testData : D) equals :
  ((exists v, ProcessInMachine sm order cur testData equals = (Some v, None))
   \/ (exists e, ProcessInMachine sm order cur testData equals = (None, Some e)))
  /\ ((exists v, ConditionalStateMachine_ProcessInMachine sm order cur testData equals
                 = (Some v, None))
      \/ (exists e, ConditionalStateMachine_ProcessInMachine sm order cur testData equals
                    = (None, Some e))).
Proof.
  assert (Hnext : forall k, (exists v, lookupNextValue sm k = (Some v, None))
                            \/ (exists e, lookupNextValue sm k = (None, Some e))).
  { intros k. unfold lookupNextValue.
    destruct (ValueCache sm !! k) as [[v|]|]; eauto. }
  split.
  - unfold ProcessInMachine.
    destruct (IdRingAddressCache sm !! _) as [[addr|]|]; eauto.
    destruct (Ring_elems sm !! addr) as [[|s|s]|]; eauto.
    destruct (State_EvaluateTransition s testData) as [nextId [err|]]; eauto.
    destruct (String.eqb nextId ""); eauto.
    destruct (String.eqb nextId _); eauto.
  - unfold ConditionalStateMachine_ProcessInMachine.
    destruct (IdRingAddressCache sm !! _) as [[addr|]|]; eauto.
    destruct (Ring_elems sm !! addr) as [[|s|s]|]; eauto.
    destruct (ConditionalState_EvaluateTransition s testData) as [nextId [err|]]; eauto.
    destruct (String.eqb nextId ""); eauto.
Qed.

Lemma lookupValueCacheId_none order cur equals :
  (forall k v, In (k, v) order -> equals v cur = false) ->
  lookupValueCacheId order cur equals = ""%string.
Proof.
  induction order as [|[k v] order IH]; intros H; simpl; [reflexivity|].
  rewrite (H k v) by (left; reflexivity). apply IH.
  intros k' v' Hin. apply (H k' v'). right. exact Hin.
Qed.

(** A current value that matches no payload finds no identifier and, with
    no entry under the empty identifier, no ring address. *)
Lemma unknown_populated (n : nat) (start : StateId) l order cur equals :
  order ≡ₚ map_to_list (ValueCache (populateAll (freshMachine n start) l)) ->
  (forall e, In e l -> snd (fst e) <> ""%string /\ equals (snd e) cur = false) ->
  lookupValueCacheId order cur equals = ""%string
  /\ IdRingAddressCache (populateAll (freshMachine (V:=V) (D:=D) n start) l) !! ""%string
     = None.
Proof.
  intros Hperm Hl.
  destruct (populateAll_sources l (freshMachine n start)) as [Ha Hv]. split.
  - apply lookupValueCacheId_none. intros k v Hin.
    apply list_elem_of_In in Hin. rewrite Hperm in Hin.
    apply elem_of_map_to_list in Hin.
    destruct (Hv k v Hin) as [H|(e & He & _ & <-)]; [discriminate|].
    apply (Hl e He).
  - destruct (IdRingAddressCache _ !! ""%string) as [a|] eqn:E; [|reflexivity].
    destruct (Ha _ a E) as [H|(e & He & Hid)]; [discriminate|].
    destruct (Hl e He) as [Hne _]. contradiction.
Qed.

(** X19: in a machine, plain or conditional, built from states none of
    which has the empty identifier, a current value that [equals] matches
    with no state's payload is refused with "id does not exist in machine",
    in every iteration order; this includes the machine built from no state
    at all. *)
Theorem ProcessInMachine_unknown_value :
  (forall (states : list (State V D)) order cur (testData : D) equals,
      order ≡ₚ map_to_list (ValueCache (NewStateMachine states)) ->
      (forall s, In s states ->
                 State_Id s <> ""%string /\ equals (State_StateValue s) cur = false) ->
      ProcessInMachine (NewStateMachine states) order cur testData equals
      = (None, Some (New "id does not exist in machine")))
  /\ (forall (states : list (ConditionalState V D)) order cur (testData : D) equals,
        order ≡ₚ map_to_list (ValueCache (NewConditionalStateMachine states)) ->
        (forall s, In s states ->
                   ConditionalState_Id s <> ""%string
                   /\ equals (ConditionalState_StateValue s) cur = false) ->
        ConditionalStateMachine_ProcessInMachine (NewConditionalStateMachine states)
          order cur testData equals
        = (None, Some (New "id does not exist in machine"))).
Proof.
  split.
  - intros states order cur td equals Hperm Hs. destruct states as [|s0 rest].
    + unfold ProcessInMachine. simpl. rewrite lookup_empty. reflexivity.
    + rewrite NewStateMachine_populateAll in *.
      destruct (unknown_populated _ _ _ order cur equals Hperm) as [Hk Ha].
      { intros e He. apply in_map_iff in He. destruct He as (s & <- & Hin).
        apply (Hs s Hin). }
      unfold ProcessInMachine. rewrite Hk. unfold StateId, RingAddress in *.
      rewrite Ha. reflexivity.
  - intros states order cur td equals Hperm Hs. destruct states as [|s0 rest].
    + unfold ConditionalStateMachine_ProcessInMachine. simpl. rewrite lookup_empty.
      reflexivity.
    + rewrite NewConditionalStateMachine_populateAll in *.
      destruct (unknown_populated _ _ _ order cur equals Hperm) as [Hk Ha].
      { intros e He. apply in_map_iff in He. destruct He as (s & <- & Hin).
        apply (Hs s Hin). }
      unfold ConditionalStateMachine_ProcessInMachine. rewrite Hk.
      unfold StateId, RingAddress in *. rewrite Ha. reflexivity.
Qed.

(** The plain machine on a current value that resolves to the state [s]:
    what it returns is decided by the transition that [s] evaluates to. *)
Lemma ProcessInMachine_resolved (states : list (State V D)) (s : State V D)
    order cur (testData : D) equals :
  NoDup (map State_Id states) ->
  In s states ->
  order ≡ₚ map_to_list (ValueCache (NewStateMachine states)) ->
  equals (State_StateValue s) cur = true ->
  (forall s', In s' states -> equals (State_StateValue s') cur = true ->
              State_Id s' = State_Id s) ->
  ProcessInMachine (NewStateMachine states) order cur testData equals
  = match State_EvaluateTransition s testData with
    | (_, Some err) => (None, Some err)
    | (nextId, None) =>
        if String.eqb nextId "" then (None, Some (New "next id is empty"))
        else if String.eqb nextId (State_Id s) then (None, Some SameStateNoUpdate)
        else lookupNextValue (NewStateMachine states) nextId
    end.
Proof.
  intros Hnd Hs Hperm Heq Huniq.
  destruct states as [|s0 rest]; [destruct Hs|].
  rewrite NewStateMachine_populateAll in *.
  remember (s0 :: rest) as states eqn:Est.
  assert (Hlen : (length (map stateEntry states) <= length states)%nat)
    by (rewrite length_map; lia).
  assert (Hn : (0 < length states)%nat) by (rewrite Est; simpl; lia).
  assert (Hnd' : NoDup (map (fun e => snd (fst e)) (map stateEntry states)))
    by (rewrite map_map; exact Hnd).
  apply list_elem_of_In, list_elem_of_lookup in Hs. destruct Hs as (i & Hi).
  assert (Hi' : map stateEntry states !! i = Some (stateEntry s))
    by (rewrite list_lookup_fmap, Hi; reflexivity).
  unfold ProcessInMachine.
  rewrite (lookup_populated _ _ _ order cur equals i _ _ _ Hlen Hn Hnd' Hperm Hi' Heq).
  - destruct (populateAll_fresh _ (State_Id s0) _ Hlen Hn Hnd') as (_ & _ & Hin & _).
    destruct (Hin _ _ _ _ Hi') as (Hel & Haddr & _).
    rewrite Haddr, Hel. reflexivity.
  - intros rv' id' sv' Hin' Hm. apply in_map_iff in Hin'.
    destruct Hin' as (s' & Hs' & Hsin). inversion Hs'; subst. apply Huniq; auto.
Qed.

(** The same for the conditional machine. *)
Lemma ConditionalStateMachine_resolved (states : list (ConditionalState V D))
    (s : ConditionalState V D) order cur (testData : D) equals :
  NoDup (map ConditionalState_Id states) ->
  In s states ->
  order ≡ₚ map_to_list (ValueCache (NewConditionalStateMachine states)) ->
  equals (ConditionalState_StateValue s) cur = true ->
  (forall s', In s' states -> equals (ConditionalState_StateValue s') cur = true ->
              ConditionalState_Id s' = ConditionalState_Id s) ->
  ConditionalStateMachine_ProcessInMachine (NewConditionalStateMachine states)
    order cur testData equals
  = match ConditionalState_EvaluateTransition s testData with
    | (_, Some err) => (None, Some err)
    | (nextId, None) =>
        if String.eqb nextId "" then (None, Some (New "next id is empty"))
        else lookupNextValue (NewConditionalStateMachine states) nextId
    end.
Proof.
  intros Hnd Hs Hperm Heq Huniq.
  destruct states as [|s0 rest]; [destruct Hs|].
  rewrite NewConditionalStateMachine_populateAll in *.
  remember (s0 :: rest) as states eqn:Est.
  assert (Hlen : (length (map conditionalStateEntry states) <= length states)%nat)
    by (rewrite length_map; lia).
  assert (Hn : (0 < length states)%nat) by (rewrite Est; simpl; lia).
  assert (Hnd' : NoDup (map (fun e => snd (fst e)) (map conditionalStateEntry states)))
    by (rewrite map_map; exact Hnd).
  apply list_elem_of_In, list_elem_of_lookup in Hs. destruct Hs as (i & Hi).
  assert (Hi' : map conditionalStateEntry states !! i = Some (conditionalStateEntry s))
    by (rewrite list_lookup_fmap, Hi; reflexivity).
  unfold ConditionalStateMachine_ProcessInMachine.
  rewrite (lookup_populated _ _ _ order cur equals i _ _ _ Hlen Hn Hnd' Hperm Hi' Heq).
  - destruct (populateAll_fresh _ (ConditionalState_Id s0) _ Hlen Hn Hnd')
      as (_ & _ & Hin & _).
    destruct (Hin _ _ _ _ Hi') as (Hel & Haddr & _).
    rewrite Haddr, Hel. reflexivity.
  - intros rv' id' sv' Hin' Hm. apply in_map_iff in Hin'.
    destruct Hin' as (s' & Hs' & Hsin). inversion Hs'; subst. apply Huniq; auto.
Qed.

Lemma evalMatches_first (pre post : list (Transition D)) (m : Transition D) (td : D) :
  (forall m', In m' pre -> Transition_SimpleMatcher m' td = false) ->
  Transition_SimpleMatcher m td = true ->
  evalMatches (pre ++ m :: post) td = (Transition_NextState m, None).
Proof.
  intros Hpre Hm. induction pre as [|p pre IH]; simpl.
  - rewrite Hm. reflexivity.
  - rewrite (Hpre p) by (left; reflexivity). apply IH.
    intros m' Hin. apply Hpre. right. exact Hin.
Qed.

Lemma evalMatches_none (ms : list (Transition D)) (td : D) :
  (forall m, In m ms -> Transition_SimpleMatcher m td = false) ->
  evalMatches ms td = (""%string, Some (New "no valid transitions available")).
Proof.
  induction ms as [|m ms IH]; intros H; simpl; [reflexivity|].
  rewrite (H m) by (left; reflexivity). apply IH.
  intros m' Hin. apply H. right. exact Hin.
Qed.

Lemma evalOutcomes_none (os : list (ConditionalTransition D)) (td : D) :
  (forall o, In o os -> Meets (ConditionalTransition_Conditional o) td = false) ->
  evalOutcomes os td = (""%string, Some (New "no valid transitions available")).
Proof.
  induction os as [|o os IH]; intros H; simpl; [reflexivity|].
  rewrite (H o) by (left; reflexivity). apply IH.
  intros o' Hin. apply H. right. exact Hin.
Qed.

(** The payload cached for the identifier of a listed state, and the
    absence of an entry for an identifier that no state has. *)
Lemma lookupNextValue_populated (n : nat) (start : StateId) l i rv id sv :
  (length l <= n)%nat -> (0 < n)%nat ->
  NoDup (map (fun e => snd (fst e)) l) ->
  l !! i = Some (rv, id, sv) ->
  lookupNextValue (populateAll (freshMachine n start) l) id
  = match sv with
    | Some v => (Some v, None)
    | None => (None, Some (New "value is nil for next id"))
    end.
Proof.
  intros Hlen Hn Hnd Hi.
  destruct (populateAll_fresh n start l Hlen Hn Hnd) as (_ & _ & Hin & _).
  destruct (Hin _ _ _ _ Hi) as (_ & _ & Hv).
  unfold lookupNextValue. unfold StateValue, StateId in *. rewrite Hv.
  destruct sv; reflexivity.
Qed.

Lemma lookupNextValue_absent (n : nat) (start : StateId) l id :
  (forall e, In e l -> snd (fst e) <> id) ->
  lookupNextValue (populateAll (freshMachine (V:=V) (D:=D) n start) l) id
  = (None, Some (New "next id does not exist in machine")).
Proof.
  intros Hl. destruct (populateAll_sources l (freshMachine n start)) as [_ Hv].
  unfold lookupNextValue.
  destruct (ValueCache _ !! id) as [sv|] eqn:E; [|reflexivity].
  destruct (Hv id sv E) as [H|(e & He & Hid & _)]; [discriminate|].
  destruct (Hl e He Hid).
Qed.

(** X20: one step of the plain machine.  In a machine built from states
    with pairwise different identifiers, from the non-terminal state [s]
    that the current value resolves to, the first transition whose matcher
    accepts the input decides: when it targets another listed state [t]
    with a payload, that payload is returned without error. *)
Theorem ProcessInMachine_step (states : list (State V D)) (s t : State V D) (v : V)
    order cur (testData : D) equals (pre post : list (Transition D)) (m : Transition D) :
  NoDup (map State_Id states) ->
  In s states -> In t states ->
  order ≡ₚ map_to_list (ValueCache (NewStateMachine states)) ->
  equals (State_StateValue s) cur = true ->
  (forall s', In s' states -> equals (State_StateValue s') cur = true ->
              State_Id s' = State_Id s) ->
  State_Terminal s = false ->
  State_Matches s = pre ++ m :: post ->
  (forall m', In m' pre -> Transition_SimpleMatcher m' testData = false) ->
  Transition_SimpleMatcher m testData = true ->
  Transition_NextState m = State_Id t ->
  State_Id t <> ""%string -> State_Id t <> State_Id s ->
  State_StateValue t = Some v ->
  ProcessInMachine (NewStateMachine states) order cur testData equals = (Some v, None).
Proof.
  intros Hnd Hs Ht Hperm Heq Huniq Hterm Hms Hpre Hm Hnext Hne Hdiff Hv.
  rewrite (ProcessInMachine_resolved states s order cur testData equals
             Hnd Hs Hperm Heq Huniq).
  unfold State_EvaluateTransition.
  rewrite Hterm, Hms, (evalMatches_first pre post m testData Hpre Hm), Hnext.
  apply String.eqb_neq in Hne, Hdiff. rewrite Hne, Hdiff.
  destruct states as [|s0 rest]; [destruct Hs|].
  rewrite NewStateMachine_populateAll.
  apply list_elem_of_In, list_elem_of_lookup in Ht. destruct Ht as (i & Hi).
  rewrite (lookupNextValue_populated _ _ _ i (RState t) (State_Id t) (State_StateValue t)).
  - rewrite Hv. reflexivity.
  - rewrite length_map. lia.
  - simpl. lia.
  - rewrite map_map. exact Hnd.
  - rewrite list_lookup_fmap, Hi. reflexivity.
Qed.

(** X21: from a non-terminal state none of whose matchers accepts the
    input, the plain machine fails with "no valid transitions available";
    a state without transitions that is not marked terminal is such a
    state for every input. *)
Theorem ProcessInMachine_no_transition (states : list (State V D)) (s : State V D)
    order cur (testData : D) equals :
  NoDup (map State_Id states) ->
  In s states ->
  order ≡ₚ map_to_list (ValueCache (NewStateMachine states)) ->
  equals (State_StateValue s) cur = true ->
  (forall s', In s' states -> equals (State_StateValue s') cur = true ->
              State_Id s' = State_Id s) ->
  State_Terminal s = false ->
  (forall m, In m (State_Matches s) -> Transition_SimpleMatcher m testData = false) ->
  ProcessInMachine (NewStateMachine states) order cur testData equals
  = (None, Some (New "no valid transitions available")).
Proof.
  intros Hnd Hs Hperm Heq Huniq Hterm Hnone.
  rewrite (ProcessInMachine_resolved states s order cur testData equals
             Hnd Hs Hperm Heq Huniq).
  unfold State_EvaluateTransition.
  rewrite Hterm, (evalMatches_none _ testData Hnone). reflexivity.
Qed.

(** X22: a transition of the plain machine that leads nowhere.  When the
    deciding transition names an identifier that no listed state has, the
    result is "next id does not exist in machine"; when it names a listed
    state whose payload is nil, the result is "value is nil for next id";
    when it names the current state itself, the result is the signal
    [SameStateNoUpdate]. *)
Theorem ProcessInMachine_bad_target (states : list (State V D)) (s : State V D)
    order cur (testData : D) equals (pre post : list (Transition D)) (m : Transition D) :
  NoDup (map State_Id states) ->
  In s states ->
  order ≡ₚ map_to_list (ValueCache (NewStateMachine states)) ->
  equals (State_StateValue s) cur = true ->
  (forall s', In s' states -> equals (State_StateValue s') cur = true ->
              State_Id s' = State_Id s) ->
  State_Terminal s = false ->
  State_Matches s = pre ++ m :: post ->
  (forall m', In m' pre -> Transition_SimpleMatcher m' testData = false) ->
  Transition_SimpleMatcher m testData = true ->
  Transition_NextState m <> ""%string ->
  ((forall s', In s' states -> State_Id s' <> Transition_NextState m) ->
     ProcessInMachine (NewStateMachine states) order cur testData equals
     = (None, Some (New "next id does not exist in machine")))
  /\ (forall t, In t states -> State_Id t = Transition_NextState m ->
        State_Id t <> State_Id s -> State_StateValue t = None ->
        ProcessInMachine (NewStateMachine states) order cur testData equals
        = (None, Some (New "value is nil for next id")))
  /\ (Transition_NextState m = State_Id s ->
        ProcessInMachine (NewStateMachine states) order cur testData equals
        = (None, Some SameStateNoUpdate)).
Proof.
  intros Hnd Hs Hperm Heq Huniq Hterm Hms Hpre Hm Hne.
  rewrite (ProcessInMachine_resolved states s order cur testData equals
             Hnd Hs Hperm Heq Huniq).
  unfold State_EvaluateTransition.
  rewrite Hterm, Hms, (evalMatches_first pre post m testData Hpre Hm).
  apply String.eqb_neq in Hne. rewrite Hne.
  destruct states as [|s0 rest]; [destruct Hs|].
  rewrite NewStateMachine_populateAll.
  split; [|split].
  - intros Habs.
    assert (Hself : String.eqb (Transition_NextState m) (State_Id s) = false).
    { apply String.eqb_neq. intros H. apply (Habs s Hs). symmetry. exact H. }
    rewrite Hself. apply lookupNextValue_absent.
    intros e He. apply in_map_iff in He. destruct He as (s' & <- & Hin).
    apply (Habs s' Hin).
  - intros t Ht Hid Hdiff Hnil. rewrite <- Hid.
    apply String.eqb_neq in Hdiff. rewrite Hdiff.
    apply list_elem_of_In, list_elem_of_lookup in Ht. destruct Ht as (i & Hi).
    rewrite (lookupNextValue_populated _ _ _ i (RState t) (State_Id t)
               (State_StateValue t)).
    + rewrite Hnil. reflexivity.
    + rewrite length_map. lia.
    + simpl. lia.
    + rewrite map_map. exact Hnd.
    + rewrite list_lookup_fmap, Hi. reflexivity.
  - intros ->. rewrite String.eqb_refl. reflexivity.
Qed.

(** X23: one step of the conditional machine.  From the state [s] that the
    current value resolves to, the first outcome whose gate meets the test
    data decides: when it targets a listed state [t] with a payload and a
    non-empty identifier, that payload is returned; when no gate meets the
    data, the machine fails with "no valid transitions available". *)
Theorem ConditionalStateMachine_step (states : list (ConditionalState V D))
    (s : ConditionalState V D) order cur (testData : D) equals :
  NoDup (map ConditionalState_Id states) ->
  In s states ->
  order ≡ₚ map_to_list (ValueCache (NewConditionalStateMachine states)) ->
  equals (ConditionalState_StateValue s) cur = true ->
  (forall s', In s' states -> equals (ConditionalState_StateValue s') cur = true ->
              ConditionalState_Id s' = ConditionalState_Id s) ->
  (forall pre o post t v,
      ConditionalState_Outcomes s = pre ++ o :: post ->
      (forall o', In o' pre ->
                  Meets (ConditionalTransition_Conditional o') testData = false) ->
      Meets (ConditionalTransition_Conditional o) testData = true ->
      In t states ->
      ConditionalTransition_NextState o = ConditionalState_Id t ->
      ConditionalState_Id t <> ""%string ->
      ConditionalState_StateValue t = Some v ->
      ConditionalStateMachine_ProcessInMachine (NewConditionalStateMachine states)
        order cur testData equals
      = (Some v, None))
  /\ ((forall o, In o (ConditionalState_Outcomes s) ->
                 Meets (ConditionalTransition_Conditional o) testData = false) ->
      ConditionalStateMachine_ProcessInMachine (NewConditionalStateMachine states)
        order cur testData equals
      = (None, Some (New "no valid transitions available"))).
Proof.
  intros Hnd Hs Hperm Heq Huniq.
  rewrite (ConditionalStateMachine_resolved states s order cur testData equals
             Hnd Hs Hperm Heq Huniq).
  unfold ConditionalState_EvaluateTransition. split.
  - intros pre o post t v Hos Hpre Ho Ht Hnext Hne Hv.
    rewrite Hos, (evalOutcomes_first pre post o testData Hpre Ho), Hnext.
    apply String.eqb_neq in Hne. rewrite Hne.
    destruct states as [|s0 rest]; [destruct Hs|].
    rewrite NewConditionalStateMachine_populateAll.
    apply list_elem_of_In, list_elem_of_lookup in Ht. destruct Ht as (i & Hi).
    rewrite (lookupNextValue_populated _ _ _ i (RConditionalState t)
               (ConditionalState_Id t) (ConditionalState_StateValue t)).
    + rewrite Hv. reflexivity.
    + rewrite length_map. lia.
    + simpl. lia.
    + rewrite map_map. exact Hnd.
    + rewrite list_lookup_fmap, Hi. reflexivity.
  - intros Hnone. rewrite (evalOutcomes_none _ testData Hnone). reflexivity.
Qed.

Lemma populateAll_app sm l1 l2 :
  populateAll sm (l1 ++ l2) = populateAll (populateAll sm l1) l2.
Proof. unfold populateAll. apply fold_left_app. Qed.

(** The ring keeps its size, and the current position advances by one per
    entry, around the ring. *)
Lemma populateAll_shape l sm (n : nat) :
  length (Ring_elems sm) = n -> (Ring_cur sm < n)%nat ->
  length (Ring_elems (populateAll sm l)) = n
  /\ Ring_cur (populateAll sm l) = ((Ring_cur sm + length l) mod n)%nat.
Proof.
  revert sm. induction l as [|[[rv id] sv] l IH]; intros sm Hn Hc.
  - simpl. split; [exact Hn|]. rewrite Nat.add_0_r, Nat.mod_small by exact Hc.
    reflexivity.
  - rewrite populateAll_cons.
    assert (Hn' : length (Ring_elems (populateStep sm rv id sv)) = n)
      by (unfold populateStep; simpl; rewrite length_insert; exact Hn).
    assert (Hc' : Ring_cur (populateStep sm rv id sv) = (S (Ring_cur sm) mod n)%nat)
      by (unfold populateStep, Ring_Next; simpl; rewrite length_insert, Hn; reflexivity).
    destruct (IH (populateStep sm rv id sv) Hn') as [Hl Hcur].
    { rewrite Hc'. apply Nat.mod_upper_bound. lia. }
    split; [exact Hl|]. rewrite Hcur, Hc'. simpl length.
    rewrite Nat.Div0.add_mod_idemp_l. f_equal. lia.
Qed.

(** Entries with other identifiers leave the caches at [id] alone. *)
Lemma populateAll_untouched l sm id :
  (forall e, In e l -> snd (fst e) <> id) ->
  IdRingAddressCache (populateAll sm l) !! id = IdRingAddressCache sm !! id
  /\ ValueCache (populateAll sm l) !! id = ValueCache sm !! id.
Proof.
  revert sm. induction l as [|[[rv k] v] l IH]; intros sm Hl; [split; reflexivity|].
  rewrite populateAll_cons.
  destruct (IH (populateStep sm rv k v)) as [Ha Hv].
  { intros e He. apply Hl. right. exact He. }
  assert (Hk : k <> id) by (apply (Hl (rv, k, v)); left; reflexivity).
  rewrite Ha, Hv. unfold populateStep. simpl.
  rewrite !lookup_insert_ne by exact Hk. split; reflexivity.
Qed.

(** X24: identifiers are not checked for duplicates, and the last state
    listed under an identifier is the one the caches know: its position and
    its payload are what the two caches hold for the identifier, so that
    an earlier state with the same identifier cannot be reached. *)
Theorem NewStateMachine_last_wins (pre post : list (State V D)) (s : State V D) :
  (forall s', In s' post -> State_Id s' <> State_Id s) ->
  IdRingAddressCache (NewStateMachine (pre ++ s :: post)) !! State_Id s
  = Some (Some (length pre))
  /\ ValueCache (NewStateMachine (pre ++ s :: post)) !! State_Id s
     = Some (State_StateValue s).
Proof.
  intros Hpost.
  destruct (pre ++ s :: post) as [|s0 rest] eqn:E; [destruct pre; discriminate|].
  rewrite NewStateMachine_populateAll, <- E. clear E.
  rewrite map_app. simpl map. rewrite populateAll_app.
  change (stateEntry s :: map stateEntry post)
    with ((RState s, State_Id s, State_StateValue s) :: map stateEntry post).
  rewrite populateAll_cons.
  set (n := length (pre ++ s :: post)).
  set (sm1 := populateAll (freshMachine n (State_Id s0)) (map stateEntry pre)).
  destruct (populateAll_shape (map stateEntry pre) (freshMachine n (State_Id s0)) n)
    as [_ Hcur].
  { simpl. apply length_replicate. }
  { subst n. rewrite length_app. simpl. lia. }
  fold sm1 in Hcur. simpl in Hcur. rewrite length_map in Hcur.
  rewrite Nat.mod_small in Hcur by (subst n; rewrite length_app; simpl; lia).
  destruct (populateAll_untouched (map stateEntry post)
              (populateStep sm1 (RState s) (State_Id s) (State_StateValue s))
              (State_Id s)) as [Ha Hv].
  { intros e He. apply in_map_iff in He. destruct He as (s' & <- & Hin).
    apply (Hpost s' Hin). }
  unfold StateId, RingAddress, StateValue in *.
  rewrite Ha, Hv. unfold populateStep. simpl.
  rewrite !lookup_insert_eq, Hcur. split; reflexivity.
Qed.

End MachineExtras.

Lemma NewStateMachine_consistent_witness :
  length (Ring_elems machineABC) = 3%nat
  /\ Ring_cur machineABC = 0%nat
  /\ Start machineABC = "A"%string.
Proof.
  destruct (NewStateMachine_consistent [stateA; stateB; stateC]) as (H1 & H2 & H3 & _).
  - apply (bool_decide_unpack _). vm_compute. exact I.
  - split; [exact H1|]. split; [exact H2 | exact H3].
Defined.

Lemma ProcessInMachine_unknown_value_witness :
  ProcessInMachine machineABC (map_to_list (ValueCache machineABC))
    (Some "Z"%string) "go"%string BasicEquals
  = (None, Some (New "id does not exist in machine")).
Proof.
  apply (proj1 ProcessInMachine_unknown_value [stateA; stateB; stateC]).
  - reflexivity.
  - intros s [<-|[<-|[<-|[]]]]; (split; [discriminate | vm_compute; reflexivity]).
Defined.

Lemma ProcessInMachine_step_witness :
  ProcessInMachine machineABC (map_to_list (ValueCache machineABC))
    (Some "A"%string) "go"%string BasicEquals
  = (Some "B"%string, None).
Proof.
  apply (ProcessInMachine_step [stateA; stateB; stateC] stateA stateB "B"%string
           (map_to_list (ValueCache machineABC)) (Some "A"%string) "go"%string
           BasicEquals [] [] (mkTransition "B" onGo)).
  - apply (bool_decide_unpack _). vm_compute. exact I.
  - simpl. auto.
  - simpl. auto.
  - reflexivity.
  - vm_compute. reflexivity.
  - intros s [<-|[<-|[<-|[]]]]; vm_compute; congruence.
  - reflexivity.
  - reflexivity.
  - intros m' [].
  - reflexivity.
  - reflexivity.
  - discriminate.
  - discriminate.
  - reflexivity.
Defined.

Lemma ProcessInMachine_no_transition_witness :
  ProcessInMachine machineABC (map_to_list (ValueCache machineABC))
    (Some "A"%string) "stop"%string BasicEquals
  = (None, Some (New "no valid transitions available")).
Proof.
  apply (ProcessInMachine_no_transition [stateA; stateB; stateC] stateA).
  - apply (bool_decide_unpack _). vm_compute. exact I.
  - simpl. auto.
  - reflexivity.
  - vm_compute. reflexivity.
  - intros s [<-|[<-|[<-|[]]]]; vm_compute; congruence.
  - reflexivity.
  - intros m [<-|[]]. reflexivity.
Defined.

Lemma ProcessInMachine_bad_target_witness :
  ProcessInMachine machineLoop (map_to_list (ValueCache machineLoop))
    (Some "L"%string) "stop"%string BasicEquals
  = (None, Some (New "next id does not exist in machine")).
Proof.
  apply (proj1 (ProcessInMachine_bad_target [stateLoop] stateLoop
                  (map_to_list (ValueCache machineLoop)) (Some "L"%string)
                  "stop"%string BasicEquals
                  [mkTransition "L" onGo] [] (mkTransition "X" (fun _ => true))
                  ltac:(apply (bool_decide_unpack _); vm_compute; exact I)
                  ltac:(simpl; auto)
                  ltac:(reflexivity)
                  ltac:(vm_compute; reflexivity)
                  ltac:(intros s [<-|[]]; reflexivity)
                  ltac:(reflexivity)
                  ltac:(reflexivity)
                  ltac:(intros m' [<-|[]]; reflexivity)
                  ltac:(reflexivity)
                  ltac:(discriminate))).
  intros s' [<-|[]]. discriminate.
Defined.

Lemma ConditionalStateMachine_step_witness :
  ConditionalStateMachine_ProcessInMachine cmachineABC
    (map_to_list (ValueCache cmachineABC)) (Some "A"%string) "go"%string BasicEquals
  = (Some "B"%string, None).
Proof.
  apply (proj1 (ConditionalStateMachine_step [cstateA; cstateB; cstateC] cstateA
                  (map_to_list (ValueCache cmachineABC)) (Some "A"%string)
                  "go"%string BasicEquals
                  ltac:(apply (bool_decide_unpack _); vm_compute; exact I)
                  ltac:(simpl; auto)
                  ltac:(reflexivity)
                  ltac:(vm_compute; reflexivity)
                  ltac:(intros s [<-|[<-|[<-|[]]]]; vm_compute; congruence))
           [] (mkConditionalTransition "B" gateOnGo) [] cstateB "B"%string).
  - reflexivity.
  - intros o' [].
  - reflexivity.
  - simpl. auto.
  - reflexivity.
  - discriminate.
  - reflexivity.
Defined.

Lemma NewStateMachine_last_wins_witness :
  let sm := NewStateMachine [stateA; stateB; stateA'] in
  IdRingAddressCache sm !! "A"%string = Some (Some 2%nat)
  /\ ValueCache sm !! "A"%string = Some (Some "A2"%string).
Proof.
  cbv zeta. apply (NewStateMachine_last_wins [stateA; stateB] [] stateA').
  intros s' [].
Defined.

(** ** Comparisons with nil *)

(** X25: no cell is less than, greater than or equal to nil. *)
Theorem comparisons_with_nil_are_false (f : Field) :
  Field_Equal f None = false
  /\ Field_LessThan f None = false
  /\ Field_GreaterThan f None = false.
Proof. exact (Field_compare_nil f). Qed.

(** ** Gates put together *)

Section GateExtras.

Context {A : Type}.
Implicit Types (ps : list (Prerequisite A)) (v : A).

Lemma meetsLoop_app ps1 ps2 v :
  meetsLoop (ps1 ++ ps2) v = meetsLoop ps1 v && meetsLoop ps2 v.
Proof.
  induction ps1 as [|p ps1 IH]; simpl; [reflexivity|].
  destruct (IsCandidate p v); [destruct (runGauntlet (Gauntlet p) v)|];
    simpl; auto.
Qed.

(** X26: a gate over the prerequisites of two gates approves exactly what
    both approve. *)
Theorem Meets_app ps1 ps2 v :
  Meets (Conditions (ps1 ++ ps2)) v = Meets (Conditions ps1) v && Meets (Conditions ps2) v.
Proof. apply meetsLoop_app. Qed.

(** X27: the verdict of a gate does not depend on the order in which its
    prerequisites are listed. *)
Theorem Meets_Permutation ps1 ps2 v :
  ps1 ≡ₚ ps2 -> Meets (Conditions ps1) v = Meets (Conditions ps2) v.
Proof.
  intros Hperm. unfold Meets, Conditions. simpl.
  destruct (meetsLoop ps1 v) eqn:E1, (meetsLoop ps2 v) eqn:E2; try reflexivity.
  - apply meetsLoop_false in E2. destruct E2 as (p & Hin & H).
    assert (E : meetsLoop ps1 v = false).
    { apply meetsLoop_false. exists p. split; [|exact H].
      apply list_elem_of_In. rewrite Hperm. apply list_elem_of_In. exact Hin. }
    congruence.
  - apply meetsLoop_false in E1. destruct E1 as (p & Hin & H).
    assert (E : meetsLoop ps2 v = false).
    { apply meetsLoop_false. exists p. split; [|exact H].
      apply list_elem_of_In. rewrite <- Hperm. apply list_elem_of_In. exact Hin. }
    congruence.
Qed.

End GateExtras.

Lemma Meets_Permutation_witness :
  let p := mkPrerequisite (fun v => String.eqb v "X") [fun _ => EnforceableFalse] in
  let q := mkPrerequisite (@EnforceableTrue string) [fun _ => EnforceableTrue] in
  Meets (Conditions [p; q]) "X"%string = Meets (Conditions [q; p]) "X"%string.
Proof.
  cbv zeta.
  apply (Meets_Permutation
           [mkPrerequisite (fun v => String.eqb v "X") [fun _ => EnforceableFalse];
            mkPrerequisite (@EnforceableTrue string) [fun _ => EnforceableTrue]]).
  apply perm_swap.
Defined.

(** ** Defaults *)

(** X28: a field wrapped with itself as baseline and not explicitly set is
    at its default, whatever it holds; explicitly set, it is not. *)
Theorem IsDefault_own_baseline (f : Field) (explicitly : bool) :
  IsDefault (NewFieldWDefault f (NewDefault explicitly f)) = negb explicitly.
Proof.
  unfold IsDefault, NewFieldWDefault, NewDefault, MatchesDefault, ExplicitlySet. simpl.
  rewrite Field_Equal_self. reflexivity.
Qed.

(** X29: the wrapper made by [NewEmptyCFWD] holds one cell as its field and
    as its baseline.  A write through the wrapper is therefore a write to
    the baseline as well: after [SetValue] or [FromString] the field still
    matches the default, whatever was written, and the wrapper is still not
    explicitly set. *)
Theorem NewEmptyCFWD_always_matches (prereqs : list (Prerequisite Field))
    (p q : Ref) (st : string) (σ : Store) :
  is_Some (σ !! p) -> is_Some (σ !! q) ->
  let w := NewEmptyCFWD prereqs p in
  (exists σ', cfwd_SetValue w q σ = Some σ'
              /\ cfwd_MatchesDefault w (cfwd_Field w) σ' = Some true)
  /\ (exists σ', cfwd_FromString w st σ = Some σ'
                 /\ cfwd_MatchesDefault w (cfwd_Field w) σ' = Some true)
  /\ cfwd_ExplicitlySet w = false.
Proof.
  intros [f Hf] [g Hg] w. subst w.
  unfold cfwd_SetValue, cfwd_FromString, cfwd_MatchesDefault, NewEmptyCFWD. simpl.
  unfold Store in *. rewrite Hf, Hg. repeat split.
  - eexists. split; [reflexivity|]. rewrite lookup_insert_eq, Field_Equal_self.
    reflexivity.
  - eexists. split; [reflexivity|]. rewrite lookup_insert_eq, Field_Equal_self.
    reflexivity.
Qed.

Lemma NewEmptyCFWD_always_matches_witness :
  let σ : Store := <[0%nat := FInteger (mkIntegerField 0 FieldKeyNil)]>
                     (<[1%nat := FInteger (mkIntegerField 9 FieldKeyNil)]> ∅) in
  let w := NewEmptyCFWD [] 0%nat in
  exists σ', cfwd_SetValue w 1%nat σ = Some σ'
             /\ cfwd_MatchesDefault w (cfwd_Field w) σ' = Some true.
Proof.
  cbv zeta.
  apply (NewEmptyCFWD_always_matches [] 0%nat 1%nat ""
           (<[0%nat := FInteger (mkIntegerField 0 FieldKeyNil)]>
              (<[1%nat := FInteger (mkIntegerField 9 FieldKeyNil)]> ∅))).
  - eexists. reflexivity.
  - eexists. reflexivity.
Defined.
